(** * CoinFantasy Hedera SDK: request/retry layer, security utilities and
      wallet manager

    A shallow embedding of [src/client.ts] (retry wrapper), [src/security.ts]
    (sanitisation, redaction, rate limiter), [src/wallet.ts] (wallet manager)
    and the two wallet adapters, with the properties the specification
    states about them. *)

From Stdlib Require Import ZArith QArith List String Ascii Bool Lia.
From Stdlib Require Import DecimalString.
Import ListNotations.
Local Open Scope string_scope.
Local Open Scope Z_scope.

Set Implicit Arguments.

(* ================================================================== *)
(** * Strings

    A JavaScript string is represented by the bytes of its UTF-8 encoding.
    Every character the code inspects (control characters, ASCII letters
    and digits, ['.'], [':'], the JSON punctuation) is a single byte, and
    no byte of a multi-byte character falls below 128, so the character
    classes and the substring tests of the source read the same on bytes.
    Lengths and positions count bytes; they are the lengths and positions
    of the code, which counts UTF-16 code units, on ASCII text. *)

Module Str.

Definition code (c : ascii) : Z := Z.of_N (N_of_ascii c).
Definition chr (z : Z) : ascii := ascii_of_N (Z.to_N z).

Fixpoint filter (p : ascii -> bool) (s : string) : string :=
  match s with
  | EmptyString => EmptyString
  | String c s' => if p c then String c (filter p s') else filter p s'
  end.

Fixpoint map (f : ascii -> ascii) (s : string) : string :=
  match s with
  | EmptyString => EmptyString
  | String c s' => String (f c) (map f s')
  end.

Fixpoint all (p : ascii -> bool) (s : string) : bool :=
  match s with
  | EmptyString => true
  | String c s' => p c && all p s'
  end.

(** [startsWith s t]: [t] is a prefix of [s]. *)
Fixpoint startsWith (s t : string) : bool :=
  match t, s with
  | EmptyString, _ => true
  | String b t', String a s' => Ascii.eqb a b && startsWith s' t'
  | String _ _, EmptyString => false
  end.

(** [String.prototype.includes]. *)
Fixpoint includes (s t : string) : bool :=
  startsWith s t ||
  match s with
  | EmptyString => false
  | String _ s' => includes s' t
  end.

Definition is_upper (c : ascii) : bool := (65 <=? code c) && (code c <=? 90).
Definition is_digit (c : ascii) : bool := (48 <=? code c) && (code c <=? 57).

Definition lower (c : ascii) : ascii :=
  if is_upper c then chr (code c + 32) else c.

(** U+0307 COMBINING DOT ABOVE, in UTF-8. *)
Definition dot_above : string := String (chr 204) (String (chr 135) EmptyString).

(** [String.prototype.toLowerCase].  The letters [A-Z] are mapped to
    [a-z].  Two characters outside ASCII have a lower-case form that
    holds an ASCII letter, and both are mapped: U+212A KELVIN SIGN
    (bytes E2 84 AA) becomes [k], and U+0130 LATIN CAPITAL LETTER I WITH
    DOT ABOVE (bytes C4 B0) becomes [i] followed by U+0307.  Every other
    character outside ASCII is lower-cased by the code to characters
    outside ASCII again; its bytes are kept here, which leaves the ASCII
    text a lower-cased string contains as the code has it. *)
Fixpoint toLowerCase (s : string) : string :=
  match s with
  | EmptyString => EmptyString
  | String c s1 =>
      match s1 with
      | String c2 s2 =>
          if (code c =? 196) && (code c2 =? 176)
          then String "i" (dot_above ++ toLowerCase s2)
          else
            match s2 with
            | String c3 s3 =>
                if (code c =? 226) && (code c2 =? 132) && (code c3 =? 170)
                then String "k" (toLowerCase s3)
                else String (lower c) (toLowerCase s1)
            | EmptyString => String (lower c) (toLowerCase s1)
            end
      | EmptyString => String (lower c) (toLowerCase s1)
      end
  end.

(** [s.split(sep)] for a one-character separator. *)
Fixpoint split_on (sep : ascii) (cur : string) (s : string) : list string :=
  match s with
  | EmptyString => [cur]
  | String c s' =>
      if Ascii.eqb c sep then cur :: split_on sep EmptyString s'
      else split_on sep (cur ++ String c EmptyString) s'
  end.
Definition split (sep : ascii) (s : string) : list string :=
  split_on sep EmptyString s.

(** Truthiness of a string: the empty string is falsy. *)
Definition truthy (s : string) : bool :=
  match s with EmptyString => false | _ => true end.

End Str.

(* ================================================================== *)
(** * JavaScript values

    The values that flow through the untyped parts of the code
    ([Record<string, unknown>], the result of [JSON.parse]).  A number
    carries the rational it denotes; the code never computes with these.
    An object is the list of its own enumerable properties in the order
    [Object.entries] yields them; its keys are pairwise distinct ordinary
    property names, so that assigning the entries one by one to a fresh
    object rebuilds the list. *)

Module JS.

Unset Elimination Schemes.
Inductive value : Type :=
| Undefined
| Null
| Bool (b : bool)
| Num (q : Q)
| Str (s : string)
| Arr (items : list value)
| Obj (props : list (string * value)).
Set Elimination Schemes.

Definition record := list (string * value).

Section Induction.
Variable P : value -> Prop.
Hypothesis HUndefined : P Undefined.
Hypothesis HNull : P Null.
Hypothesis HBool : forall b, P (Bool b).
Hypothesis HNum : forall q, P (Num q).
Hypothesis HStr : forall s, P (Str s).
Hypothesis HArr : forall items, Forall P items -> P (Arr items).
Hypothesis HObj :
  forall props, Forall (fun kv => P (snd kv)) props -> P (Obj props).

Fixpoint value_ind (v : value) : P v :=
  match v with
  | Undefined => HUndefined
  | Null => HNull
  | Bool b => HBool b
  | Num q => HNum q
  | Str s => HStr s
  | Arr items =>
      HArr ((fix go (l : list value) : Forall P l :=
               match l with
               | [] => Forall_nil _
               | x :: l' => Forall_cons x (value_ind x) (go l')
               end) items)
  | Obj props =>
      HObj ((fix go (l : record) : Forall (fun kv => P (snd kv)) l :=
               match l with
               | [] => Forall_nil _
               | kv :: l' => Forall_cons kv (value_ind (snd kv)) (go l')
               end) props)
  end.
End Induction.

(** Property read [o[key]] on a record: the value of the own property,
    [Undefined] when there is none. *)
Fixpoint get (key : string) (o : record) : value :=
  match o with
  | [] => Undefined
  | (k, v) :: o' => if String.eqb k key then v else get key o'
  end.

(** Property write [o[key] = v]: replaces the value in place when the
    key exists, appends a new property otherwise. *)
Fixpoint set (key : string) (v : value) (o : record) : record :=
  match o with
  | [] => [(key, v)]
  | (k, w) :: o' =>
      if String.eqb k key then (k, v) :: o' else (k, w) :: set key v o'
  end.

(** Follow a path of keys through nested records (never through arrays). *)
Fixpoint at_path (path : list string) (v : value) : option value :=
  match path with
  | [] => Some v
  | key :: rest =>
      match v with
      | Obj o =>
          match find (fun kv => String.eqb (fst kv) key) o with
          | Some kv => at_path rest (snd kv)
          | None => None
          end
      | _ => None
      end
  end.

(** Every string value contained in a value, at every nesting depth,
    inside records and inside arrays. *)
Fixpoint strings_of (v : value) : list string :=
  match v with
  | Str s => [s]
  | Arr items => flat_map strings_of items
  | Obj props => flat_map (fun kv => strings_of (snd kv)) props
  | _ => []
  end.

(** The string values met when only records are entered: the property
    values of a record and of the records nested in it. *)
Fixpoint record_strings (v : value) : list string :=
  match v with
  | Str s => [s]
  | Obj props => flat_map (fun kv => record_strings (snd kv)) props
  | _ => []
  end.

(** ['__proto__'] is the one key that [o[key] = v] does not store as an
    own property of a plain object.  A record read from outside can hold
    it ([JSON.parse] creates it as an own property); the functions that
    rebuild a record entry by entry are modelled for records without
    it. *)
Definition ordinary_key (key : string) : bool := negb (String.eqb key "__proto__").

(** No record of [v], at any depth below records, has the key. *)
Fixpoint ordinary_keys_deep (v : value) : bool :=
  match v with
  | Obj o => forallb (fun kv => ordinary_key (fst kv) && ordinary_keys_deep (snd kv)) o
  | _ => true
  end.

End JS.

(* ================================================================== *)
(** * Security utilities ([src/security.ts]) *)

Module Security.
Import JS.

(** The character class [[\x00-\x1F\x7F]]. *)
Definition is_control (c : ascii) : bool :=
  (Str.code c <=? 31) || (Str.code c =? 127).

(** [value.replace(/[\x00-\x1F\x7F]/g, '')]. *)
Definition strip_controls (s : string) : string :=
  Str.filter (fun c => negb (is_control c)) s.

Definition control_free (s : string) : bool :=
  Str.all (fun c => negb (is_control c)) s.

(** The body of the loop of [sanitizeEventData] for one property value:
    strings are stripped, plain objects are sanitised recursively,
    everything else (arrays included) is copied. *)
Fixpoint sanitize_value (v : value) : value :=
  match v with
  | Str s => Str (strip_controls s)
  | Obj o => Obj (List.map (fun kv => (fst kv, sanitize_value (snd kv))) o)
  | _ => v
  end.

Definition sanitizeEventData (data : record) : record :=
  List.map (fun kv => (fst kv, sanitize_value (snd kv))) data.

(** ** [redactSensitiveData] *)

Definition sensitiveKeys : list string :=
  [ "apiKey"; "api_key"; "apikey";
    "privateKey"; "private_key"; "privatekey";
    "operatorKey"; "operator_key";
    "password"; "secret"; "token";
    "authorization"; "auth" ].

Definition REDACTED : string := "[REDACTED]".

Definition isSensitive (key : string) : bool :=
  let lowerKey := Str.toLowerCase key in
  existsb (fun sk => Str.includes lowerKey sk) sensitiveKeys.

(** The value stored for a key that is not sensitive: a plain object is
    redacted recursively, anything else is copied. *)
Fixpoint redact_nested (v : value) : value :=
  match v with
  | Obj o =>
      Obj (List.map
             (fun kv => (fst kv,
                         if isSensitive (fst kv) then Str REDACTED
                         else redact_nested (snd kv))) o)
  | _ => v
  end.

Definition redact_entry (kv : string * value) : string * value :=
  (fst kv, if isSensitive (fst kv) then Str REDACTED else redact_nested (snd kv)).

Definition redactSensitiveData (obj : record) : record :=
  List.map redact_entry obj.

(** ** Identifier validation *)

(** [/^0\.0\.\d+$/.test(s)]. *)
Definition matches_id_pattern (s : string) : bool :=
  match s with
  | String "0" (String "." (String "0" (String "." digits))) =>
      Str.truthy digits && Str.all Str.is_digit digits
  | _ => false
  end.

Definition isValidAccountId (accountId : string) : bool :=
  if negb (Str.truthy accountId) then false else matches_id_pattern accountId.

Definition isValidNetwork (network : string) : bool :=
  String.eqb network "testnet" || String.eqb network "mainnet".

End Security.

(** ** Rate limiter *)

Module RateLimiter.

Record t : Type := mk {
  requests : list Z;      (* timestamps of the grants, oldest first *)
  maxRequests : Z;
  windowMs : Z
}.

Definition create (maxRequests windowMs : Z) : t :=
  mk [] maxRequests windowMs.

Definition with_requests (rl : t) (rs : list Z) : t :=
  mk rs (maxRequests rl) (windowMs rl).

(** What one pass through the body of [acquire] does when [Date.now()]
    reads [now]: either the slot is granted, or the caller is suspended
    for [waitTime] milliseconds before [acquire] is entered again.
    [waitTime] is [None] when [this.requests[0]] is [undefined] and the
    subtraction yields [NaN]. *)
Inductive pass : Type :=
| Granted (rl : t)
| Suspended (waitTime : option Z) (rl : t).

Definition in_window (rl : t) (now time : Z) : bool := now - time <? windowMs rl.

Definition acquire_pass (now : Z) (rl : t) : pass :=
  let kept := List.filter (in_window rl now) (requests rl) in
  if Z.of_nat (List.length kept) >=? maxRequests rl then
    let oldestRequest := hd_error kept in
    let waitTime := option_map (fun o => windowMs rl - (now - o)) oldestRequest in
    Suspended waitTime (with_requests rl kept)
  else
    Granted (with_requests rl (kept ++ [now])).

(** [timer now d] is the clock reading at which a [setTimeout] of [d]
    milliseconds armed at [now] resolves; a [NaN] delay counts as 0. *)
Definition wake (timer : Z -> Z -> Z) (now : Z) (waitTime : option Z) : Z :=
  match waitTime with
  | Some d => timer now d
  | None => timer now 0
  end.

(** [acquire]: the clock reading at which the call returns, and the
    limiter it leaves.  [fuel] bounds the number of passes. *)
Fixpoint acquire (timer : Z -> Z -> Z) (fuel : nat) (now : Z) (rl : t)
  : option (Z * t) :=
  match fuel with
  | O => None
  | S fuel' =>
      match acquire_pass now rl with
      | Granted rl' => Some (now, rl')
      | Suspended waitTime rl' => acquire timer fuel' (wake timer now waitTime) rl'
      end
  end.

Definition reset (rl : t) : t := with_requests rl [].

(** Sequential calls: each element of [gaps] is the time the caller lets
    pass before the next [await limiter.acquire()]. *)
Fixpoint acquire_all (timer : Z -> Z -> Z) (fuel : nat) (gaps : list Z)
  (now : Z) (rl : t) : option (Z * t) :=
  match gaps with
  | [] => Some (now, rl)
  | g :: gaps' =>
      match acquire timer fuel (now + g) rl with
      | Some (now', rl') => acquire_all timer fuel gaps' now' rl'
      | None => None
      end
  end.

(** A timer that fires exactly on time. *)
Definition exact_timer (now d : Z) : Z := now + Z.max d 0.

(** A timer never fires early and never moves the clock backwards. *)
Definition timer_sound (timer : Z -> Z -> Z) : Prop :=
  forall now d, now <= timer now d /\ now + d <= timer now d.

(** What holds after [k] sequential calls on a limiter created with
    [maxR] and [window], the first call entered at [t0]: either a full
    window of time has passed, or every call so far was granted without
    pruning. *)
Definition after_calls (maxR window t0 : Z) (k : nat) (now : Z) (rl : t) : Prop :=
  maxRequests rl = maxR /\ windowMs rl = window /\ t0 <= now
  /\ Z.of_nat (List.length (requests rl)) <= maxR
  /\ (t0 + window <= now
      \/ (List.length (requests rl) = k
          /\ Forall (fun time => t0 <= time) (requests rl))).

End RateLimiter.

(* ================================================================== *)
(** * HTTP client wrapper ([src/client.ts])

    Delays, counters and status codes are integers; [Z] is exact for them. *)

Module Client.

(** [a ?? d] *)
Definition nullish (a : option Z) (d : Z) : Z :=
  match a with Some z => z | None => d end.

(** [a || d] on numbers: [undefined] and [0] are falsy. *)
Definition or_else (a : option Z) (d : Z) : Z :=
  match a with
  | Some z => if z =? 0 then d else z
  | None => d
  end.

Record RetryOptions : Type := {
  maxRetries : option Z;
  baseDelay : option Z;
  maxDelay : option Z;
  exponentialBase : option Z
}.

(** [config.retryOptions] as the caller passes it: a key can be missing,
    or present with a number or with [undefined]. *)
Record RetryOptionsInput : Type := {
  given_maxRetries : option (option Z);
  given_baseDelay : option (option Z);
  given_maxDelay : option (option Z);
  given_exponentialBase : option (option Z)
}.

Definition no_overrides : RetryOptionsInput :=
  {| given_maxRetries := None; given_baseDelay := None;
     given_maxDelay := None; given_exponentialBase := None |}.

(** One key of [{ key: dflt, ...given }]. *)
Definition spread (dflt : Z) (given : option (option Z)) : option Z :=
  match given with
  | None => Some dflt
  | Some v => v
  end.

(** The [retryOptions] the constructor stores. *)
Definition constructor_retryOptions (given : option RetryOptionsInput) : RetryOptions :=
  let g := match given with Some g => g | None => no_overrides end in
  {| maxRetries := spread 3 (given_maxRetries g);
     baseDelay := spread 1000 (given_baseDelay g);
     maxDelay := spread 30000 (given_maxDelay g);
     exponentialBase := spread 2 (given_exponentialBase g) |}.

Definition default_retryOptions : RetryOptions := constructor_retryOptions None.

Record RequestConfig : Type := {
  method : option string;
  url : option string;
  retryCount : option Z          (* [__retryCount] *)
}.

Definition with_retryCount (cfg : RequestConfig) (n : Z) : RequestConfig :=
  {| method := method cfg; url := url cfg; retryCount := Some n |}.

Definition empty_config : RequestConfig :=
  {| method := None; url := None; retryCount := None |}.

Record Response : Type := {
  status : Z;
  data : JS.value
}.

Record AxiosError : Type := {
  config : option RequestConfig;
  code : option string;
  response : option Response
}.

(** What reaches the rejection interceptor. *)
Inductive Failure : Type :=
| NotAxiosError
| IsAxiosError (e : AxiosError).

Definition code_is (e : AxiosError) (c : string) : bool :=
  match code e with Some c' => String.eqb c' c | None => false end.

Definition has_response (e : AxiosError) : bool :=
  match response e with Some _ => true | None => false end.

(** [axiosErr.response.status]; it is only read when there is a response. *)
Definition status_of (e : AxiosError) : Z :=
  match response e with Some r => status r | None => 0 end.

Definition shouldRetry (opts : RetryOptions) (error : Failure) : bool :=
  match error with
  | NotAxiosError => false
  | IsAxiosError axiosErr =>
      match config axiosErr with
      | None => false
      | Some cfg =>
          if nullish (retryCount cfg) 0 >=? nullish (maxRetries opts) 0 then false
          else
            negb (has_response axiosErr)
            || code_is axiosErr "ECONNABORTED"
            || ((status_of axiosErr >=? 500) && (status_of axiosErr <? 600))
            || (status_of axiosErr =? 429)
      end
  end.

(** The delay computed by [retryRequest] once the counter reads [count]. *)
Definition retryDelay (opts : RetryOptions) (count : Z) : Z :=
  Z.min (nullish (baseDelay opts) 1000
         * Z.pow (nullish (exponentialBase opts) 2) (or_else (Some count) 1 - 1))
        (nullish (maxDelay opts) 30000).

(** [retryRequest] up to the re-issue: the config with its counter
    incremented and the time to sleep. *)
Definition retryRequest (opts : RetryOptions) (error : AxiosError)
  : RequestConfig * Z :=
  let cfg := match config error with Some c => c | None => empty_config end in
  let count := or_else (retryCount cfg) 0 + 1 in
  (with_retryCount cfg count, retryDelay opts count).

(** What the transport answers to one attempt. *)
Inductive Outcome : Type :=
| Answered (r : Response)
| Unanswered (code : option string).

(** How axios settles an attempt (default [validateStatus]): a 2xx answer
    resolves, anything else rejects with an [AxiosError] that carries the
    request config. *)
Definition settle (cfg : RequestConfig) (o : Outcome) : Response + AxiosError :=
  match o with
  | Answered r =>
      if (status r >=? 200) && (status r <? 300) then inl r
      else inr {| config := Some cfg;
                  code := if (status r >=? 400) && (status r <? 500)
                          then Some "ERR_BAD_REQUEST"
                          else if (status r >=? 500) && (status r <? 600)
                               then Some "ERR_BAD_RESPONSE" else None;
                  response := Some r |}
  | Unanswered c => inr {| config := Some cfg; code := c; response := None |}
  end.

Inductive Settled : Type :=
| Resolved (r : Response)
| Rejected (e : AxiosError).

(** [this.client(config)] with the response interceptor installed.
    [transport k] is the answer to the [k]-th attempt on the wire; the
    result carries the delays slept, one per retry, in order.  The
    re-issued request carries the config [retryRequest] has updated, and
    an error of that request carries it in turn. *)
Fixpoint request (opts : RetryOptions) (transport : nat -> Outcome)
  (fuel : nat) (k : nat) (cfg : RequestConfig) : option (Settled * list Z) :=
  match fuel with
  | O => None
  | S fuel' =>
      match settle cfg (transport k) with
      | inl r => Some (Resolved r, [])
      | inr error =>
          if shouldRetry opts (IsAxiosError error) then
            let '(cfg', delay) := retryRequest opts error in
            match request opts transport fuel' (S k) cfg' with
            | Some (res, delays) => Some (res, delay :: delays)
            | None => None
            end
          else Some (Rejected error, [])
      end
  end.

(** The common body of [get], [post], [put] and [delete]: a fresh config
    goes to the client and [response.data] is returned.  Payloads and
    query parameters play no part in the retry logic and are left out. *)
Definition call (opts : RetryOptions) (transport : nat -> Outcome) (fuel : nat)
  (meth path : string) : option ((JS.value + AxiosError) * list Z) :=
  match request opts transport fuel O
          {| method := Some meth; url := Some path; retryCount := None |} with
  | Some (Resolved r, delays) => Some (inl (data r), delays)
  | Some (Rejected e, delays) => Some (inr e, delays)
  | None => None
  end.

Definition get (opts : RetryOptions) (transport : nat -> Outcome) (fuel : nat)
  (path : string) := call opts transport fuel "get" path.
Definition post (opts : RetryOptions) (transport : nat -> Outcome) (fuel : nat)
  (path : string) := call opts transport fuel "post" path.
Definition put (opts : RetryOptions) (transport : nat -> Outcome) (fuel : nat)
  (path : string) := call opts transport fuel "put" path.
Definition delete (opts : RetryOptions) (transport : nat -> Outcome) (fuel : nat)
  (path : string) := call opts transport fuel "delete" path.

End Client.

(* ================================================================== *)
(** * [JSON.parse] and [JSON.stringify]

    The built-in parser, following the JSON grammar (ECMA-404): [parse]
    yields [None] where [JSON.parse] throws a [SyntaxError].  A property
    name that occurs twice keeps its first position and its last value. *)

Module JSON.
Import JS.

Definition dquote : ascii := Str.chr 34.
Definition backslash : ascii := Str.chr 92.

Definition is_ws (c : ascii) : bool :=
  let n := Str.code c in (n =? 32) || (n =? 9) || (n =? 10) || (n =? 13).

Fixpoint skip_ws (s : string) : string :=
  match s with
  | String c s' => if is_ws c then skip_ws s' else s
  | EmptyString => s
  end.

Fixpoint drop (n : nat) (s : string) : string :=
  match n, s with
  | S n', String _ s' => drop n' s'
  | _, _ => s
  end.

(** Reads a run of decimal digits: the number read so far, how many
    digits were consumed, and the rest of the input. *)
Fixpoint take_digits (s : string) (acc : Z) (n : Z) : Z * Z * string :=
  match s with
  | String c s' =>
      if Str.is_digit c then take_digits s' (10 * acc + (Str.code c - 48)) (n + 1)
      else (acc, n, s)
  | EmptyString => (acc, n, s)
  end.

Definition scale10 (m e : Z) : Q :=
  if 0 <=? e then inject_Z (m * 10 ^ e) else Qmake m (Z.to_pos (10 ^ (- e))).

Definition parse_fraction (int_part : Z) (s : string) : option (Z * Z * string) :=
  match s with
  | String "." s' =>
      let '(m, k, r) := take_digits s' int_part 0 in
      if k =? 0 then None else Some (m, k, r)
  | _ => Some (int_part, 0, s)
  end.

Definition parse_exponent (s : string) : option (Z * string) :=
  match s with
  | String c s' =>
      if Ascii.eqb c "e" || Ascii.eqb c "E" then
        let '(neg, s1) :=
          match s' with
          | String "-" t => (true, t)
          | String "+" t => (false, t)
          | _ => (false, s')
          end in
        let '(e, k, r) := take_digits s1 0 0 in
        if k =? 0 then None else Some (if neg then - e else e, r)
      else Some (0, s)
  | EmptyString => Some (0, s)
  end.

Definition parse_number (s : string) : option (Q * string) :=
  let '(neg, s1) :=
    match s with
    | String "-" t => (true, t)
    | _ => (false, s)
    end in
  let '(ip, n, s2) := take_digits s1 0 0 in
  if n =? 0 then None
  else if Str.startsWith s1 "0" && (1 <? n) then None
  else
    match parse_fraction ip s2 with
    | None => None
    | Some (m, fl, s3) =>
        match parse_exponent s3 with
        | None => None
        | Some (e, s4) => Some (scale10 (if neg then - m else m) (e - fl), s4)
        end
    end.

Definition hex_val (c : ascii) : option Z :=
  let n := Str.code c in
  if (48 <=? n) && (n <=? 57) then Some (n - 48)
  else if (65 <=? n) && (n <=? 70) then Some (n - 55)
  else if (97 <=? n) && (n <=? 102) then Some (n - 87)
  else None.

Definition take_hex4 (s : string) : option (Z * string) :=
  match s with
  | String a (String b (String c (String d rest))) =>
      match hex_val a, hex_val b, hex_val c, hex_val d with
      | Some x, Some y, Some z, Some w => Some (((x * 16 + y) * 16 + z) * 16 + w, rest)
      | _, _, _, _ => None
      end
  | _ => None
  end.

Definition byte1 (z : Z) : string := String (Str.chr z) EmptyString.

(** UTF-8 bytes of a code point (a lone surrogate is encoded like any
    other three-byte code point). *)
Definition utf8 (cp : Z) : string :=
  if cp <? 128 then byte1 cp
  else if cp <? 2048 then byte1 (192 + cp / 64) ++ byte1 (128 + cp mod 64)
  else if cp <? 65536 then
    byte1 (224 + cp / 4096) ++ byte1 (128 + (cp / 64) mod 64) ++ byte1 (128 + cp mod 64)
  else
    byte1 (240 + cp / 262144) ++ byte1 (128 + (cp / 4096) mod 64)
    ++ byte1 (128 + (cp / 64) mod 64) ++ byte1 (128 + cp mod 64).

Definition is_high_surrogate (u : Z) : bool := (55296 <=? u) && (u <=? 56319).
Definition is_low_surrogate (u : Z) : bool := (56320 <=? u) && (u <=? 57343).

(** The low half of a surrogate pair, when the input continues with one. *)
Definition take_low_surrogate (s : string) : option (Z * string) :=
  match s with
  | String b (String "u" r) =>
      if Ascii.eqb b backslash then
        match take_hex4 r with
        | Some (lo, r') => if is_low_surrogate lo then Some (lo, r') else None
        | None => None
        end
      else None
  | _ => None
  end.

Definition simple_escape (c : ascii) : option ascii :=
  if Ascii.eqb c dquote then Some dquote
  else if Ascii.eqb c backslash then Some backslash
  else if Ascii.eqb c "/" then Some "/"%char
  else if Ascii.eqb c "b" then Some (Str.chr 8)
  else if Ascii.eqb c "f" then Some (Str.chr 12)
  else if Ascii.eqb c "n" then Some (Str.chr 10)
  else if Ascii.eqb c "r" then Some (Str.chr 13)
  else if Ascii.eqb c "t" then Some (Str.chr 9)
  else None.

(** The characters of a string literal after its opening quote, up to and
    including the closing quote. *)
Fixpoint parse_chars (fuel : nat) (s : string) (acc : string)
  : option (string * string) :=
  match fuel with
  | O => None
  | S f =>
      match s with
      | EmptyString => None
      | String c s' =>
          if Ascii.eqb c dquote then Some (acc, s')
          else if Ascii.eqb c backslash then
            match s' with
            | EmptyString => None
            | String e s'' =>
                if Ascii.eqb e "u" then
                  match take_hex4 s'' with
                  | None => None
                  | Some (u, r) =>
                      match (if is_high_surrogate u then take_low_surrogate r else None) with
                      | Some (lo, r') =>
                          parse_chars f r'
                            (acc ++ utf8 (65536 + (u - 55296) * 1024 + (lo - 56320)))
                      | None => parse_chars f r (acc ++ utf8 u)
                      end
                  end
                else
                  match simple_escape e with
                  | Some x => parse_chars f s'' (acc ++ String x EmptyString)
                  | None => None
                  end
            end
          else if Str.code c <? 32 then None
          else parse_chars f s' (acc ++ String c EmptyString)
      end
  end.

Definition parse_string (s : string) : option (string * string) :=
  match s with
  | String c s' =>
      if Ascii.eqb c dquote then parse_chars (S (String.length s')) s' EmptyString
      else None
  | EmptyString => None
  end.

Fixpoint parse_value (fuel : nat) (s : string) : option (value * string) :=
  match fuel with
  | O => None
  | S f =>
      let s0 := skip_ws s in
      match s0 with
      | EmptyString => None
      | String c rest =>
          if Ascii.eqb c "{" then
            match skip_ws rest with
            | String "}" r => Some (Obj [], r)
            | _ => parse_members f rest []
            end
          else if Ascii.eqb c "[" then
            match skip_ws rest with
            | String "]" r => Some (Arr [], r)
            | _ => parse_elements f rest []
            end
          else if Ascii.eqb c dquote then
            match parse_string s0 with
            | Some (str, r) => Some (Str str, r)
            | None => None
            end
          else if Str.startsWith s0 "true" then Some (Bool true, drop 4 s0)
          else if Str.startsWith s0 "false" then Some (Bool false, drop 5 s0)
          else if Str.startsWith s0 "null" then Some (Null, drop 4 s0)
          else
            match parse_number s0 with
            | Some (q, r) => Some (Num q, r)
            | None => None
            end
      end
  end

with parse_elements (fuel : nat) (s : string) (acc : list value)
  : option (value * string) :=
  match fuel with
  | O => None
  | S f =>
      match parse_value f s with
      | None => None
      | Some (v, s1) =>
          match skip_ws s1 with
          | String "," r => parse_elements f r (acc ++ [v])
          | String "]" r => Some (Arr (acc ++ [v]), r)
          | _ => None
          end
      end
  end

with parse_members (fuel : nat) (s : string) (acc : record)
  : option (value * string) :=
  match fuel with
  | O => None
  | S f =>
      match parse_string (skip_ws s) with
      | None => None
      | Some (key, s1) =>
          match skip_ws s1 with
          | String ":" s2 =>
              match parse_value f s2 with
              | None => None
              | Some (v, s3) =>
                  match skip_ws s3 with
                  | String "," r => parse_members f r (JS.set key v acc)
                  | String "}" r => Some (Obj (JS.set key v acc), r)
                  | _ => None
                  end
              end
          | _ => None
          end
      end
  end.

(** [JSON.parse(text)]; [None] stands for the thrown [SyntaxError].  A
    value or a list of members or elements uses one unit of fuel and is at
    least one character long, so twice the length of the text is enough. *)
Definition parse (text : string) : option value :=
  match parse_value (2 * String.length text + 2) text with
  | Some (v, rest) =>
      match skip_ws rest with
      | EmptyString => Some v
      | _ => None
      end
  | None => None
  end.

Definition hex_digit (z : Z) : ascii :=
  if z <? 10 then Str.chr (48 + z) else Str.chr (87 + z).

(** The escape [JSON.stringify] writes for one character of a string. *)
Definition escape_char (c : ascii) : string :=
  let n := Str.code c in
  if Ascii.eqb c dquote then String backslash (String dquote EmptyString)
  else if Ascii.eqb c backslash then String backslash (String backslash EmptyString)
  else if n =? 8 then String backslash "b"
  else if n =? 12 then String backslash "f"
  else if n =? 10 then String backslash "n"
  else if n =? 13 then String backslash "r"
  else if n =? 9 then String backslash "t"
  else if n <? 32 then
    String backslash ("u00" ++ String (hex_digit (n / 16)) (String (hex_digit (n mod 16)) EmptyString))
  else String c EmptyString.

Fixpoint escape (s : string) : string :=
  match s with
  | EmptyString => EmptyString
  | String c s' => escape_char c ++ escape s'
  end.

(** [JSON.stringify] of a string. *)
Definition quote (s : string) : string :=
  String dquote (escape s ++ String dquote EmptyString).

(** [JSON.stringify] of an object whose properties hold strings or
    [undefined]: the properties holding [undefined] are left out. *)
Fixpoint stringify_props (props : list (string * option string)) : list string :=
  match props with
  | [] => []
  | (k, Some v) :: rest => (quote k ++ ":" ++ quote v) :: stringify_props rest
  | (_, None) :: rest => stringify_props rest
  end.

Definition stringify_strings (props : list (string * option string)) : string :=
  "{" ++ String.concat "," (stringify_props props) ++ "}".

End JSON.

(* ================================================================== *)
(** * Wallet adapters and wallet manager ([src/wallet.ts], [src/wallet/]) *)

Module Wallet.
Import JS.

(** A settled promise, or a call that returned or threw: [Err] carries
    the message of the [Error]. *)
Inductive result (A : Type) : Type :=
| Ok (a : A)
| Err (message : string).
Arguments Ok {A} a.
Arguments Err {A} message.

Definition bytes : Type := list Byte.byte.

(** [WalletConnectionInfo] as an adapter builds it.  [accountId] is
    [None] where the adapter stores [undefined]. *)
Record WalletConnectionInfo : Type := {
  accountId : option string;
  network : string;
  publicKey : option string
}.

Definition opt_value (o : option string) : value :=
  match o with Some s => Str s | None => Undefined end.

(** The record as the JavaScript object it is.  A property that holds
    [undefined] and a missing property read the same. *)
Definition info_value (info : WalletConnectionInfo) : value :=
  Obj [ ("accountId", opt_value (accountId info));
        ("network", Str (network info));
        ("publicKey", opt_value (publicKey info)) ].

(** [JSON.stringify(info)] *)
Definition stringify_info (info : WalletConnectionInfo) : string :=
  JSON.stringify_strings
    [ ("accountId", accountId info);
      ("network", Some (network info));
      ("publicKey", publicKey info) ].

(** ** The browser environment *)

(** What the connect-style method of the injected wallet resolves to. *)
Record HashPackConnectResult : Type := {
  accountIds : option (list string);
  reported_network : option string;
  reported_publicKey : option string
}.

(** An own property of [window.hashpack]: a function, with what a call
    without arguments does ([Ok None]: it returns nothing), or something
    that is not a function.  [call] is the outcome of one invocation;
    two invocations of the same function need not agree, and each method
    of an adapter invokes a function at most once. *)
Inductive member : Type :=
| Method (call : result (option HashPackConnectResult))
| Data (truthy : bool).

Record HashPack : Type := {
  props : list (string * member);          (* in own-key order *)
  on_transaction : bytes -> result bytes   (* [requestTransaction(tx)], when it is a function *)
}.

(** A session of the pairing protocol: [session.namespaces.hedera.accounts]
    when every link of that chain exists and the last is an array. *)
Record Session : Type := {
  hedera_accounts : option (list string)
}.

Inductive Reply : Type :=
| ReplyBytes (b : bytes)
| ReplyHex (s : string)
| ReplyArray (l : list Z)
| ReplyOther.

(** The universal provider of the pairing protocol. *)
Record Provider : Type := {
  provider_connect : result Session;
  provider_disconnect : option (result unit);     (* [None]: not a function *)
  provider_request : option (string -> bytes -> result Reply)
}.

Record Env : Type := {
  has_window : bool;                  (* [typeof window !== 'undefined'] *)
  hashpack : option HashPack;         (* [window.hashpack], when truthy *)
  storage : option string;            (* [localStorage], key 'hedera_wallet_connection';
                                         its [getItem], [setItem] and [removeItem]
                                         do not throw *)
  universal_provider : option Provider
    (* what the lazy imports and [UniversalProvider.init] yield; [None] when one throws *)
}.

Definition with_storage (env : Env) (slot : option string) : Env :=
  {| has_window := has_window env; hashpack := hashpack env;
     storage := slot; universal_provider := universal_provider env |}.

Definition setItem (env : Env) (v : string) : Env := with_storage env (Some v).
Definition removeItem (env : Env) : Env := with_storage env None.

(** [try { body } catch { handler }] *)
Definition try_catch {A : Type} (body : result A) (handler : string -> result A)
  : result A :=
  match body with
  | Ok a => Ok a
  | Err e => handler e
  end.

Definition void {A : Type} (r : result A) : result unit :=
  match r with
  | Ok _ => Ok tt
  | Err e => Err e
  end.

(** ** The adapter interface ([WalletAdapter.ts])

    [S] is the private state of an adapter.  Every method but
    [isAvailable] may update it and the environment, and resolves or
    rejects.  The optional [getAccounts] is never called by the manager
    and is left out. *)
Module Adapter.

Record WalletAdapter (S : Type) : Type := {
  init : option (S -> Env -> result unit * S * Env);
  isAvailable : S -> Env -> bool;
  connect : S -> Env -> result WalletConnectionInfo * S * Env;
  disconnect : S -> Env -> result unit * S * Env;
  requestTransaction : bytes -> S -> Env -> result bytes * S * Env
}.

End Adapter.

(** ** Variant A: [HashConnectAdapter] *)

Module HashConnect.

Definition isAvailable (env : Env) : bool :=
  has_window env && match hashpack env with Some _ => true | None => false end.

(** [waitForHashPack]: the injected object if the polling loop sees it
    before the timeout; the global does not change while the loop waits. *)
Definition waitForHashPack (env : Env) : option HashPack :=
  if has_window env then hashpack env else None.

Definition lookup (name : string) (hp : HashPack) : option member :=
  match find (fun p => String.eqb (fst p) name) (props hp) with
  | Some p => Some (snd p)
  | None => None
  end.

Definition is_function (m : option member) : bool :=
  match m with Some (Method _) => true | _ => false end.

Definition candidates : list string :=
  ["connectToLocalWallet"; "connect"; "connectWallet"; "connectToWallet"].

Definition probeConnectMethod (hp : HashPack) : option string :=
  match find (fun name => is_function (lookup name hp)) candidates with
  | Some name => Some name
  | None =>
      match find (fun p => is_function (Some (snd p))) (props hp) with
      | Some p => Some (fst p)
      | None => None
      end
  end.

(** [a || d] on strings. *)
Definition or_string (a : option string) (d : string) : string :=
  match a with
  | Some s => if Str.truthy s then s else d
  | None => d
  end.

Definition connect (env : Env) : result WalletConnectionInfo * Env :=
  match waitForHashPack env with
  | None => (Err "HashPack wallet not available (no injection detected)", env)
  | Some hp =>
      match probeConnectMethod hp with
      | None => (Err "HashPack connect API not available on window.hashpack", env)
      | Some method =>
          match lookup method hp with
          | Some (Method call) =>
              match call with
              | Err e => (Err e, env)
              | Ok None =>
                  (Err "TypeError: Cannot read properties of undefined (reading 'accountIds')", env)
              | Ok (Some result) =>
                  match accountIds result with
                  | None | Some [] => (Err "No accounts returned by HashPack", env)
                  | Some (first :: _) =>
                      let info :=
                        {| accountId := Some first;
                           network := or_string (reported_network result) "testnet";
                           publicKey := reported_publicKey result |} in
                      (Ok info,
                       if has_window env then setItem env (stringify_info info) else env)
                  end
              end
          | _ => (Err "HashPack connect API not available on window.hashpack", env)
          end
      end
  end.

Definition disconnect (env : Env) : result unit * Env :=
  let attempt :=
    try_catch
      (let hp := if has_window env then hashpack env else None in
       match hp with
       | Some h =>
           match lookup "disconnect" h with
           | Some (Method call) => void call
           | _ => Ok tt
           end
       | None => Ok tt
       end)
      (fun _ => Ok tt) in
  match attempt with
  | Ok _ => (Ok tt, if has_window env then removeItem env else env)
  | Err e => (Err e, env)
  end.

Definition requestTransaction (transaction : bytes) (env : Env)
  : result bytes * Env :=
  if negb (isAvailable env) then (Err "HashPack wallet not available", env)
  else
    match hashpack env with
    | None => (Err "HashPack wallet not available", env)
    | Some hp =>
        match lookup "requestTransaction" hp with
        | Some (Method _) => (on_transaction hp transaction, env)
        | Some (Data true) => (Err "TypeError: requestTransaction is not a function", env)
        | _ => (Err "HashPack requestTransaction not available", env)
        end
    end.

Definition adapter : Adapter.WalletAdapter unit :=
  {| Adapter.init := Some (fun s env => (Ok tt, s, env));
     Adapter.isAvailable := fun _ env => isAvailable env;
     Adapter.connect := fun s env => let '(r, env') := connect env in (r, s, env');
     Adapter.disconnect := fun s env => let '(r, env') := disconnect env in (r, s, env');
     Adapter.requestTransaction :=
       fun tx s env => let '(r, env') := requestTransaction tx env in (r, s, env') |}.

End HashConnect.

(** ** Variant B: [WalletConnectAdapter] *)

Module WalletConnect.

Record state : Type := {
  provider : option Provider;
  connector : bool                 (* whether a connector object is held *)
}.

Definition fresh : state := {| provider := None; connector := false |}.

Definition isAvailable (st : state) : bool :=
  match provider st with Some _ => true | None => false end.

(** [connector_ok]: whether the connector module exports a constructor
    and constructing it succeeds. *)
Definition init (connector_ok : bool) (st : state) (env : Env)
  : result unit * state * Env :=
  match provider st with
  | Some _ => (Ok tt, st, env)
  | None =>
      match universal_provider env with
      | Some p => (Ok tt, {| provider := Some p; connector := connector_ok |}, env)
      | None => (Ok tt, {| provider := None; connector := false |}, env)
      end
  end.

Definition connect (st : state) (env : Env)
  : result WalletConnectionInfo * state * Env :=
  match provider st with
  | None => (Err "WalletConnect provider not initialized", st, env)
  | Some p =>
      match provider_connect p with
      | Err e => (Err e, st, env)
      | Ok session =>
          let accountStr :=
            match hedera_accounts session with
            | Some (first :: _) => if Str.truthy first then Some first else None
            | _ => None
            end in
          match accountStr with
          | None => (Err "No Hedera account returned from WalletConnect session", st, env)
          | Some str =>
              let parts := Str.split ":" str in
              let network :=
                match nth_error parts 1 with
                | Some n => if String.eqb n "mainnet" then "mainnet" else "testnet"
                | None => "testnet"
                end in
              let info :=
                {| accountId := nth_error parts 2; network := network; publicKey := None |} in
              (* the write sits in a [try] whose [catch] ignores the error;
                 [setItem] of [Env] does not throw *)
              (Ok info, st,
               if has_window env then setItem env (stringify_info info) else env)
          end
      end
  end.

Definition disconnect (st : state) (env : Env) : result unit * state * Env :=
  let attempt :=
    try_catch
      (match provider st with
       | Some p =>
           match provider_disconnect p with
           | Some call => call
           | None => Ok tt
           end
       | None => Ok tt
       end)
      (fun _ => Ok tt) in
  match attempt with
  | Ok _ =>
      (Ok tt, {| provider := None; connector := false |},
       if has_window env then removeItem env else env)
  | Err e => (Err e, st, env)
  end.

Definition hex_pair (a b : ascii) : option Byte.byte :=
  match JSON.hex_val a, JSON.hex_val b with
  | Some x, Some y => Byte.of_N (Z.to_N (x * 16 + y))
  | _, _ => None
  end.

(** [Buffer.from(s, 'hex')]: decoding stops at the first pair that is
    not two hexadecimal digits. *)
Fixpoint from_hex (s : string) : bytes :=
  match s with
  | String a (String b rest) =>
      match hex_pair a b with
      | Some x => x :: from_hex rest
      | None => []
      end
  | _ => []
  end.

Definition strip_0x (s : string) : string :=
  if Str.startsWith s "0x" then JSON.drop 2 s else s.

Definition to_uint8 (z : Z) : Byte.byte :=
  match Byte.of_N (Z.to_N (z mod 256)) with
  | Some b => b
  | None => Byte.x00
  end.

Definition requestTransaction (transaction : bytes) (st : state) (env : Env)
  : result bytes * state * Env :=
  match provider st with
  | None => (Err "WalletConnect provider not initialized", st, env)
  | Some p =>
      match provider_request p with
      | Some request =>
          match request "hedera_sendTransaction" transaction with
          | Err e => (Err e, st, env)
          | Ok (ReplyBytes b) => (Ok b, st, env)
          | Ok (ReplyHex s) => (Ok (from_hex (strip_0x s)), st, env)
          | Ok (ReplyArray l) => (Ok (List.map to_uint8 l), st, env)
          | Ok ReplyOther => (Err "requestTransaction not supported by provider", st, env)
          end
      | None => (Err "requestTransaction not supported by provider", st, env)
      end
  end.

Definition adapter (connector_ok : bool) : Adapter.WalletAdapter state :=
  {| Adapter.init := Some (init connector_ok);
     Adapter.isAvailable := fun st _ => isAvailable st;
     Adapter.connect := connect;
     Adapter.disconnect := disconnect;
     Adapter.requestTransaction := requestTransaction |}.

End WalletConnect.

(** ** [WalletManager] *)

(** The adapter methods a manager can invoke. *)
Inductive Call : Type :=
| CallInit
| CallIsAvailable
| CallConnect
| CallDisconnect
| CallRequestTransaction (transaction : bytes).

(** A manager with its adapter, the adapter's state and the environment
    both live in.  [calls] logs every adapter method the manager has
    invoked, oldest first. *)
Record Manager (S : Type) : Type := {
  connectionInfo : value;                 (* [Null] when there is none *)
  adapter : Adapter.WalletAdapter S;
  adapter_state : S;
  env : Env;
  calls : list Call
}.

(** The stub the constructor installs when no adapter is configured. *)
Definition unconfigured (S : Type) : Adapter.WalletAdapter S :=
  {| Adapter.init := None;
     Adapter.isAvailable := fun _ _ => false;
     Adapter.connect := fun s e => (Err "No wallet adapter configured", s, e);
     Adapter.disconnect := fun s e => (Ok tt, s, e);
     Adapter.requestTransaction :=
       fun _ s e => (Err "No wallet adapter configured", s, e) |}.

(** [new WalletManager(adapter)] *)
Definition create {S : Type} (a : option (Adapter.WalletAdapter S)) (s : S) (e : Env)
  : Manager S :=
  {| connectionInfo := Null;
     adapter := match a with Some a' => a' | None => unconfigured S end;
     adapter_state := s; env := e; calls := [] |}.

Section Methods.
Variable S : Type.

(** A method of the manager: runs on a manager, returns or throws, and
    leaves a manager.  What was changed before a throw stays changed. *)
Definition M (A : Type) : Type := Manager S -> result A * Manager S.

Definition ret {A : Type} (a : A) : M A := fun m => (Ok a, m).
Definition throw {A : Type} (message : string) : M A := fun m => (Err message, m).
Definition bind {A B : Type} (c : M A) (k : A -> M B) : M B :=
  fun m =>
    match c m with
    | (Ok a, m') => k a m'
    | (Err e, m') => (Err e, m')
    end.

Notation "x <- c ;; k" := (bind c (fun x => k))
  (at level 61, c at next level, right associativity).
Notation "c ;;; k" := (bind c (fun _ => k))
  (at level 61, right associativity).

Definition set_connectionInfo (v : value) : M unit :=
  fun m =>
    (Ok tt, {| connectionInfo := v; adapter := adapter m;
               adapter_state := adapter_state m; env := env m; calls := calls m |}).

Definition set_env (e : Env) : M unit :=
  fun m =>
    (Ok tt, {| connectionInfo := connectionInfo m; adapter := adapter m;
               adapter_state := adapter_state m; env := e; calls := calls m |}).

(** [await this.adapter.method(...)] *)
Definition invoke {A : Type} (c : Call)
  (method : Adapter.WalletAdapter S -> S -> Env -> result A * S * Env) : M A :=
  fun m =>
    let '(r, s', e') := method (adapter m) (adapter_state m) (env m) in
    (r, {| connectionInfo := connectionInfo m; adapter := adapter m;
           adapter_state := s'; env := e'; calls := calls m ++ [c] |}).

Definition adapter_isAvailable : M bool :=
  invoke CallIsAvailable
    (fun a s e => (Ok (Adapter.isAvailable a s e), s, e)).

Definition setAdapter (a : Adapter.WalletAdapter S) : M unit :=
  fun m =>
    (Ok tt, {| connectionInfo := connectionInfo m; adapter := a;
               adapter_state := adapter_state m; env := env m; calls := calls m |}).

Definition getConnectionInfo (m : Manager S) : value := connectionInfo m.

Definition isConnected (m : Manager S) : bool :=
  match connectionInfo m with
  | Null => false
  | _ => true
  end.

Definition restoreConnection : M value :=
  fun m =>
    if negb (has_window (env m)) then ret Null m
    else
      match storage (env m) with
      | Some stored =>
          if Str.truthy stored then
            match JSON.parse stored with
            | Some v => (set_connectionInfo v ;;; ret v) m
            | None =>
                (* [catch]: warn, then drop the stored entry *)
                (set_env (removeItem (env m)) ;;; ret Null) m
            end
          else ret Null m
      | None => ret Null m
      end.

Definition init : M unit :=
  fun m =>
    match Adapter.init (adapter m) with
    | Some adapter_init =>
        (invoke CallInit (fun _ => adapter_init) ;;;
         _ <- restoreConnection ;; ret tt) m
    | None => (_ <- restoreConnection ;; ret tt) m
    end.

Definition connect : M WalletConnectionInfo :=
  available <- adapter_isAvailable ;;
  if negb available then
    throw "No wallet provider available for the configured adapter"
  else
    info <- invoke CallConnect (@Adapter.connect S) ;;
    set_connectionInfo (info_value info) ;;;
    ret info.

Definition connectHashPack : M WalletConnectionInfo := connect.

Definition disconnect : M unit :=
  invoke CallDisconnect (@Adapter.disconnect S) ;;;
  set_connectionInfo Null.

Definition requestTransaction (transaction : bytes) : M bytes :=
  fun m =>
    if negb (isConnected m) then throw "Wallet not connected" m
    else
      invoke (CallRequestTransaction transaction)
        (fun a => Adapter.requestTransaction a transaction) m.

End Methods.

End Wallet.

(* ================================================================== *)
(** * Reference predicates

    Notions the specification uses that the code does not define. *)

Module Reference.

(** The names the specification lists as sensitive. *)
Definition listed_names : list string :=
  ["apiKey"; "privateKey"; "operatorKey"; "password"; "secret"; "token";
   "authorization"; "auth"].

(** [key] contains one of the listed names, letter case ignored. *)
Definition contains_listed_name (key : string) : bool :=
  existsb (fun name => Str.includes (Str.toLowerCase key) (Str.toLowerCase name))
          listed_names.

(** The needles of [sensitiveKeys] that a lower-cased key can contain. *)
Definition lower_case_needles : list string :=
  ["api_key"; "apikey"; "private_key"; "privatekey"; "operator_key";
   "password"; "secret"; "token"; "authorization"; "auth"].

Definition contains_needle (key : string) : bool :=
  existsb (fun sk => Str.includes (Str.toLowerCase key) sk) lower_case_needles.

(** The shape of a connection record the data model asks for. *)
Definition well_shaped (v : JS.value) : bool :=
  match v with
  | JS.Obj o =>
      match JS.get "accountId" o, JS.get "network" o with
      | JS.Str a, JS.Str n =>
          Security.matches_id_pattern a && Security.isValidNetwork n
          && match JS.get "publicKey" o with
             | JS.Undefined | JS.Str _ => true
             | _ => false
             end
      | _, _ => false
      end
  | _ => false
  end.

(** A transport that answers the first [failures] attempts with status
    [failing] and every later one with status [ok] and payload [d]. *)
Definition fails_then (failures : nat) (failing ok : Z) (d : JS.value)
  : nat -> Client.Outcome :=
  fun k =>
    if (k <? failures)%nat
    then Client.Answered {| Client.status := failing; Client.data := JS.Null |}
    else Client.Answered {| Client.status := ok; Client.data := d |}.

(** An adapter whose [disconnect] rejects; its other methods succeed. *)
Definition failing_disconnect : Wallet.Adapter.WalletAdapter unit :=
  {| Wallet.Adapter.init := None;
     Wallet.Adapter.isAvailable := fun _ _ => true;
     Wallet.Adapter.connect :=
       fun s e =>
         (Wallet.Ok {| Wallet.accountId := Some "0.0.1001";
                       Wallet.network := "testnet";
                       Wallet.publicKey := None |}, s, e);
     Wallet.Adapter.disconnect := fun s e => (Wallet.Err "provider unreachable", s, e);
     Wallet.Adapter.requestTransaction := fun tx s e => (Wallet.Ok tx, s, e) |}.

(** A browser page without an injected wallet, holding [slot] in storage. *)
Definition page (slot : option string) : Wallet.Env :=
  {| Wallet.has_window := true; Wallet.hashpack := None;
     Wallet.storage := slot; Wallet.universal_provider := None |}.

(** A browser page whose injected wallet answers [connectToLocalWallet]
    with [r]. *)
Definition page_with_wallet (r : Wallet.HashPackConnectResult) : Wallet.Env :=
  {| Wallet.has_window := true;
     Wallet.hashpack :=
       Some {| Wallet.props :=
                 [("connectToLocalWallet", Wallet.Method (Wallet.Ok (Some r)))];
               Wallet.on_transaction := fun tx => Wallet.Ok tx |};
     Wallet.storage := None;
     Wallet.universal_provider := None |}.

End Reference.

(* ================================================================== *)
(** * The rest of the security utilities ([src/security.ts]) *)

Module SecurityMore.
Import Wallet.

Definition isValidTokenId (tokenId : string) : bool :=
  if negb (Str.truthy tokenId) then false else Security.matches_id_pattern tokenId.

Definition isValidTopicId (topicId : string) : bool :=
  if negb (Str.truthy topicId) then false else Security.matches_id_pattern topicId.

(** A JavaScript number: a double is [NaN], an infinity or a rational. *)
Inductive number : Type :=
| NaN
| PlusInfinity
| MinusInfinity
| Finite (q : Q).

Definition MAX_SAFE_INTEGER : Q := inject_Z 9007199254740991.

Definition validateAmount (amount : number) : result number :=
  match amount with
  | Finite q =>
      if Qle_bool q 0 then Err "Amount must be positive"
      else if negb (Qle_bool q MAX_SAFE_INTEGER)
           then Err "Amount exceeds maximum safe integer"
           else Ok amount
  | PlusInfinity | MinusInfinity | NaN => Err "Amount must be a valid number"
  end.

(** The variables [process.env] holds, and the property names it
    inherits from its prototype (in Node.js those of [Object.prototype]:
    ['toString'], ['constructor'], ...). *)
Record EnvObject : Type := {
  variables : list (string * string);
  inherited : string -> bool
}.

(** What a property read on [process.env] yields: the text of a
    variable, or an inherited property, which is a function or an object
    and never a string. *)
Inductive env_value : Type :=
| Text (s : string)
| Inherited (name : string).

Fixpoint env_lookup (vars : list (string * string)) (key : string) : option string :=
  match vars with
  | [] => None
  | (k, v) :: rest => if String.eqb k key then Some v else env_lookup rest key
  end.

(** [process.env[key]]: the variable of that name when one is set, else
    the inherited property of that name when there is one, else
    [undefined]. *)
Definition env_get (env : EnvObject) (key : string) : option env_value :=
  match env_lookup (variables env) key with
  | Some v => Some (Text v)
  | None => if inherited env key then Some (Inherited key) else None
  end.

(** [!value] *)
Definition falsy (value : option env_value) : bool :=
  match value with
  | Some (Text v) => negb (Str.truthy v)
  | Some (Inherited _) => false
  | None => true
  end.

(** [getEnvVar(key, required)]; [process_env] is [None] when [process] or
    [process.env] does not exist. *)
Definition getEnvVar (process_env : option EnvObject)
  (key : string) (required : bool) : result (option env_value) :=
  match process_env with
  | None =>
      if required
      then Err ("Environment variable " ++ key
                ++ " is required but process.env is not available")
      else Ok None
  | Some env =>
      let value := env_get env key in
      if required && falsy value
      then Err ("Environment variable " ++ key ++ " is required but not set")
      else Ok value
  end.

(** The property names of [Object.prototype]. *)
Definition object_prototype_names : list string :=
  [ "constructor"; "hasOwnProperty"; "isPrototypeOf"; "propertyIsEnumerable";
    "toLocaleString"; "toString"; "valueOf"; "__proto__";
    "__defineGetter__"; "__defineSetter__"; "__lookupGetter__"; "__lookupSetter__" ].

(** [process.env] of a Node.js process started with the variables [vars]. *)
Definition node_env (vars : list (string * string)) : EnvObject :=
  {| variables := vars;
     inherited := fun key => existsb (String.eqb key) object_prototype_names |}.

End SecurityMore.

(** ** Grant times of sequential [acquire] calls *)

Module RateLimiterMore.
Import RateLimiter.

(** [acquire_all] that also reports the clock reading at which each call
    was granted, in call order. *)
Fixpoint acquire_times (timer : Z -> Z -> Z) (fuel : nat) (gaps : list Z)
  (now : Z) (rl : t) : option (list Z * t) :=
  match gaps with
  | [] => Some ([], rl)
  | g :: gaps' =>
      match acquire timer fuel (now + g) rl with
      | Some (granted, rl') =>
          match acquire_times timer fuel gaps' granted rl' with
          | Some (later, rl'') => Some (granted :: later, rl'')
          | None => None
          end
      | None => None
      end
  end.

(** The clock readings at which sequential callers arrive when none of
    them has to wait. *)
Fixpoint arrivals (now : Z) (gaps : list Z) : list Z :=
  match gaps with
  | [] => []
  | g :: gaps' => (now + g) :: arrivals (now + g) gaps'
  end.

(** What links the limiter to the grants made so far: its window holds
    the past grants that were still recent at some reading [seen] of the
    clock, and never more than [maxRequests] of them. *)
Definition tracks (past : list Z) (now : Z) (rl : t) : Prop :=
  Z.of_nat (List.length (requests rl)) <= maxRequests rl
  /\ exists seen, seen <= now
       /\ requests rl = List.filter (in_window rl seen) past.

End RateLimiterMore.

(* ================================================================== *)
(** * Diagnostic logging of the client ([src/client.ts]) *)

Module ClientMore.
Import Client.

(** The two variables of [process.env] the interceptors read, where
    [process.env] exists. *)
Record ProcessEnv : Type := {
  NODE_ENV : option string;
  SDK_DEBUG : option string
}.

Definition var_is (v : option string) (expected : string) : bool :=
  match v with Some s => String.eqb s expected | None => false end.

Definition debug (env : ProcessEnv) : bool :=
  var_is (NODE_ENV env) "development" || var_is (SDK_DEBUG env) "true".

Definition is_lower (c : ascii) : bool := (97 <=? Str.code c) && (Str.code c <=? 122).
Definition upper (c : ascii) : ascii :=
  if is_lower c then Str.chr (Str.code c - 32) else c.
Definition toUpperCase (s : string) : string := Str.map upper s.

(** What [console.log] is called with. *)
Inductive ConsoleLine : Type :=
| RequestLine (method : option string) (url : option string)
    (* `[CoinFantasy SDK] ${method} ${url}` *)
| RetryLine (delay : Z) (attempt : Z).
    (* `[CoinFantasy SDK] Retrying request in ${delay}ms (attempt ${attempt})` *)

(** The request interceptor. *)
Definition log_request (env : ProcessEnv) (cfg : RequestConfig) : list ConsoleLine :=
  if debug env
  then [RequestLine (option_map toUpperCase (method cfg)) (url cfg)]
  else [].

(** The logging step of [retryRequest]. *)
Definition log_retry (env : ProcessEnv) (cfg' : RequestConfig) (delay : Z)
  : list ConsoleLine :=
  if debug env then [RetryLine delay (or_else (retryCount cfg') 0)] else [].

(** [Client.request] together with what it prints. *)
Fixpoint request_logged (env : ProcessEnv) (opts : RetryOptions)
  (transport : nat -> Outcome) (fuel : nat) (k : nat) (cfg : RequestConfig)
  : option (Settled * list Z * list ConsoleLine) :=
  match fuel with
  | O => None
  | S fuel' =>
      match settle cfg (transport k) with
      | inl r => Some (Resolved r, [], log_request env cfg)
      | inr error =>
          if shouldRetry opts (IsAxiosError error) then
            let '(cfg', delay) := retryRequest opts error in
            match request_logged env opts transport fuel' (S k) cfg' with
            | Some (res, delays, lines) =>
                Some (res, delay :: delays,
                      (log_request env cfg ++ log_retry env cfg' delay ++ lines)%list)
            | None => None
            end
          else Some (Rejected error, [], log_request env cfg)
      end
  end.

(** A transport that answers every attempt with the same status. *)
Definition always (status : Z) : nat -> Outcome :=
  fun _ => Answered {| Client.status := status; data := JS.Null |}.

(** The outcomes [shouldRetry] lets through: no answer at all, a 5xx
    answer or a 429. *)
Definition transient (o : Outcome) : bool :=
  match o with
  | Answered r => ((status r >=? 500) && (status r <? 600)) || (status r =? 429)
  | Unanswered _ => true
  end.

Definition successful (o : Outcome) : bool :=
  match o with
  | Answered r => (status r >=? 200) && (status r <? 300)
  | Unanswered _ => false
  end.

Definition answer (o : Outcome) : option Response :=
  match o with
  | Answered r => Some r
  | Unanswered _ => None
  end.

End ClientMore.

(* ================================================================== *)
(** * The rest of the wallet manager and of the adapters *)

Module WalletMore.
Import JS Wallet.

(** Truthiness of a value. *)
Definition truthy (v : value) : bool :=
  match v with
  | Undefined | Null => false
  | Bool b => b
  | Num q => negb (Qeq_bool q 0)
  | Str s => Str.truthy s
  | Arr _ | Obj _ => true
  end.

(** [v?.key || null] *)
Definition member_or_null (v : value) (key : string) : value :=
  match v with
  | Obj o => if truthy (get key o) then get key o else Null
  | _ => Null
  end.

Definition getAccountId {S : Type} (m : Manager S) : value :=
  member_or_null (connectionInfo m) "accountId".

Definition getNetwork {S : Type} (m : Manager S) : value :=
  member_or_null (connectionInfo m) "network".

Definition isHashPackAvailable {S : Type} (m : Manager S) : bool :=
  if has_window (env m) && match hashpack (env m) with Some _ => true | None => false end
  then true
  else Adapter.isAvailable (adapter m) (adapter_state m) (env m).

Fixpoint take (n : nat) (s : string) : string :=
  match n, s with
  | S n', String c s' => String c (take n' s')
  | _, _ => EmptyString
  end.

(** Text of ASCII characters only: there a byte is a UTF-16 code unit,
    so that [String.length], [take] and [JSON.drop] are the code's
    [.length] and [.slice]. *)
Definition ascii_only (s : string) : bool :=
  Str.all (fun c => Str.code c <? 128) s.

(** [WalletManager.formatAccountId], for an id of ASCII characters. *)
Definition formatAccountId (accountId : string) : string :=
  if negb (Str.truthy accountId) || (String.length accountId <=? 12)%nat then accountId
  else take 6 accountId ++ "..." ++ JSON.drop (String.length accountId - 6) accountId.

(** The constructor without an adapter argument: a pairing adapter when
    the variable [WALLETCONNECT_PROJECT_ID] is set, the stub otherwise. *)
Definition default_manager (WALLETCONNECT_PROJECT_ID : option string)
  (connector_ok : bool) (e : Env) : Manager WalletConnect.state :=
  create
    (Some (match WALLETCONNECT_PROJECT_ID with
           | Some id =>
               if Str.truthy id then WalletConnect.adapter connector_ok
               else unconfigured WalletConnect.state
           | None => unconfigured WalletConnect.state
           end))
    WalletConnect.fresh e.

(** [HashConnectAdapter.getAccounts] *)
Definition getAccounts (e : Env) : result (list string) :=
  match HashConnect.waitForHashPack e with
  | None => Ok []
  | Some hp =>
      match HashConnect.probeConnectMethod hp with
      | None => Ok []
      | Some method =>
          match HashConnect.lookup method hp with
          | Some (Method call) =>
              try_catch
                (match call with
                 | Err msg => Err msg
                 | Ok None => Ok []
                 | Ok (Some r) =>
                     match accountIds r with
                     | Some ids => Ok ids
                     | None => Ok []
                     end
                 end)
                (fun _ => Ok [])
          | _ => Ok []
          end
      end
  end.

(** [waitForHashPack] with its polling loop: [hashpack_at t] is what
    [window.hashpack] holds when the clock reads [t]; the result comes
    with the clock reading at which the call returns. *)
Fixpoint poll_hashpack (timer : Z -> Z -> Z) (hashpack_at : Z -> option HashPack)
  (timeoutMs start : Z) (fuel : nat) (now : Z) : option (option HashPack * Z) :=
  match fuel with
  | O => None
  | S fuel' =>
      if now - start <? timeoutMs then
        match hashpack_at now with
        | Some hp => Some (Some hp, now)
        | None =>
            poll_hashpack timer hashpack_at timeoutMs start fuel' (timer now 250)
        end
      else Some (None, now)
  end.

Definition waitForHashPack (timer : Z -> Z -> Z) (has_window : bool)
  (hashpack_at : Z -> option HashPack) (timeoutMs : Z) (fuel : nat) (now : Z)
  : option (option HashPack * Z) :=
  if negb has_window then Some (None, now)
  else poll_hashpack timer hashpack_at timeoutMs now fuel now.

(** The object [JSON.parse] rebuilds from [JSON.stringify(info)]. *)
Definition persisted_value (info : WalletConnectionInfo) : value :=
  Obj ((match accountId info with Some a => [("accountId", Str a)] | None => [] end)
       ++ [("network", Str (network info))]
       ++ (match publicKey info with Some p => [("publicKey", Str p)] | None => [] end))%list.

(** The text [Buffer.from(bytes).toString('hex')] gives. *)
Definition hex_of_byte (b : Byte.byte) : string :=
  let n := Z.of_N (Byte.to_N b) in
  String (JSON.hex_digit (n / 16)) (String (JSON.hex_digit (n mod 16)) EmptyString).

Fixpoint to_hex (bs : bytes) : string :=
  match bs with
  | [] => EmptyString
  | b :: rest => hex_of_byte b ++ to_hex rest
  end.

(** A pairing provider that answers every request with [reply]. *)
Definition answering (reply : Reply) : Provider :=
  {| provider_connect := Err "not paired";
     provider_disconnect := None;
     provider_request := Some (fun _ _ => Ok reply) |}.

(** A pairing provider whose session reports the accounts [accounts]. *)
Definition pairing (accounts : list string) : Provider :=
  {| provider_connect := Ok {| hedera_accounts := Some accounts |};
     provider_disconnect := Some (Ok tt);
     provider_request := None |}.

(** The two adapters of the package, the ones [createAdapterForChoice]
    builds. *)
Inductive shipped : forall S : Type, Adapter.WalletAdapter S -> Prop :=
| shipped_hashpack : shipped HashConnect.adapter
| shipped_walletconnect (connector_ok : bool) :
    shipped (WalletConnect.adapter connector_ok).

(** No [:] occurs in [s]. *)
Definition colon_free (s : string) : bool :=
  Str.all (fun c => negb (Ascii.eqb c ":")) s.

(** [Array.from(bytes)] *)
Definition to_array (bs : bytes) : list Z :=
  List.map (fun b => Z.of_N (Byte.to_N b)) bs.

(** A browser page on which the pairing libraries load and yield [p]. *)
Definition pairing_page (p : Provider) : Env :=
  {| has_window := true; hashpack := None; storage := None;
     universal_provider := Some p |}.

End WalletMore.

(* ================================================================== *)
(** * The facade ([src/index.ts]) *)

Module Facade.
Import Wallet.

Inductive Status : Type :=
| PENDING | IN_PROGRESS | COMPLETED | FAILED | RETRYING.

Record OperationStatus : Type := {
  id : string;
  status : Status;
  attempts : Z
}.

Definition settled (st : OperationStatus) : bool :=
  match status st with
  | COMPLETED | FAILED => true
  | _ => false
  end.

Record WaitOptions : Type := {
  pollInterval : option Z;
  timeout : option Z
}.

(** An integer in a template literal: its decimal digits (below 10^21 in
    magnitude, where JavaScript switches to exponent notation). *)
Definition decimal (z : Z) : string := NilZero.string_of_int (Z.to_int z).

(** The loop of [waitForOperation].  [gateway k t] is what the [k]-th
    [getOperationStatus] settles with when sent at clock reading [t],
    and the reading at which it settles. *)
Fixpoint poll_operation (timer : Z -> Z -> Z)
  (gateway : nat -> Z -> result OperationStatus * Z)
  (operationId : string) (interval limit startTime : Z)
  (fuel : nat) (k : nat) (now : Z) : option (result OperationStatus * Z) :=
  match fuel with
  | O => None
  | S fuel' =>
      if now - startTime <? limit then
        match gateway k now with
        | (Err e, t) => Some (Err e, t)
        | (Ok st, t) =>
            if settled st then Some (Ok st, t)
            else poll_operation timer gateway operationId interval limit startTime
                   fuel' (S k) (timer t interval)
        end
      else
        Some (Err ("Operation " ++ operationId ++ " timed out after "
                   ++ decimal limit ++ "ms"), now)
  end.

Definition waitForOperation (timer : Z -> Z -> Z)
  (gateway : nat -> Z -> result OperationStatus * Z)
  (operationId : string) (options : WaitOptions) (fuel : nat) (now : Z)
  : option (result OperationStatus * Z) :=
  let interval := Client.or_else (pollInterval options) 2000 in
  let limit := Client.or_else (timeout options) 60000 in
  poll_operation timer gateway operationId interval limit now fuel O now.

(** A request never settles before it is sent. *)
Definition gateway_sound (gateway : nat -> Z -> result OperationStatus * Z) : Prop :=
  forall k t, t <= snd (gateway k t).

(** The part of [SDKConfig] the constructor looks at. *)
Record SDKConfig : Type := {
  apiBaseUrl : option string;
  network : option string;
  retryOptions : option Client.RetryOptionsInput
}.

Record SDK : Type := {
  client_retryOptions : Client.RetryOptions;
  wallet : Manager WalletConnect.state
}.

Definition present (s : option string) : bool :=
  match s with Some v => Str.truthy v | None => false end.

(** [new CoinFantasyHederaSDK(config)] *)
Definition construct (config : option SDKConfig)
  (WALLETCONNECT_PROJECT_ID : option string) (connector_ok : bool) (e : Env)
  : result SDK :=
  match config with
  | None => Err "Invalid SDK configuration: apiBaseUrl and network are required"
  | Some c =>
      if negb (present (apiBaseUrl c)) || negb (present (network c))
      then Err "Invalid SDK configuration: apiBaseUrl and network are required"
      else Ok {| client_retryOptions := Client.constructor_retryOptions (retryOptions c);
                 wallet := WalletMore.default_manager WALLETCONNECT_PROJECT_ID
                             connector_ok e |}
  end.

(** A gateway that reports [IN_PROGRESS] for the first [pending] polls
    and [COMPLETED] afterwards, answering after [latency] ms. *)
Definition completes_after (pending : nat) (latency : Z) (operationId : string)
  : nat -> Z -> result OperationStatus * Z :=
  fun k t =>
    (Ok {| id := operationId;
           status := if (k <? pending)%nat then IN_PROGRESS else COMPLETED;
           attempts := 1 |},
     t + latency).

End Facade.

(* ================================================================== *)
(** * Properties of the string helpers *)

Module StrFacts.

Lemma filter_idempotent (p : ascii -> bool) (s : string) :
  Str.filter p (Str.filter p s) = Str.filter p s.
Proof.
  induction s as [|c s IH]; simpl; [reflexivity|].
  destruct (p c) eqn:Hc; simpl; [rewrite Hc, IH|]; auto.
Qed.

Lemma all_filter (p : ascii -> bool) (s : string) :
  Str.all p (Str.filter p s) = true.
Proof.
  induction s as [|c s IH]; simpl; [reflexivity|].
  destruct (p c) eqn:Hc; simpl; [rewrite Hc|]; auto.
Qed.

Lemma filter_all (p : ascii -> bool) (s : string) :
  Str.all p s = true -> Str.filter p s = s.
Proof.
  induction s as [|c s IH]; simpl; [reflexivity|].
  intros H. apply andb_true_iff in H as [Hc Hs].
  rewrite Hc, (IH Hs). reflexivity.
Qed.

Lemma startsWith_all (p : ascii -> bool) (t s : string) :
  Str.all p s = true -> Str.startsWith s t = true -> Str.all p t = true.
Proof.
  revert s. induction t as [|b t IH]; intros s Hs Hpre; simpl; [reflexivity|].
  destruct s as [|a s]; simpl in *; [discriminate|].
  apply andb_true_iff in Hs as [Ha Hs].
  apply andb_true_iff in Hpre as [Hab Hpre].
  apply Ascii.eqb_eq in Hab. subst b.
  rewrite Ha. simpl. eauto.
Qed.

Lemma includes_all (p : ascii -> bool) (t s : string) :
  Str.all p s = true -> Str.includes s t = true -> Str.all p t = true.
Proof.
  induction s as [|a s IH]; intros Hs Hin.
  - destruct t; [reflexivity|discriminate].
  - change (Str.includes (String a s) t)
      with (Str.startsWith (String a s) t || Str.includes s t) in Hin.
    apply orb_true_iff in Hin as [Hpre|Hin].
    + eapply startsWith_all; [exact Hs|exact Hpre].
    + simpl in Hs. apply andb_true_iff in Hs as [_ Hs]. auto.
Qed.

Lemma lower_not_upper (c : ascii) : Str.is_upper (Str.lower c) = false.
Proof.
  destruct c as [[] [] [] [] [] [] [] []]; vm_compute; reflexivity.
Qed.

Lemma toLowerCase_cases (c : ascii) (s : string) :
  (exists c2 s2,
      s = String c2 s2
      /\ Str.toLowerCase (String c s)
         = String "i" (Str.dot_above ++ Str.toLowerCase s2))
  \/ (exists c2 c3 s3,
        s = String c2 (String c3 s3)
        /\ Str.toLowerCase (String c s) = String "k" (Str.toLowerCase s3))
  \/ Str.toLowerCase (String c s) = String (Str.lower c) (Str.toLowerCase s).
Proof.
  destruct s as [|c2 s2]; [right; right; reflexivity|].
  destruct ((Str.code c =? 196) && (Str.code c2 =? 176)) eqn:Hdotted.
  - left. exists c2, s2. split; [reflexivity|].
    destruct s2; cbn; rewrite Hdotted; reflexivity.
  - destruct s2 as [|c3 s3].
    + right; right. cbn. rewrite Hdotted. reflexivity.
    + destruct ((Str.code c =? 226) && (Str.code c2 =? 132) && (Str.code c3 =? 170))
        eqn:Hkelvin.
      * right; left. exists c2, c3, s3. split; [reflexivity|].
        cbn. rewrite Hdotted, Hkelvin. reflexivity.
      * right; right. cbn. rewrite Hdotted, Hkelvin. reflexivity.
Qed.

Lemma toLowerCase_no_upper_upto (n : nat) :
  forall s, (String.length s <= n)%nat ->
    Str.all (fun c => negb (Str.is_upper c)) (Str.toLowerCase s) = true.
Proof.
  induction n as [|n IH]; intros s Hlen.
  - destruct s; [reflexivity|simpl in Hlen; lia].
  - destruct s as [|c s]; [reflexivity|]. cbn [String.length] in Hlen.
    destruct (toLowerCase_cases c s)
      as [(c2 & s2 & -> & ->) | [(c2 & c3 & s3 & -> & ->) | -> ]].
    + cbn [String.length] in Hlen. cbn [Str.all Str.dot_above append].
      rewrite (IH s2) by lia. reflexivity.
    + cbn [String.length] in Hlen. cbn [Str.all].
      rewrite (IH s3) by lia. reflexivity.
    + cbn [Str.all]. rewrite lower_not_upper, (IH s) by lia. reflexivity.
Qed.

Lemma toLowerCase_no_upper (s : string) :
  Str.all (fun c => negb (Str.is_upper c)) (Str.toLowerCase s) = true.
Proof. apply (@toLowerCase_no_upper_upto (String.length s) s). lia. Qed.

(** A needle with an upper-case letter is never found in a lower-cased key. *)
Lemma lowered_excludes_mixed_case (key needle : string) :
  Str.all (fun c => negb (Str.is_upper c)) needle = false ->
  Str.includes (Str.toLowerCase key) needle = false.
Proof.
  intros Hneedle.
  destruct (Str.includes (Str.toLowerCase key) needle) eqn:Hin; [|reflexivity].
  rewrite (includes_all _ _ _ (toLowerCase_no_upper key) Hin) in Hneedle.
  discriminate.
Qed.

End StrFacts.

(* ================================================================== *)
(** * Properties of the security utilities *)

Module SecurityFacts.
Import JS Security.

Lemma strip_controls_idempotent (s : string) :
  strip_controls (strip_controls s) = strip_controls s.
Proof. apply StrFacts.filter_idempotent. Qed.

Lemma strip_controls_clean (s : string) :
  control_free (strip_controls s) = true.
Proof. apply StrFacts.all_filter. Qed.

Lemma sanitize_value_idempotent (v : value) :
  sanitize_value (sanitize_value v) = sanitize_value v.
Proof.
  induction v as [ | | b | q | s | items _ | props IH] using JS.value_ind;
    simpl; try reflexivity.
  - now rewrite strip_controls_idempotent.
  - f_equal. rewrite map_map. simpl.
    induction IH as [|kv props Hkv _ IHprops]; simpl; [reflexivity|].
    now rewrite Hkv, IHprops.
Qed.

Lemma find_sanitized (key : string) (o : record) :
  find (fun kv => String.eqb (fst kv) key)
       (List.map (fun kv => (fst kv, sanitize_value (snd kv))) o)
  = option_map (fun kv => (fst kv, sanitize_value (snd kv)))
               (find (fun kv => String.eqb (fst kv) key) o).
Proof.
  induction o as [|kv o IH]; simpl; [reflexivity|].
  destruct (String.eqb (fst kv) key); [reflexivity|exact IH].
Qed.

Lemma at_path_sanitize (path : list string) :
  forall v, at_path path (sanitize_value v) = option_map sanitize_value (at_path path v).
Proof.
  induction path as [|key rest IH]; intros v; [reflexivity|].
  destruct v; try reflexivity.
  simpl. rewrite find_sanitized.
  destruct (find (fun kv => String.eqb (fst kv) key) props) as [kv|]; simpl;
    [apply IH|reflexivity].
Qed.

Lemma record_strings_sanitize (v : value) :
  record_strings (sanitize_value v) = List.map strip_controls (record_strings v).
Proof.
  induction v as [ | | b | q | s | items _ | props IH] using JS.value_ind;
    simpl; try reflexivity.
  induction IH as [|kv props Hkv _ IHprops]; simpl; [reflexivity|].
  now rewrite map_app, Hkv, IHprops.
Qed.

Lemma forallb_map_clean (l : list string) :
  forallb control_free (List.map strip_controls l) = true.
Proof.
  induction l as [|s l IH]; simpl; [reflexivity|].
  now rewrite strip_controls_clean.
Qed.

(** C8 (amended). [sanitizeEventData] is idempotent.  The value found in
    its result under any path of keys is the sanitised value found in the
    input under that path; the strings that are property values of the
    record or of a record nested in it at any depth come out with every
    byte of [0x00-0x1F, 0x7F] removed; an array is passed through as it
    is, whatever it holds. *)
Theorem sanitizeEventData_idempotent_strips_records (data : record) :
  sanitizeEventData (sanitizeEventData data) = sanitizeEventData data
  /\ (forall path,
        at_path path (Obj (sanitizeEventData data))
        = option_map sanitize_value (at_path path (Obj data)))
  /\ record_strings (Obj (sanitizeEventData data))
     = List.map strip_controls (record_strings (Obj data))
  /\ forallb control_free (record_strings (Obj (sanitizeEventData data))) = true
  /\ (forall s, sanitize_value (Str s) = Str (strip_controls s))
  /\ (forall items, sanitize_value (Arr items) = Arr items).
Proof.
  assert (Hobj : Obj (sanitizeEventData data) = sanitize_value (Obj data))
    by reflexivity.
  repeat split.
  - pose proof (sanitize_value_idempotent (Obj data)) as H.
    simpl in H. injection H as H. exact H.
  - intros path. rewrite Hobj. apply at_path_sanitize.
  - rewrite Hobj. apply record_strings_sanitize.
  - rewrite Hobj, record_strings_sanitize. apply forallb_map_clean.
Qed.

(** C8, as stated, fails on a string held in an array: the array is
    copied and the control byte stays. *)
Lemma sanitizeEventData_skips_arrays :
  let data := [("tags", Arr [Str (String "000" "admin")])] in
  sanitizeEventData data = data
  /\ forallb control_free (strings_of (Obj (sanitizeEventData data))) = false.
Proof. split; reflexivity. Qed.

(** ** Redaction *)

Lemma isSensitive_needles (key : string) :
  isSensitive key = Reference.contains_needle key.
Proof.
  unfold isSensitive, Reference.contains_needle, sensitiveKeys,
    Reference.lower_case_needles.
  cbn [existsb].
  rewrite (StrFacts.lowered_excludes_mixed_case key "apiKey" eq_refl).
  rewrite (StrFacts.lowered_excludes_mixed_case key "privateKey" eq_refl).
  rewrite (StrFacts.lowered_excludes_mixed_case key "operatorKey" eq_refl).
  reflexivity.
Qed.

Lemma redact_nested_record (o : record) :
  redact_nested (Obj o) = Obj (redactSensitiveData o).
Proof. reflexivity. Qed.

Lemma redact_nth (obj : record) (i : nat) (kv : string * value) :
  nth_error obj i = Some kv ->
  nth_error (redactSensitiveData obj) i = Some (redact_entry kv).
Proof. intros H. unfold redactSensitiveData. now apply map_nth_error. Qed.

(** C9 (amended). On a record in which no record, nested ones included,
    has the own key ['__proto__'], [redactSensitiveData] keeps the keys
    and their order.
    Under a key whose lower-cased form contains one of [api_key],
    [apikey], [private_key], [privatekey], [operator_key], [password],
    [secret], [token], [authorization], [auth] it stores the marker
    ['[REDACTED]'].  Under a key that contains none of them, and not
    [operatorkey] either, it stores the redaction of the value when the
    value is a record, and the value itself otherwise (arrays included). *)
Theorem redactSensitiveData_by_needles
  (obj : record) (i : nat) (key : string) (v : value)
  (Hkeys : ordinary_keys_deep (Obj obj) = true)
  (Hentry : nth_error obj i = Some (key, v)) :
  List.map fst (redactSensitiveData obj) = List.map fst obj
  /\ (Reference.contains_needle key = true ->
      nth_error (redactSensitiveData obj) i = Some (key, Str REDACTED))
  /\ (Reference.contains_needle key = false ->
      Str.includes (Str.toLowerCase key) "operatorkey" = false ->
      nth_error (redactSensitiveData obj) i
      = Some (key, match v with
                   | Obj o => Obj (redactSensitiveData o)
                   | _ => v
                   end)).
Proof.
  pose proof (redact_nth obj i Hentry) as Hnth.
  unfold redact_entry in Hnth. simpl in Hnth.
  rewrite isSensitive_needles in Hnth.
  split; [|split].
  - unfold redactSensitiveData. rewrite map_map. reflexivity.
  - intros Hs. rewrite Hs in Hnth. exact Hnth.
  - intros Hs _. rewrite Hs in Hnth. rewrite Hnth.
    destruct v; reflexivity.
Qed.

Lemma redactSensitiveData_by_needles_witness :
  let obj := [ ("userId", Str "123");
               ("Authorization", Str "Bearer abc");
               ("nested", Obj [("api_key", Str "k"); ("tags", Arr [Str "t"])]) ] in
  nth_error (redactSensitiveData obj) 1 = Some ("Authorization", Str REDACTED)
  /\ nth_error (redactSensitiveData obj) 2
     = Some ("nested", Obj [("api_key", Str REDACTED); ("tags", Arr [Str "t"])]).
Proof.
  intros obj. split.
  - apply (redactSensitiveData_by_needles obj 1 (key := "Authorization")
             (v := Str "Bearer abc") eq_refl eq_refl).
    reflexivity.
  - apply (redactSensitiveData_by_needles obj 2 (key := "nested")
             (v := Obj [("api_key", Str "k"); ("tags", Arr [Str "t"])])
             eq_refl eq_refl);
      reflexivity.
Defined.

(** C9, as stated, fails on [api_key]: the key contains none of the
    listed names, whatever the letter case, and its value is replaced. *)
Lemma redactSensitiveData_redacts_snake_case :
  Reference.contains_listed_name "api_key" = false
  /\ redactSensitiveData [("api_key", Str "k-123")] = [("api_key", Str REDACTED)].
Proof. split; reflexivity. Qed.

(** The needle ['operatorKey'] is compared with a lower-cased key and so
    never matches: the value of [operatorKey] is not replaced. *)
Example redactSensitiveData_keeps_operatorKey :
  Reference.contains_listed_name "operatorKey" = true
  /\ isSensitive "operatorKey" = false
  /\ redactSensitiveData [("operatorKey", Str "302e0201")]
     = [("operatorKey", Str "302e0201")].
Proof. repeat split; reflexivity. Qed.

(** Lower-casing turns U+212A KELVIN SIGN into [k]: a key spelt
    [TO], U+212A, [EN] lower-cases to [token] and its value is replaced. *)
Example redactSensitiveData_lowers_kelvin_sign :
  let key := "TO" ++ String (Str.chr 226) (String (Str.chr 132) (String (Str.chr 170) "EN")) in
  Str.toLowerCase key = "token"
  /\ Reference.contains_needle key = true
  /\ redactSensitiveData [(key, Str "eyJhbGciOi")] = [(key, Str REDACTED)].
Proof. repeat split; reflexivity. Qed.

End SecurityFacts.

(* ================================================================== *)
(** * Properties of the rate limiter *)

Module RateLimiterFacts.
Import RateLimiter.

Lemma filter_shorter (A : Type) (p : A -> bool) (l : list A) :
  (List.length (List.filter p l) <= List.length l)%nat.
Proof.
  induction l as [|a l IH]; simpl; [lia|].
  destruct (p a); simpl; lia.
Qed.

(** Pruning at a later clock reading absorbs pruning at an earlier one. *)
Lemma prune_later (rl : t) (now later : Z) (l : list Z) :
  now <= later ->
  List.filter (in_window rl later) (List.filter (in_window rl now) l)
  = List.filter (in_window rl later) l.
Proof.
  intros Hle. induction l as [|x l IH]; simpl; [reflexivity|].
  destruct (in_window rl now x) eqn:Hnow; simpl.
  - now rewrite IH.
  - rewrite IH.
    assert (in_window rl later x = false) as ->; [|reflexivity].
    unfold in_window in *. apply Z.ltb_ge. apply Z.ltb_ge in Hnow. lia.
Qed.

Lemma prune_keeps_recent (rl : t) (t0 now : Z) (l : list Z) :
  Forall (fun time => t0 <= time) l ->
  now < t0 + windowMs rl ->
  List.filter (in_window rl now) l = l.
Proof.
  intros Hall Hnow. induction Hall as [|x l Hx _ IH]; simpl; [reflexivity|].
  assert (in_window rl now x = true) as ->.
  { unfold in_window. apply Z.ltb_lt. lia. }
  now rewrite IH.
Qed.

Lemma in_window_with_requests (rl : t) (rs : list Z) :
  in_window (with_requests rl rs) = in_window rl.
Proof. reflexivity. Qed.

Lemma acquire_pass_granted (now : Z) (rl : t) :
  Z.of_nat (List.length (List.filter (in_window rl now) (requests rl))) < maxRequests rl ->
  acquire_pass now rl
  = Granted (with_requests rl (List.filter (in_window rl now) (requests rl) ++ [now])).
Proof.
  intros H. unfold acquire_pass.
  destruct (Z.geb_spec
              (Z.of_nat (List.length (List.filter (in_window rl now) (requests rl))))
              (maxRequests rl)); [lia|reflexivity].
Qed.

Lemma acquire_pass_suspended (now : Z) (rl : t) :
  maxRequests rl <= Z.of_nat (List.length (List.filter (in_window rl now) (requests rl))) ->
  acquire_pass now rl
  = Suspended
      (option_map (fun o => windowMs rl - (now - o))
                  (hd_error (List.filter (in_window rl now) (requests rl))))
      (with_requests rl (List.filter (in_window rl now) (requests rl))).
Proof.
  intros H. unfold acquire_pass.
  destruct (Z.geb_spec
              (Z.of_nat (List.length (List.filter (in_window rl now) (requests rl))))
              (maxRequests rl)); [reflexivity|lia].
Qed.

(** With a sound timer and room for at least one request, [acquire]
    returns: one waiting pass drops at least the oldest grant. *)
Lemma acquire_returns (timer : Z -> Z -> Z) (Htimer : timer_sound timer) :
  forall (fuel : nat) (now : Z) (rl : t),
    1 <= maxRequests rl ->
    (List.length (List.filter (in_window rl now) (requests rl)) < fuel)%nat ->
    exists tf,
      acquire timer fuel now rl
      = Some (tf, with_requests rl (List.filter (in_window rl tf) (requests rl) ++ [tf]))
      /\ now <= tf
      /\ Z.of_nat (List.length (List.filter (in_window rl tf) (requests rl)))
         < maxRequests rl.
Proof.
  induction fuel as [|fuel IH]; intros now rl Hmax Hfuel; [lia|].
  cbn [acquire].
  set (kept := List.filter (in_window rl now) (requests rl)) in *.
  destruct (Z.lt_ge_cases (Z.of_nat (List.length kept)) (maxRequests rl)) as [Hlt|Hge].
  - rewrite (acquire_pass_granted now rl Hlt). fold kept.
    exists now. repeat split; [lia|exact Hlt].
  - rewrite (acquire_pass_suspended now rl Hge). fold kept.
    destruct kept as [|oldest rest] eqn:Hkept; [simpl in Hge; lia|].
    cbn [hd_error option_map wake].
    set (now' := timer now (windowMs rl - (now - oldest))).
    destruct (Htimer now (windowMs rl - (now - oldest))) as [Hmono Hlate].
    fold now' in Hmono, Hlate.
    assert (Hdrop : in_window rl now' oldest = false).
    { unfold in_window. apply Z.ltb_ge. lia. }
    destruct (IH now' (with_requests rl (oldest :: rest))) as (tf & Hrun & Hle & Hroom).
    + exact Hmax.
    + cbn [requests with_requests]. rewrite in_window_with_requests.
      cbn [List.filter]. rewrite Hdrop.
      pose proof (filter_shorter (in_window rl now') rest). simpl in Hfuel. lia.
    + cbn [requests with_requests] in Hrun, Hroom.
      rewrite in_window_with_requests in Hrun, Hroom.
      assert (Hsame : List.filter (in_window rl tf) (oldest :: rest)
                      = List.filter (in_window rl tf) (requests rl)).
      { rewrite <- Hkept. unfold kept. apply prune_later. lia. }
      rewrite Hsame in Hrun, Hroom.
      exists tf. repeat split; [exact Hrun|lia|exact Hroom].
Qed.

Section Sequential.
Variable timer : Z -> Z -> Z.
Hypothesis Htimer : timer_sound timer.
Variables maxR window t0 : Z.
Hypothesis Hmax : 1 <= maxR.

Lemma after_one_more (fuel : nat) (k : nat) (now g : Z) (rl : t) :
  (Z.to_nat maxR < fuel)%nat -> 0 <= g ->
  after_calls maxR window t0 k now rl ->
  exists tf rl',
    acquire timer fuel (now + g) rl = Some (tf, rl') /\ after_calls maxR window t0 (S k) tf rl'.
Proof.
  intros Hfuel Hg (HmaxR & Hwin & Hnow & Hlen & Hcases).
  destruct (@acquire_returns timer Htimer fuel (now + g) rl) as (tf & Hrun & Hle & Hroom).
  - lia.
  - pose proof (filter_shorter (in_window rl (now + g)) (requests rl)). lia.
  - exists tf, (with_requests rl (List.filter (in_window rl tf) (requests rl) ++ [tf])).
    split; [exact Hrun|].
    unfold after_calls. cbn [requests maxRequests windowMs with_requests].
    repeat split; try assumption; try lia.
    + rewrite length_app. simpl. lia.
    + destruct (Z.le_gt_cases (t0 + window) tf) as [Hfull|Hearly]; [left; exact Hfull|].
      right. destruct Hcases as [Hpast|[Hk Hall]]; [lia|].
      rewrite (prune_keeps_recent rl (t0 := t0) (now := tf) Hall) by lia.
      split.
      * rewrite length_app. simpl. lia.
      * apply Forall_app. split; [exact Hall|]. constructor; [lia|constructor].
Qed.

Lemma after_all (fuel : nat) (gaps : list Z) :
  (Z.to_nat maxR < fuel)%nat ->
  Forall (fun g => 0 <= g) gaps ->
  forall (k : nat) (now : Z) (rl : t),
    after_calls maxR window t0 k now rl ->
    exists tf rl',
      acquire_all timer fuel gaps now rl = Some (tf, rl')
      /\ after_calls maxR window t0 (k + List.length gaps) tf rl'.
Proof.
  intros Hfuel Hgaps. induction Hgaps as [|g gaps Hg _ IH]; intros k now rl Hinv.
  - exists now, rl. simpl. rewrite Nat.add_0_r. auto.
  - destruct (@after_one_more fuel k now g rl Hfuel Hg Hinv) as (t1 & rl1 & Hrun & Hinv1).
    destruct (IH (S k) t1 rl1 Hinv1) as (tf & rl' & Hrest & Hinv').
    exists tf, rl'. cbn [acquire_all]. rewrite Hrun.
    split; [exact Hrest|].
    simpl. rewrite Nat.add_succ_r. exact Hinv'.
Qed.

(** More sequential calls than [maxRequests] take at least one window. *)
Lemma more_than_max_takes_a_window (fuel : nat) (gaps : list Z) :
  (Z.to_nat maxR < fuel)%nat ->
  Forall (fun g => 0 <= g) gaps ->
  maxR < Z.of_nat (List.length gaps) ->
  exists tf rl',
    acquire_all timer fuel gaps t0 (create maxR window) = Some (tf, rl')
    /\ t0 + window <= tf.
Proof.
  intros Hfuel Hgaps Hmany.
  destruct (@after_all fuel gaps Hfuel Hgaps 0%nat t0 (create maxR window))
    as (tf & rl' & Hrun & Hinv).
  - unfold after_calls, create. simpl. repeat split; try lia.
    right. split; [reflexivity|constructor].
  - exists tf, rl'. split; [exact Hrun|].
    destruct Hinv as (_ & _ & _ & Hlen & [Hfull|[Hk _]]); [exact Hfull|].
    simpl in Hk. lia.
Qed.

End Sequential.

Lemma exact_timer_sound : timer_sound exact_timer.
Proof. intros now d. unfold exact_timer. lia. Qed.

(** C3. One pass of [acquire] drops the grants that are [windowMs] old or
    older.  If fewer than [maxRequests] remain, the call records the
    clock reading as a new grant and returns at that same reading.
    Otherwise it sleeps [windowMs - (now - oldest)], [oldest] being the
    first remaining grant, and starts over.  [reset] empties the window.
    Ten sequential calls on [RateLimiter(5, 1000)] all return, the last
    one no earlier than 1000 ms after the first was entered, whatever
    (sound) timer drives the sleeps and however long the caller pauses
    between calls. *)
Theorem acquire_sliding_window (rl : t) (now : Z) :
  let kept := List.filter (fun time => now - time <? windowMs rl) (requests rl) in
  (Z.of_nat (List.length kept) < maxRequests rl ->
   forall timer fuel,
     acquire timer (S fuel) now rl = Some (now, with_requests rl (kept ++ [now])))
  /\ (maxRequests rl <= Z.of_nat (List.length kept) ->
      forall oldest rest, kept = oldest :: rest ->
      forall timer fuel,
        acquire timer (S fuel) now rl
        = acquire timer fuel (timer now (windowMs rl - (now - oldest)))
                  (with_requests rl kept))
  /\ requests (reset rl) = []
  /\ (forall timer fuel gaps t0,
        timer_sound timer -> (5 < fuel)%nat ->
        List.length gaps = 10%nat -> Forall (fun g => 0 <= g) gaps ->
        exists tf rl',
          acquire_all timer fuel gaps t0 (create 5 1000) = Some (tf, rl')
          /\ t0 + 1000 <= tf).
Proof.
  intros kept. repeat split.
  - intros Hroom timer fuel. cbn [acquire].
    now rewrite (acquire_pass_granted now rl Hroom).
  - intros Hfull oldest rest Hkept timer fuel. cbn [acquire].
    rewrite (acquire_pass_suspended now rl Hfull).
    fold (in_window rl now). change (List.filter (in_window rl now) (requests rl)) with kept.
    rewrite Hkept. reflexivity.
  - intros timer fuel gaps t0 Htimer Hfuel Hlen Hgaps.
    apply more_than_max_takes_a_window; try assumption; simpl; lia.
Qed.

Lemma acquire_sliding_window_witness :
  acquire exact_timer 1 400 (mk [0; 100] 5 1000) = Some (400, mk [0; 100; 400] 5 1000)
  /\ acquire exact_timer 2 400 (mk [0; 100; 150; 200; 300] 5 1000)
     = Some (1000, mk [100; 150; 200; 300; 1000] 5 1000)
  /\ exists tf rl',
       acquire_all exact_timer 6 [0; 0; 0; 0; 0; 0; 0; 0; 0; 0] 0 (create 5 1000)
       = Some (tf, rl')
       /\ 0 + 1000 <= tf.
Proof.
  split; [|split].
  - destruct (acquire_sliding_window (mk [0; 100] 5 1000) 400) as (Hgrant & _).
    apply Hgrant. simpl. lia.
  - destruct (acquire_sliding_window (mk [0; 100; 150; 200; 300] 5 1000) 400)
      as (_ & Hwait & _).
    rewrite (Hwait ltac:(simpl; lia) 0 [100; 150; 200; 300] eq_refl exact_timer 1%nat).
    reflexivity.
  - destruct (acquire_sliding_window (create 5 1000) 0) as (_ & _ & _ & Hten).
    apply Hten.
    + intros now d. unfold exact_timer. lia.
    + lia.
    + reflexivity.
    + repeat constructor; lia.
Defined.

End RateLimiterFacts.

(* ================================================================== *)
(** * Properties of the retry wrapper *)

Module ClientFacts.
Import Client.

Lemma or_else_zero (a : option Z) : or_else a 0 = nullish a 0.
Proof. destruct a as [z|]; simpl; [|reflexivity]. destruct (Z.eqb_spec z 0); auto. Qed.

Lemma or_else_positive (n d : Z) : 1 <= n -> or_else (Some n) d = n.
Proof. intros H. simpl. destruct (Z.eqb_spec n 0); [lia|reflexivity]. Qed.

Lemma retryDelay_formula (opts : RetryOptions) (i : Z) :
  1 <= i ->
  retryDelay opts i
  = Z.min (nullish (baseDelay opts) 1000 * nullish (exponentialBase opts) 2 ^ (i - 1))
          (nullish (maxDelay opts) 30000).
Proof. intros H. unfold retryDelay. now rewrite or_else_positive. Qed.

Lemma settle_config (cfg : RequestConfig) (o : Outcome) (e : AxiosError) :
  settle cfg o = inr e -> config e = Some cfg.
Proof.
  destruct o as [r|c]; simpl.
  - destruct ((status r >=? 200) && (status r <? 300)); [discriminate|].
    intros H. injection H as <-. reflexivity.
  - intros H. injection H as <-. reflexivity.
Qed.

(** Errors that are not Axios errors, or carry no request config, are
    never retried. *)
Lemma shouldRetry_needs_config (opts : RetryOptions) :
  shouldRetry opts NotAxiosError = false
  /\ forall e, config e = None -> shouldRetry opts (IsAxiosError e) = false.
Proof. split; [reflexivity|]. intros e H. simpl. now rewrite H. Qed.

Lemma shouldRetry_iff (opts : RetryOptions) (e : AxiosError) (cfg : RequestConfig) :
  config e = Some cfg ->
  shouldRetry opts (IsAxiosError e) = true
  <-> (response e = None
       \/ code e = Some "ECONNABORTED"
       \/ (exists r, response e = Some r /\ 500 <= status r < 600)
       \/ (exists r, response e = Some r /\ status r = 429))
      /\ nullish (retryCount cfg) 0 < nullish (maxRetries opts) 0.
Proof.
  intros Hcfg. unfold shouldRetry. rewrite Hcfg.
  destruct (Z.geb_spec (nullish (retryCount cfg) 0) (nullish (maxRetries opts) 0))
    as [Hge|Hlt].
  - split; [discriminate|]. intros [_ H]. lia.
  - unfold code_is, status_of, has_response.
    destruct (response e) as [r|] eqn:Hr; cbn [negb orb].
    + split.
      * intros H. split; [|exact Hlt].
        apply orb_true_iff in H as [H|H]; [apply orb_true_iff in H as [H|H]|].
        -- right; left. destruct (code e) as [c|]; [|discriminate].
           apply String.eqb_eq in H. now subst.
        -- right; right; left. exists r. split; [reflexivity|].
           apply andb_true_iff in H as [H1 H2].
           apply Z.geb_le in H1. apply Z.ltb_lt in H2. lia.
        -- right; right; right. exists r. split; [reflexivity|].
           now apply Z.eqb_eq in H.
      * intros [[H|[H|[(r' & Heq & H)|(r' & Heq & H)]]] _].
        -- discriminate.
        -- rewrite H. rewrite String.eqb_refl. reflexivity.
        -- injection Heq as <-.
           assert ((status r >=? 500) && (status r <? 600) = true) as ->.
           { apply andb_true_iff. split; [apply Z.geb_le|apply Z.ltb_lt]; lia. }
           now rewrite orb_true_r.
        -- injection Heq as <-. rewrite H. now rewrite orb_true_r.
    + split; [|reflexivity]. intros _. split; [now left|exact Hlt].
Qed.

(** One attempt of [request]: a resolved attempt ends the request; a
    rejected one is re-issued after the delay when [shouldRetry] holds and
    propagates otherwise. *)
Lemma request_attempt (opts : RetryOptions) (transport : nat -> Outcome)
  (fuel k : nat) (cfg : RequestConfig) (e : AxiosError) :
  settle cfg (transport k) = inr e ->
  request opts transport (S fuel) k cfg
  = if shouldRetry opts (IsAxiosError e) then
      match request opts transport fuel (S k) (fst (retryRequest opts e)) with
      | Some (res, delays) => Some (res, snd (retryRequest opts e) :: delays)
      | None => None
      end
    else Some (Rejected e, []).
Proof. intros H. cbn [request]. rewrite H. reflexivity. Qed.

(** A request settles within [maxRetries] retries, and its (j+1)-th
    sleep is the delay computed for the counter value it then has. *)
Lemma request_settles (opts : RetryOptions) (transport : nat -> Outcome) :
  forall (fuel k : nat) (cfg : RequestConfig),
    0 <= nullish (retryCount cfg) 0 ->
    (Z.to_nat (nullish (maxRetries opts) 0 - nullish (retryCount cfg) 0) < fuel)%nat ->
    exists res delays,
      request opts transport fuel k cfg = Some (res, delays)
      /\ (List.length delays
          <= Z.to_nat (nullish (maxRetries opts) 0 - nullish (retryCount cfg) 0))%nat
      /\ forall j, (j < List.length delays)%nat ->
           nth j delays 0
           = retryDelay opts (nullish (retryCount cfg) 0 + 1 + Z.of_nat j).
Proof.
  induction fuel as [|fuel IH]; intros k cfg Hcount Hfuel; [lia|].
  destruct (settle cfg (transport k)) as [r|e] eqn:Hsettle.
  - exists (Resolved r), []. cbn [request]. rewrite Hsettle.
    repeat split; simpl; [lia|intros j Hj; lia].
  - rewrite (request_attempt opts transport fuel k cfg Hsettle).
    pose proof (settle_config _ _ Hsettle) as Hcfg.
    destruct (shouldRetry opts (IsAxiosError e)) eqn:Hretry.
    + apply (shouldRetry_iff opts e Hcfg) in Hretry as [_ Hbelow].
      unfold retryRequest. rewrite Hcfg. cbn [fst snd].
      rewrite or_else_zero.
      set (c := nullish (retryCount cfg) 0) in *.
      destruct (IH (S k) (with_retryCount cfg (c + 1))) as (res & delays & Hrun & Hlen & Hnth).
      * simpl. lia.
      * simpl. lia.
      * rewrite Hrun. exists res, (retryDelay opts (c + 1) :: delays).
        split; [reflexivity|]. simpl in Hlen, Hnth. split.
        -- simpl. lia.
        -- intros [|j] Hj; simpl.
           ++ f_equal. lia.
           ++ rewrite Hnth by (simpl in Hj; lia). f_equal. lia.
    + exists (Rejected e), []. repeat split; simpl; [lia|intros j Hj; lia].
Qed.

(** C1. A failed attempt is retried exactly when no response was
    received, or the failure code is the timeout code, or the status lies
    in [500, 600), or the status is 429, and the request's counter is
    below [maxRetries], 3 unless configured.  A 404 is rejected without a
    retry.  A transport that answers 503 three times and then 200 makes
    the call succeed after exactly three retries. *)
Theorem retry_policy (opts : RetryOptions) (e : AxiosError) (cfg : RequestConfig)
  (Hcfg : config e = Some cfg) :
  (shouldRetry opts (IsAxiosError e) = true
   <-> (response e = None
        \/ code e = Some "ECONNABORTED"
        \/ (exists r, response e = Some r /\ 500 <= status r < 600)
        \/ (exists r, response e = Some r /\ status r = 429))
       /\ nullish (retryCount cfg) 0 < nullish (maxRetries opts) 0)
  /\ (forall transport fuel k,
        settle cfg (transport k) = inr e ->
        request opts transport (S fuel) k cfg
        = if shouldRetry opts (IsAxiosError e) then
            match request opts transport fuel (S k) (fst (retryRequest opts e)) with
            | Some (res, delays) => Some (res, snd (retryRequest opts e) :: delays)
            | None => None
            end
          else Some (Rejected e, []))
  /\ maxRetries (constructor_retryOptions None) = Some 3
  /\ (forall transport fuel k cfg' d,
        transport k = Answered {| status := 404; data := d |} ->
        exists err,
          request opts transport (S fuel) k cfg' = Some (Rejected err, [])
          /\ response err = Some {| status := 404; data := d |})
  /\ (forall fuel meth path d,
        (3 < fuel)%nat ->
        call (constructor_retryOptions None) (Reference.fails_then 3 503 200 d)
             fuel meth path
        = Some (inl d, [1000; 2000; 4000])).
Proof.
  split; [|split; [|split; [|split]]].
  - apply shouldRetry_iff. exact Hcfg.
  - intros transport fuel k. apply request_attempt.
  - reflexivity.
  - intros transport fuel k cfg' d Hk. cbn [request]. rewrite Hk.
    exists {| config := Some cfg'; code := Some "ERR_BAD_REQUEST";
              response := Some {| status := 404; data := d |} |}.
    split; [|reflexivity].
    cbn [settle status]. simpl.
    destruct (nullish (retryCount cfg') 0 >=? nullish (maxRetries opts) 0); reflexivity.
  - intros fuel meth path d Hfuel.
    do 4 (destruct fuel as [|fuel]; [lia|]). reflexivity.
Qed.

Lemma retry_policy_witness :
  let cfg := {| method := Some "get"; url := Some "/hedera/tokens/0.0.7";
                retryCount := Some 2 |} in
  let e := {| config := Some cfg; code := Some "ERR_BAD_RESPONSE";
              response := Some {| status := 503; data := JS.Null |} |} in
  shouldRetry (constructor_retryOptions None) (IsAxiosError e) = true.
Proof.
  intros cfg e.
  apply (retry_policy (constructor_retryOptions None) e (cfg := cfg) eq_refl).
  split.
  - right; right; left. eexists. split; [reflexivity|]. simpl. lia.
  - simpl. lia.
Defined.



End ClientFacts.

(* ================================================================== *)
(** * Properties of the wallet manager and the adapters *)

Module WalletFacts.
Import JS Wallet.

Lemma hashconnect_disconnect_resolves (e : Env) :
  fst (HashConnect.disconnect e) = Ok tt.
Proof.
  unfold HashConnect.disconnect.
  destruct (has_window e); [|reflexivity].
  destruct (hashpack e) as [hp|]; [|reflexivity].
  destruct (HashConnect.lookup "disconnect" hp) as [[[r|msg]|b]|]; reflexivity.
Qed.

Lemma walletconnect_disconnect_resolves (st : WalletConnect.state) (e : Env) :
  fst (fst (WalletConnect.disconnect st e)) = Ok tt.
Proof.
  unfold WalletConnect.disconnect.
  destruct (WalletConnect.provider st) as [p|]; [|reflexivity].
  destruct (provider_disconnect p) as [[u|msg]|]; reflexivity.
Qed.

Lemma connect_unavailable (S : Type) (m : Manager S) :
  Adapter.isAvailable (adapter m) (adapter_state m) (env m) = false ->
  connect m
  = (Err "No wallet provider available for the configured adapter",
     {| connectionInfo := connectionInfo m; adapter := adapter m;
        adapter_state := adapter_state m; env := env m;
        calls := calls m ++ [CallIsAvailable] |}).
Proof.
  intros Hno. unfold connect, bind, adapter_isAvailable, invoke, throw.
  cbn. rewrite Hno. reflexivity.
Qed.

Lemma connect_available (S : Type) (m : Manager S)
  (r : result WalletConnectionInfo) (s' : S) (e' : Env) :
  Adapter.isAvailable (adapter m) (adapter_state m) (env m) = true ->
  Adapter.connect (adapter m) (adapter_state m) (env m) = (r, s', e') ->
  connect m
  = (r, {| connectionInfo := match r with
                             | Ok info => info_value info
                             | Err _ => connectionInfo m
                             end;
           adapter := adapter m; adapter_state := s'; env := e';
           calls := calls m ++ [CallIsAvailable; CallConnect] |}).
Proof.
  intros Hyes Hconnect.
  unfold connect, bind, adapter_isAvailable, invoke, set_connectionInfo, ret.
  cbn. rewrite Hyes. cbn. rewrite Hconnect.
  rewrite <- app_assoc. destruct r; reflexivity.
Qed.

(** C4. When the adapter reports itself unavailable, [connect] (and
    [connectHashPack]) rejects at once: the only adapter method invoked is
    [isAvailable], and the connection record, the adapter and the
    environment are as before.  When the adapter is available, [connect]
    invokes the adapter's [connect]; a record it resolves with becomes the
    manager's connection record and the result of the call, and a
    rejection is passed on with the record untouched. *)
Theorem connect_checks_availability (S : Type) (m : Manager S) :
  connectHashPack m = connect m
  /\ (Adapter.isAvailable (adapter m) (adapter_state m) (env m) = false ->
      connect m
      = (Err "No wallet provider available for the configured adapter",
         {| connectionInfo := connectionInfo m; adapter := adapter m;
            adapter_state := adapter_state m; env := env m;
            calls := calls m ++ [CallIsAvailable] |}))
  /\ (Adapter.isAvailable (adapter m) (adapter_state m) (env m) = true ->
      forall r s' e',
        Adapter.connect (adapter m) (adapter_state m) (env m) = (r, s', e') ->
        connect m
        = (r, {| connectionInfo := match r with
                                   | Ok info => info_value info
                                   | Err _ => connectionInfo m
                                   end;
                 adapter := adapter m; adapter_state := s'; env := e';
                 calls := calls m ++ [CallIsAvailable; CallConnect] |})).
Proof.
  split; [reflexivity|split].
  - apply connect_unavailable.
  - intros Hyes r s' e'. now apply connect_available.
Qed.

Lemma connect_checks_availability_witness :
  let unavailable := create (Some HashConnect.adapter) tt (Reference.page None) in
  let available :=
    create (Some HashConnect.adapter) tt
      (Reference.page_with_wallet
         {| accountIds := Some ["0.0.4242"]; reported_network := Some "mainnet";
            reported_publicKey := None |}) in
  fst (connect unavailable)
  = Err "No wallet provider available for the configured adapter"
  /\ calls (snd (connect unavailable)) = [CallIsAvailable]
  /\ fst (connect available)
     = Ok {| accountId := Some "0.0.4242"; network := "mainnet"; publicKey := None |}
  /\ connectionInfo (snd (connect available))
     = info_value {| accountId := Some "0.0.4242"; network := "mainnet";
                     publicKey := None |}.
Proof.
  intros unavailable available.
  destruct (connect_checks_availability unavailable) as (_ & Hno & _).
  destruct (connect_checks_availability available) as (_ & _ & Hyes).
  rewrite (Hno eq_refl).
  rewrite (Hyes eq_refl _ _ _ eq_refl).
  repeat split; reflexivity.
Defined.

(** C10. Without a connection record, [requestTransaction] rejects with
    'Wallet not connected' and leaves the manager, the adapter and the
    log of adapter calls as they were.  With a record, it hands the bytes
    to the adapter and returns what the adapter returns. *)
Theorem requestTransaction_needs_connection (S : Type) (m : Manager S)
  (transaction : bytes) :
  isConnected (create (Some (adapter m)) (adapter_state m) (env m)) = false
  /\ (connectionInfo m = Null ->
      requestTransaction transaction m = (Err "Wallet not connected", m))
  /\ (connectionInfo m <> Null ->
      forall r s' e',
        Adapter.requestTransaction (adapter m) transaction (adapter_state m) (env m)
        = (r, s', e') ->
        requestTransaction transaction m
        = (r, {| connectionInfo := connectionInfo m; adapter := adapter m;
                 adapter_state := s'; env := e';
                 calls := calls m ++ [CallRequestTransaction transaction] |})).
Proof.
  split; [reflexivity|split].
  - intros Hnull. unfold requestTransaction, isConnected. rewrite Hnull. reflexivity.
  - intros Hrecord r s' e' Hadapter.
    unfold requestTransaction, isConnected, invoke.
    destruct (connectionInfo m) eqn:Hinfo; try congruence;
      cbn; rewrite Hadapter; reflexivity.
Qed.

Lemma requestTransaction_needs_connection_witness :
  let fresh := create (Some Reference.failing_disconnect) tt (Reference.page None) in
  let connected := snd (connect fresh) in
  requestTransaction [Byte.x0a; Byte.x02] fresh = (Err "Wallet not connected", fresh)
  /\ fst (requestTransaction [Byte.x0a; Byte.x02] connected) = Ok [Byte.x0a; Byte.x02].
Proof.
  intros fresh connected.
  destruct (requestTransaction_needs_connection fresh [Byte.x0a; Byte.x02])
    as (_ & Hnull & _).
  destruct (requestTransaction_needs_connection connected [Byte.x0a; Byte.x02])
    as (_ & _ & Hrecord).
  split.
  - apply Hnull. reflexivity.
  - rewrite (Hrecord ltac:(discriminate) _ _ _ eq_refl). reflexivity.
Defined.

(** C5 (amended). [disconnect] invokes the adapter's [disconnect].  When
    that resolves, the manager's [disconnect] resolves and the connection
    record is cleared, so [isConnected] is false afterwards; when it
    rejects, the manager's [disconnect] rejects with the same error and
    the record stays.  The [disconnect] of both shipped adapters swallows
    a failure of the underlying provider and always resolves, so with
    either of them the manager's [disconnect] always resolves and clears
    the record. *)
Theorem disconnect_clears_after_adapter (S : Type) (m : Manager S) :
  (forall r s' e',
      Adapter.disconnect (adapter m) (adapter_state m) (env m) = (r, s', e') ->
      disconnect m
      = (r, {| connectionInfo := match r with
                                 | Ok _ => Null
                                 | Err _ => connectionInfo m
                                 end;
               adapter := adapter m; adapter_state := s'; env := e';
               calls := calls m ++ [CallDisconnect] |})
      /\ (r = Ok tt -> isConnected (snd (disconnect m)) = false))
  /\ (forall e, fst (HashConnect.disconnect e) = Ok tt)
  /\ (forall st e, fst (fst (WalletConnect.disconnect st e)) = Ok tt)
  /\ (forall (h : Manager unit),
        adapter h = HashConnect.adapter ->
        fst (disconnect h) = Ok tt /\ isConnected (snd (disconnect h)) = false)
  /\ (forall (w : Manager WalletConnect.state) connector_ok,
        adapter w = WalletConnect.adapter connector_ok ->
        fst (disconnect w) = Ok tt /\ isConnected (snd (disconnect w)) = false).
Proof.
  assert (Hstep : forall (T : Type) (x : Manager T) r s' e',
             Adapter.disconnect (adapter x) (adapter_state x) (env x) = (r, s', e') ->
             disconnect x
             = (r, {| connectionInfo := match r with
                                        | Ok _ => Null
                                        | Err _ => connectionInfo x
                                        end;
                      adapter := adapter x; adapter_state := s'; env := e';
                      calls := calls x ++ [CallDisconnect] |})).
  { intros T x r s' e' Hx.
    unfold disconnect, bind, invoke, set_connectionInfo. rewrite Hx.
    destruct r as [[]|msg]; reflexivity. }
  split; [|split; [|split; [|split]]].
  - intros r s' e' Hadapter. split; [now apply Hstep|].
    intros ->. rewrite (Hstep _ m _ _ _ Hadapter). reflexivity.
  - apply hashconnect_disconnect_resolves.
  - apply walletconnect_disconnect_resolves.
  - intros h Hh.
    destruct (Adapter.disconnect (adapter h) (adapter_state h) (env h))
      as [[r s'] e'] eqn:Hadapter.
    rewrite (Hstep _ h _ _ _ Hadapter).
    assert (r = Ok tt) as ->; [|split; reflexivity].
    rewrite Hh in Hadapter. cbn in Hadapter.
    pose proof (hashconnect_disconnect_resolves (env h)) as Hres.
    destruct (HashConnect.disconnect (env h)) as [r0 e0].
    injection Hadapter as <- _ _. exact Hres.
  - intros w connector_ok Hw.
    destruct (Adapter.disconnect (adapter w) (adapter_state w) (env w))
      as [[r s'] e'] eqn:Hadapter.
    rewrite (Hstep _ w _ _ _ Hadapter).
    assert (r = Ok tt) as ->; [|split; reflexivity].
    rewrite Hw in Hadapter. cbn in Hadapter.
    pose proof (walletconnect_disconnect_resolves (adapter_state w) (env w)) as Hres.
    rewrite Hadapter in Hres. exact Hres.
Qed.

Lemma disconnect_clears_after_adapter_witness :
  let throwing_wallet :=
    {| has_window := true;
       hashpack :=
         Some {| props := [("disconnect", Method (Err "extension crashed"))];
                 on_transaction := fun tx => Ok tx |};
       storage := Some "{}";
       universal_provider := None |} in
  let m :=
    {| connectionInfo := Obj [("accountId", Str "0.0.7")];
       adapter := HashConnect.adapter; adapter_state := tt;
       env := throwing_wallet; calls := [] |} in
  fst (disconnect m) = Ok tt /\ isConnected (snd (disconnect m)) = false.
Proof.
  intros throwing_wallet m.
  destruct (disconnect_clears_after_adapter m) as (_ & _ & _ & Hshipped & _).
  apply Hshipped. reflexivity.
Defined.

(** C5, as stated, fails for an adapter whose [disconnect] rejects: the
    manager's [disconnect] rejects too and the manager stays connected. *)
Lemma disconnect_propagates_adapter_failure :
  let m := snd (connect (create (Some Reference.failing_disconnect) tt
                                (Reference.page None))) in
  isConnected m = true
  /\ fst (disconnect m) = Err "provider unreachable"
  /\ isConnected (snd (disconnect m)) = true.
Proof. repeat split; reflexivity. Qed.

(** C6 (amended).  In a browser, when the stored entry is a non-empty
    string that is not JSON, [restoreConnection] returns [null], removes
    the entry and leaves the connection record as it was; [init] then
    resolves, provided the adapter has no [init] or its [init] resolved.
    A manager without a connection record has none afterwards.  An empty
    stored string counts as no stored session: [restoreConnection]
    returns [null] and changes nothing, the entry included, and so does
    [init] after the adapter's [init]. *)
Theorem init_discards_corrupt_entry (S : Type) (m : Manager S) :
  (forall stored, JSON.parse stored = None -> stored <> "" ->
     (has_window (env m) = true -> storage (env m) = Some stored ->
      restoreConnection m
      = (Ok Null, {| connectionInfo := connectionInfo m; adapter := adapter m;
                     adapter_state := adapter_state m; env := removeItem (env m);
                     calls := calls m |}))
     /\ (Adapter.init (adapter m) = None ->
         has_window (env m) = true -> storage (env m) = Some stored ->
         init m
         = (Ok tt, {| connectionInfo := connectionInfo m; adapter := adapter m;
                      adapter_state := adapter_state m; env := removeItem (env m);
                      calls := calls m |}))
     /\ (forall adapter_init s' e',
           Adapter.init (adapter m) = Some adapter_init ->
           adapter_init (adapter_state m) (env m) = (Ok tt, s', e') ->
           has_window e' = true -> storage e' = Some stored ->
           init m
           = (Ok tt, {| connectionInfo := connectionInfo m; adapter := adapter m;
                        adapter_state := s'; env := removeItem e';
                        calls := calls m ++ [CallInit] |})))
  /\ (forall e, storage (removeItem e) = None)
  /\ (storage (env m) = Some "" -> restoreConnection m = (Ok Null, m))
  /\ (Adapter.init (adapter m) = None -> storage (env m) = Some "" ->
      init m = (Ok tt, m))
  /\ (forall adapter_init s' e',
        Adapter.init (adapter m) = Some adapter_init ->
        adapter_init (adapter_state m) (env m) = (Ok tt, s', e') ->
        storage e' = Some "" ->
        init m
        = (Ok tt, {| connectionInfo := connectionInfo m; adapter := adapter m;
                     adapter_state := s'; env := e';
                     calls := calls m ++ [CallInit] |})).
Proof.
  assert (Hempty : forall x : Manager S,
             storage (env x) = Some "" -> restoreConnection x = (Ok Null, x)).
  { intros x Hslot. unfold restoreConnection. rewrite Hslot.
    destruct (has_window (env x)); reflexivity. }
  split; [|split; [|split; [|split]]].
  - intros stored Hcorrupt Hnonempty.
    assert (Htruthy : Str.truthy stored = true).
    { destruct stored; [congruence|reflexivity]. }
    assert (Hrestore : forall x : Manager S,
               has_window (env x) = true -> storage (env x) = Some stored ->
               restoreConnection x
               = (Ok Null, {| connectionInfo := connectionInfo x; adapter := adapter x;
                              adapter_state := adapter_state x;
                              env := removeItem (env x); calls := calls x |})).
    { intros x Hwin Hslot. unfold restoreConnection.
      rewrite Hwin, Hslot, Htruthy, Hcorrupt. reflexivity. }
    split; [|split].
    + apply Hrestore.
    + intros Hnone Hwin Hslot. unfold init, bind. rewrite Hnone.
      rewrite (Hrestore m Hwin Hslot). reflexivity.
    + intros adapter_init s' e' Hsome Hinit Hwin Hslot.
      unfold init, bind, invoke. rewrite Hsome, Hinit.
      rewrite Hrestore by assumption. reflexivity.
  - reflexivity.
  - apply Hempty.
  - intros Hnone Hslot. unfold init, bind. rewrite Hnone.
    rewrite (Hempty m Hslot). reflexivity.
  - intros adapter_init s' e' Hsome Hinit Hslot.
    unfold init, bind, invoke. rewrite Hsome, Hinit.
    rewrite Hempty by assumption. reflexivity.
Qed.

Lemma init_discards_corrupt_entry_witness :
  let m := create (Some HashConnect.adapter) tt
                  (Reference.page (Some "{accountId: 0.0.1")) in
  let blank := create (Some HashConnect.adapter) tt (Reference.page (Some "")) in
  (fst (init m) = Ok tt
   /\ connectionInfo (snd (init m)) = Null
   /\ storage (env (snd (init m))) = None)
  /\ (fst (init blank) = Ok tt
      /\ connectionInfo (snd (init blank)) = Null
      /\ storage (env (snd (init blank))) = Some "").
Proof.
  intros m blank.
  destruct (init_discards_corrupt_entry m) as (Hcorrupt & _).
  destruct (Hcorrupt "{accountId: 0.0.1" eq_refl ltac:(discriminate))
    as (_ & _ & Hinit).
  destruct (init_discards_corrupt_entry blank) as (_ & _ & _ & _ & Hblank).
  rewrite (Hinit _ _ _ eq_refl eq_refl eq_refl eq_refl).
  rewrite (Hblank _ _ _ eq_refl eq_refl eq_refl).
  split; repeat split; reflexivity.
Defined.

(** C6, as stated, fails in two ways.  The empty string is not JSON, yet
    [init] leaves it in the storage slot; and a manager that holds a
    record when [init] meets a corrupt entry still holds it afterwards. *)
Lemma init_leaves_entry_or_record :
  let fresh := create (Some HashConnect.adapter) tt (Reference.page (Some "")) in
  let connected :=
    {| connectionInfo := Obj [("accountId", Str "0.0.7"); ("network", Str "testnet")];
       adapter := HashConnect.adapter; adapter_state := tt;
       env := Reference.page (Some "{accountId"); calls := [] |} in
  (JSON.parse "" = None
   /\ fst (init fresh) = Ok tt
   /\ storage (env (snd (init fresh))) = Some "")
  /\ (JSON.parse "{accountId" = None
      /\ fst (init connected) = Ok tt
      /\ isConnected (snd (init connected)) = true).
Proof. repeat split; reflexivity. Qed.

Lemma hashconnect_connect_record (e : Env) (info : WalletConnectionInfo) (e' : Env) :
  HashConnect.connect e = (Ok info, e') ->
  exists hp method r first rest,
    HashConnect.waitForHashPack e = Some hp
    /\ HashConnect.probeConnectMethod hp = Some method
    /\ HashConnect.lookup method hp = Some (Method (Ok (Some r)))
    /\ accountIds r = Some (first :: rest)
    /\ info = {| accountId := Some first;
                 network := HashConnect.or_string (reported_network r) "testnet";
                 publicKey := reported_publicKey r |}.
Proof.
  unfold HashConnect.connect.
  destruct (HashConnect.waitForHashPack e) as [hp|] eqn:Hhp; [|discriminate].
  destruct (HashConnect.probeConnectMethod hp) as [name|] eqn:Hname; [|discriminate].
  destruct (HashConnect.lookup name hp) as [[[[r|]|msg]|b]|] eqn:Hcall;
    try discriminate.
  destruct (accountIds r) as [[|first rest]|] eqn:Hids; try discriminate.
  intros H. injection H as <- _. exists hp, name, r, first, rest.
  repeat split; assumption.
Qed.

Lemma hashconnect_connect_reported (e : Env) (hp : HashPack) (method : string)
  (r : HashPackConnectResult) (first : string) (rest : list string) :
  HashConnect.waitForHashPack e = Some hp ->
  HashConnect.probeConnectMethod hp = Some method ->
  HashConnect.lookup method hp = Some (Method (Ok (Some r))) ->
  accountIds r = Some (first :: rest) ->
  fst (HashConnect.connect e)
  = Ok {| accountId := Some first;
          network := HashConnect.or_string (reported_network r) "testnet";
          publicKey := reported_publicKey r |}.
Proof.
  intros Hhp Hmethod Hcall Hids. unfold HashConnect.connect.
  rewrite Hhp, Hmethod, Hcall, Hids. reflexivity.
Qed.

Lemma walletconnect_connect_network (st : WalletConnect.state) (e : Env)
  (info : WalletConnectionInfo) (st' : WalletConnect.state) (e' : Env) :
  WalletConnect.connect st e = (Ok info, st', e') ->
  network info = "testnet" \/ network info = "mainnet".
Proof.
  unfold WalletConnect.connect.
  destruct (WalletConnect.provider st) as [p|]; [|discriminate].
  destruct (provider_connect p) as [session|msg]; [|discriminate].
  destruct (hedera_accounts session) as [[|first rest]|]; try discriminate.
  destruct (Str.truthy first); [|discriminate].
  intros H. injection H as <- _ _. cbn [network].
  destruct (Str.split ":" first) as [|part0 [|part1 parts]]; try (now left).
  destruct (String.eqb part1 "mainnet"); [now right|now left].
Qed.

(** C7 (amended). A manager holds one connection record at a time: the
    record an adapter's [connect] resolves with, or the value
    [restoreConnection] parses from storage, replaces whatever was held.
    The record built by [WalletConnectAdapter.connect] has network
    'testnet' or 'mainnet'.  [HashConnectAdapter.connect] resolves with a
    record exactly when the connect method it found on the injected
    wallet answers with a non-empty list of accounts; the record then
    takes the first account of that answer as [accountId], the network of
    that answer, or 'testnet' when the answer has none, as [network], and
    the public key of that answer as [publicKey].  Whenever the
    [accountId] so obtained matches [^0\.0\.\d+$] and the network is one
    of the two names, the record has the Connection Record shape. *)
Theorem connection_record_sources :
  (forall (S : Type) (m : Manager S) info s' e',
      Adapter.isAvailable (adapter m) (adapter_state m) (env m) = true ->
      Adapter.connect (adapter m) (adapter_state m) (env m) = (Ok info, s', e') ->
      getConnectionInfo (snd (connect m)) = info_value info)
  /\ (forall (S : Type) (m : Manager S) stored v,
        has_window (env m) = true -> storage (env m) = Some stored ->
        stored <> "" -> JSON.parse stored = Some v ->
        getConnectionInfo (snd (restoreConnection m)) = v)
  /\ (forall st e info st' e',
        WalletConnect.connect st e = (Ok info, st', e') ->
        network info = "testnet" \/ network info = "mainnet")
  /\ (forall e info e',
        HashConnect.connect e = (Ok info, e') ->
        exists hp method r first rest,
          HashConnect.waitForHashPack e = Some hp
          /\ HashConnect.probeConnectMethod hp = Some method
          /\ HashConnect.lookup method hp = Some (Method (Ok (Some r)))
          /\ accountIds r = Some (first :: rest)
          /\ info = {| accountId := Some first;
                       network := HashConnect.or_string (reported_network r) "testnet";
                       publicKey := reported_publicKey r |})
  /\ (forall e hp method r first rest,
        HashConnect.waitForHashPack e = Some hp ->
        HashConnect.probeConnectMethod hp = Some method ->
        HashConnect.lookup method hp = Some (Method (Ok (Some r))) ->
        accountIds r = Some (first :: rest) ->
        fst (HashConnect.connect e)
        = Ok {| accountId := Some first;
                network := HashConnect.or_string (reported_network r) "testnet";
                publicKey := reported_publicKey r |})
  /\ (forall info a,
        accountId info = Some a ->
        Security.matches_id_pattern a = true ->
        Security.isValidNetwork (network info) = true ->
        Reference.well_shaped (info_value info) = true).
Proof.
  split; [|split; [|split; [|split; [|split]]]].
  - intros S m info s' e' Hyes Hconnect.
    rewrite (connect_available m Hyes Hconnect). reflexivity.
  - intros S m stored v Hwin Hslot Hnonempty Hparse.
    unfold restoreConnection. rewrite Hwin, Hslot, Hparse.
    destruct stored; [congruence|reflexivity].
  - apply walletconnect_connect_network.
  - apply hashconnect_connect_record.
  - apply hashconnect_connect_reported.
  - intros info a Ha Hid Hnet. unfold Reference.well_shaped, info_value.
    rewrite Ha. cbn. rewrite Hid, Hnet.
    destruct (publicKey info); reflexivity.
Qed.

Lemma connection_record_sources_witness :
  let paired :=
    {| WalletConnect.provider :=
         Some {| provider_connect :=
                   Ok {| hedera_accounts := Some ["hedera:mainnet:0.0.98"] |};
                 provider_disconnect := None; provider_request := None |};
       WalletConnect.connector := false |} in
  let m := create (Some (WalletConnect.adapter true)) paired (Reference.page None) in
  let answer := {| accountIds := Some ["0.0.4242"; "0.0.77"];
                   reported_network := None;
                   reported_publicKey := Some "302a300506032b6570" |} in
  let injected := create (Some HashConnect.adapter) tt
                         (Reference.page_with_wallet answer) in
  (getConnectionInfo (snd (connect m))
   = info_value {| accountId := Some "0.0.98"; network := "mainnet"; publicKey := None |}
   /\ Reference.well_shaped (getConnectionInfo (snd (connect m))) = true)
  /\ (fst (HashConnect.connect (Reference.page_with_wallet answer))
      = Ok {| accountId := Some "0.0.4242"; network := "testnet";
              publicKey := Some "302a300506032b6570" |}
      /\ getConnectionInfo (snd (connect injected))
         = info_value {| accountId := Some "0.0.4242"; network := "testnet";
                         publicKey := Some "302a300506032b6570" |}
      /\ Reference.well_shaped (getConnectionInfo (snd (connect injected))) = true).
Proof.
  intros paired m answer injected.
  destruct connection_record_sources as (Hadopt & _ & _ & _ & Hreported & Hshape).
  split.
  - rewrite (Hadopt _ m _ _ _ eq_refl eq_refl).
    split; [reflexivity|].
    apply (Hshape _ "0.0.98"); reflexivity.
  - split; [|split].
    + exact (Hreported (Reference.page_with_wallet answer) _ "connectToLocalWallet"
               answer "0.0.4242" ["0.0.77"] eq_refl eq_refl eq_refl eq_refl).
    + rewrite (Hadopt _ injected _ _ _ eq_refl eq_refl). reflexivity.
    + rewrite (Hadopt _ injected _ _ _ eq_refl eq_refl).
      apply (Hshape _ "0.0.4242"); reflexivity.
Defined.

(** C7, as stated, fails: the injected-wallet adapter takes the account
    and the network as the wallet reports them, and the manager adopts
    the record without checking either. *)
Lemma connect_adopts_unvalidated_record :
  let m := create (Some HashConnect.adapter) tt
             (Reference.page_with_wallet
                {| accountIds := Some ["alice.eth"];
                   reported_network := Some "previewnet";
                   reported_publicKey := None |}) in
  fst (connect m)
  = Ok {| accountId := Some "alice.eth"; network := "previewnet"; publicKey := None |}
  /\ isConnected (snd (connect m)) = true
  /\ Reference.well_shaped (getConnectionInfo (snd (connect m))) = false.
Proof. repeat split; reflexivity. Qed.

(** The pairing adapter stores [undefined] as [accountId] when the
    session's account string has no third part. *)
Example walletconnect_account_may_be_undefined :
  let paired :=
    {| WalletConnect.provider :=
         Some {| provider_connect := Ok {| hedera_accounts := Some ["hedera:testnet"] |};
                 provider_disconnect := None; provider_request := None |};
       WalletConnect.connector := false |} in
  fst (fst (WalletConnect.connect paired (Reference.page None)))
  = Ok {| accountId := None; network := "testnet"; publicKey := None |}.
Proof. reflexivity. Qed.

(** [restoreConnection] adopts any stored JSON value. *)
Example restoreConnection_adopts_any_json :
  let m := create (Some HashConnect.adapter) tt (Reference.page (Some "[42]")) in
  getConnectionInfo (snd (restoreConnection m)) = Arr [Num 42]
  /\ isConnected (snd (restoreConnection m)) = true.
Proof. split; reflexivity. Qed.

(** What [connect] persists is read back by [init] on the next page load. *)
Example connect_then_restore :
  let r := {| accountIds := Some ["0.0.5005"]; reported_network := None;
              reported_publicKey := Some "302a300506032b6570" |} in
  let first_visit := create (Some HashConnect.adapter) tt (Reference.page_with_wallet r) in
  let next_visit :=
    create (Some HashConnect.adapter) tt (env (snd (connect first_visit))) in
  getConnectionInfo (snd (init next_visit))
  = Obj [("accountId", Str "0.0.5005"); ("network", Str "testnet");
         ("publicKey", Str "302a300506032b6570")]
  /\ Reference.well_shaped (getConnectionInfo (snd (init next_visit))) = true.
Proof. split; reflexivity. Qed.

End WalletFacts.

(* ================================================================== *)
(** * Round trip of the persisted session through JSON *)

Module JSONFacts.
Import JS.

Lemma append_assoc (a b c : string) : ((a ++ b) ++ c = a ++ (b ++ c))%string.
Proof. induction a as [|x a IH]; simpl; [reflexivity|now rewrite IH]. Qed.

Lemma append_nil_r (a : string) : (a ++ "" = a)%string.
Proof. induction a as [|x a IH]; simpl; [reflexivity|now rewrite IH]. Qed.

Lemma length_append (a b : string) :
  String.length (a ++ b) = (String.length a + String.length b)%nat.
Proof. induction a as [|x a IH]; simpl; [reflexivity|now rewrite IH]. Qed.

(** One character written by [escape] is read back as that character. *)
Lemma parse_escaped_char (c : ascii) (f : nat) (t acc : string) :
  JSON.parse_chars (S f) (JSON.escape_char c ++ t) acc
  = JSON.parse_chars f t (acc ++ String c EmptyString).
Proof.
  destruct c as [[] [] [] [] [] [] [] []]; reflexivity.
Qed.

Lemma parse_escaped (s : string) :
  forall (f : nat) (acc rest : string),
    (String.length s < f)%nat ->
    JSON.parse_chars f (JSON.escape s ++ String JSON.dquote rest) acc
    = Some ((acc ++ s)%string, rest).
Proof.
  induction s as [|c s IH]; intros f acc rest Hf.
  - destruct f as [|f]; [simpl in Hf; lia|].
    simpl. now rewrite append_nil_r.
  - destruct f as [|f]; [simpl in Hf; lia|].
    cbn [JSON.escape]. rewrite append_assoc, parse_escaped_char.
    rewrite IH by (simpl in Hf; lia).
    now rewrite append_assoc.
Qed.

Lemma escape_longer (s : string) :
  (String.length s <= String.length (JSON.escape s))%nat.
Proof.
  induction s as [|c s IH]; simpl; [lia|].
  rewrite length_append.
  assert (1 <= String.length (JSON.escape_char c))%nat.
  { destruct c as [[] [] [] [] [] [] [] []]; vm_compute; lia. }
  lia.
Qed.

(** [JSON.parse] reads a string literal written by [JSON.stringify] back
    as the string it was written from. *)
Lemma parse_quoted (s rest : string) :
  JSON.parse_string (JSON.quote s ++ rest) = Some (s, rest).
Proof.
  unfold JSON.quote, JSON.parse_string. cbn [append].
  rewrite Ascii.eqb_refl. rewrite append_assoc. cbn [append].
  apply (@parse_escaped s _ "" rest).
  rewrite length_append. pose proof (escape_longer s). simpl. lia.
Qed.

Lemma skip_ws_quoted (s rest : string) :
  JSON.skip_ws (JSON.quote s ++ rest) = (JSON.quote s ++ rest)%string.
Proof. reflexivity. Qed.

Lemma parse_value_quoted (f : nat) (s rest : string) :
  JSON.parse_value (S f) (JSON.quote s ++ rest) = Some (Str s, rest).
Proof.
  cbn [JSON.parse_value]. rewrite skip_ws_quoted.
  pose proof (parse_quoted s rest) as H.
  unfold JSON.quote in *. cbn [append] in *.
  rewrite H. reflexivity.
Qed.

(** One member [key:string] of an object text, followed by a comma or by
    the closing brace. *)
Lemma parse_member_then_comma (f : nat) (key v rest : string) (acc : record) :
  JSON.parse_members (S (S f))
    (JSON.quote key ++ String ":" (JSON.quote v ++ String "," rest)) acc
  = JSON.parse_members (S f) rest (JS.set key (Str v) acc).
Proof.
  cbn [JSON.parse_members]. rewrite skip_ws_quoted, parse_quoted.
  change (JSON.skip_ws (String ":" (JSON.quote v ++ String "," rest)))
    with (String ":" (JSON.quote v ++ String "," rest))%string.
  cbv iota. rewrite parse_value_quoted. reflexivity.
Qed.

Lemma parse_member_then_brace (f : nat) (key v : string) (acc : record) :
  JSON.parse_members (S (S f)) (JSON.quote key ++ String ":" (JSON.quote v ++ "}")) acc
  = Some (Obj (JS.set key (Str v) acc), EmptyString).
Proof.
  cbn [JSON.parse_members]. rewrite skip_ws_quoted, parse_quoted.
  change (JSON.skip_ws (String ":" (JSON.quote v ++ "}")))
    with (String ":" (JSON.quote v ++ "}"))%string.
  cbv iota. rewrite parse_value_quoted. reflexivity.
Qed.

Lemma parse_object_open (f : nat) (key tail : string) :
  JSON.parse_value (S f) (String "{" (JSON.quote key ++ tail))
  = JSON.parse_members f (JSON.quote key ++ tail) [].
Proof. reflexivity. Qed.

Lemma parse_closed (text : string) (v : value) :
  (forall f, (6 < f)%nat -> JSON.parse_value f text = Some (v, EmptyString)) ->
  (3 <= String.length text)%nat ->
  JSON.parse text = Some v.
Proof.
  intros Hparse Hlen. unfold JSON.parse. rewrite Hparse by lia. reflexivity.
Qed.

(** The record written to storage by [connect] is read back by
    [JSON.parse] as an object with the properties that were defined. *)
Lemma parse_stringify_info (info : Wallet.WalletConnectionInfo) :
  JSON.parse (Wallet.stringify_info info) = Some (WalletMore.persisted_value info).
Proof.
  destruct info as [[a|] n [p|]];
    unfold Wallet.stringify_info, JSON.stringify_strings, WalletMore.persisted_value;
    cbn [JSON.stringify_props String.concat Wallet.accountId Wallet.network
         Wallet.publicKey app];
    (apply parse_closed;
     [ intros f Hf; do 7 (destruct f as [|f]; [lia|]);
       repeat first [rewrite append_assoc | progress cbn [append]];
       rewrite parse_object_open;
       rewrite ?parse_member_then_comma; rewrite parse_member_then_brace;
       reflexivity
     | repeat first [rewrite length_append | progress cbn [append String.length]];
       lia ]).
Qed.

End JSONFacts.

(* ================================================================== *)
(** * More properties of the security utilities *)

Module SecurityMoreFacts.
Import JS Security SecurityMore Wallet.

Lemma digit_not_control (c : ascii) :
  Str.is_digit c = true -> is_control c = false.
Proof. destruct c as [[] [] [] [] [] [] [] []]; vm_compute; congruence. Qed.

Lemma digits_clean (s : string) :
  Str.all Str.is_digit s = true -> control_free s = true.
Proof.
  unfold control_free. induction s as [|c s IH]; simpl; [reflexivity|].
  intros H. apply andb_true_iff in H as [Hc Hs].
  rewrite (digit_not_control c Hc). simpl. auto.
Qed.

Lemma matches_id_pattern_iff (s : string) :
  matches_id_pattern s = true
  <-> exists digits,
        s = ("0.0." ++ digits)%string /\ digits <> EmptyString
        /\ Str.all Str.is_digit digits = true.
Proof.
  split.
  - intros H.
    destruct s as [|c0 s]; [discriminate|].
    destruct c0 as [[] [] [] [] [] [] [] []]; try discriminate.
    destruct s as [|c1 s]; [discriminate|].
    destruct c1 as [[] [] [] [] [] [] [] []]; try discriminate.
    destruct s as [|c2 s]; [discriminate|].
    destruct c2 as [[] [] [] [] [] [] [] []]; try discriminate.
    destruct s as [|c3 s]; [discriminate|].
    destruct c3 as [[] [] [] [] [] [] [] []]; try discriminate.
    cbn in H. apply andb_true_iff in H as [Hne Hall].
    exists s. repeat split; [|exact Hall].
    destruct s; [discriminate|congruence].
  - intros (digits & -> & Hne & Hall). cbn. rewrite Hall.
    destruct digits; [congruence|reflexivity].
Qed.

(** X1. The three identifier validators are one predicate: a string is
    accepted exactly when it is ['0.0.'] followed by one or more decimal
    digits.  An accepted identifier holds no control character, so
    sanitisation leaves it as it is. *)
Theorem id_validators_accept_shard_realm_num (s : string) :
  (isValidAccountId s = true
   <-> exists digits,
         s = ("0.0." ++ digits)%string /\ digits <> EmptyString
         /\ Str.all Str.is_digit digits = true)
  /\ isValidTokenId s = isValidAccountId s
  /\ isValidTopicId s = isValidAccountId s
  /\ (isValidAccountId s = true -> strip_controls s = s).
Proof.
  assert (Hsame : isValidAccountId s = matches_id_pattern s).
  { unfold isValidAccountId. destruct s; reflexivity. }
  split; [|split; [|split]]; try reflexivity.
  - rewrite Hsame. apply matches_id_pattern_iff.
  - rewrite Hsame. intros H.
    apply matches_id_pattern_iff in H as (digits & -> & _ & Hall).
    apply StrFacts.filter_all. cbn. apply digits_clean in Hall. exact Hall.
Qed.

Lemma id_validators_accept_shard_realm_num_witness :
  Security.strip_controls "0.0.123456" = "0.0.123456".
Proof.
  apply (id_validators_accept_shard_realm_num "0.0.123456"). reflexivity.
Defined.

(** X2. [validateAmount] returns its argument unchanged, and does so
    exactly for the finite amounts above 0 and up to
    [Number.MAX_SAFE_INTEGER]; an amount that is not finite, is 0 or
    negative, or exceeds the bound is rejected with its own message, in
    that order. *)
Theorem validateAmount_accepts_safe_positive (amount : number) :
  (forall result, validateAmount amount = Ok result ->
     result = amount
     /\ exists q, amount = Finite q /\ (0 < q)%Q /\ (q <= MAX_SAFE_INTEGER)%Q)
  /\ (forall q, amount = Finite q -> (0 < q)%Q -> (q <= MAX_SAFE_INTEGER)%Q ->
       validateAmount amount = Ok amount)
  /\ (forall q, amount = Finite q -> (q <= 0)%Q ->
       validateAmount amount = Err "Amount must be positive")
  /\ (forall q, amount = Finite q -> (MAX_SAFE_INTEGER < q)%Q ->
       validateAmount amount = Err "Amount exceeds maximum safe integer")
  /\ ((forall q, amount <> Finite q) ->
      validateAmount amount = Err "Amount must be a valid number").
Proof.
  assert (Hpos : (0 < MAX_SAFE_INTEGER)%Q) by (vm_compute; reflexivity).
  split; [|split; [|split; [|split]]].
  - intros result H. destruct amount as [| | |q]; try discriminate.
    cbn in H.
    destruct (Qle_bool q 0) eqn:Hle; [discriminate|].
    destruct (Qle_bool q MAX_SAFE_INTEGER) eqn:Hmax; [|discriminate].
    injection H as <-. split; [reflexivity|]. exists q. repeat split.
    + apply Qnot_le_lt. intros Hq. apply Qle_bool_iff in Hq. congruence.
    + now apply Qle_bool_iff.
  - intros q -> Hq Hmax. cbn.
    assert (Qle_bool q 0 = false) as ->.
    { destruct (Qle_bool q 0) eqn:Hle; [|reflexivity].
      apply Qle_bool_iff in Hle. exfalso. eapply Qlt_not_le; eauto. }
    apply Qle_bool_iff in Hmax. now rewrite Hmax.
  - intros q -> Hq. cbn. apply Qle_bool_iff in Hq. now rewrite Hq.
  - intros q -> Hq. cbn.
    assert (Qle_bool q 0 = false) as ->.
    { destruct (Qle_bool q 0) eqn:Hle; [|reflexivity].
      apply Qle_bool_iff in Hle. exfalso.
      apply (Qlt_not_le _ _ Hpos). eapply Qle_trans; [|exact Hle].
      now apply Qlt_le_weak. }
    assert (Qle_bool q MAX_SAFE_INTEGER = false) as ->; [|reflexivity].
    destruct (Qle_bool q MAX_SAFE_INTEGER) eqn:Hle; [|reflexivity].
    apply Qle_bool_iff in Hle. exfalso. eapply Qlt_not_le; eauto.
  - intros H. destruct amount as [| | |q]; try reflexivity.
    exfalso. now apply (H q).
Qed.

Lemma validateAmount_accepts_safe_positive_witness :
  validateAmount (Finite (5 # 2)) = Ok (Finite (5 # 2))
  /\ validateAmount (Finite 0) = Err "Amount must be positive"
  /\ validateAmount (Finite 9007199254740992) = Err "Amount exceeds maximum safe integer"
  /\ validateAmount NaN = Err "Amount must be a valid number".
Proof.
  split; [|split; [|split]].
  - apply (validateAmount_accepts_safe_positive (Finite (5 # 2))) with (q := 5 # 2);
      [reflexivity| |]; vm_compute; congruence.
  - apply (validateAmount_accepts_safe_positive (Finite 0)) with (q := 0%Q);
      [reflexivity|]. vm_compute; congruence.
  - apply (validateAmount_accepts_safe_positive (Finite 9007199254740992))
      with (q := 9007199254740992%Q); [reflexivity|]. vm_compute; reflexivity.
  - apply (validateAmount_accepts_safe_positive NaN). intros q. discriminate.
Defined.

Lemma sanitize_value_clean (v : value) :
  forallb control_free (record_strings v) = true -> sanitize_value v = v.
Proof.
  induction v as [ | | b | q | s | items _ | props IH] using JS.value_ind;
    simpl; try reflexivity.
  - rewrite andb_true_r. intros H. f_equal. now apply StrFacts.filter_all.
  - intros H. f_equal.
    induction IH as [|kv props Hkv _ IHprops]; simpl in *; [reflexivity|].
    rewrite forallb_app in H. apply andb_true_iff in H as [H1 H2].
    rewrite (Hkv H1), (IHprops H2). now destruct kv.
Qed.

(** X3. On a record of plain data in which no record, nested ones
    included, has the own key ['__proto__'], [sanitizeEventData] returns
    a record equal to its argument exactly when no string that is a
    property value of the record, or of a record nested in it, holds a
    control character; it changes neither the keys, nor their order, nor
    the number of properties. *)
Theorem sanitizeEventData_fixes_clean_data (data : record)
  (Hkeys : ordinary_keys_deep (Obj data) = true) :
  (sanitizeEventData data = data
   <-> forallb control_free (record_strings (Obj data)) = true)
  /\ List.map fst (sanitizeEventData data) = List.map fst data.
Proof.
  split; [split|].
  - intros H. rewrite <- H. change (Obj (sanitizeEventData data))
      with (sanitize_value (Obj data)).
    rewrite SecurityFacts.record_strings_sanitize.
    apply SecurityFacts.forallb_map_clean.
  - intros H. pose proof (sanitize_value_clean (Obj data) H) as Hv.
    simpl in Hv. injection Hv as Hv. exact Hv.
  - unfold sanitizeEventData. rewrite map_map. reflexivity.
Qed.

Lemma sanitizeEventData_fixes_clean_data_witness :
  let clean := [("event", Str "match.settled");
                ("payload", Obj [("winner", Str "0.0.4242"); ("tags", Arr [Str "final"])])] in
  let dirty := [("event", Str (String "007" "match.settled"))] in
  sanitizeEventData clean = clean
  /\ sanitizeEventData dirty <> dirty
  /\ List.map fst (sanitizeEventData dirty) = ["event"].
Proof.
  intros clean dirty.
  destruct (sanitizeEventData_fixes_clean_data clean eq_refl) as (Hclean & _).
  destruct (sanitizeEventData_fixes_clean_data dirty eq_refl) as (Hdirty & Hk).
  split; [apply Hclean; reflexivity|split; [|exact Hk]].
  intros Hsame. apply Hdirty in Hsame. discriminate Hsame.
Defined.

Lemma sanitize_redact_value (v : value) :
  sanitize_value (redact_nested v) = redact_nested (sanitize_value v).
Proof.
  induction v as [ | | b | q | s | items _ | props IH] using JS.value_ind;
    simpl; try reflexivity.
  f_equal. rewrite !map_map. apply map_ext_in. intros kv Hin.
  rewrite Forall_forall in IH. specialize (IH kv Hin). cbn [fst snd].
  destruct (isSensitive (fst kv)); [reflexivity|now rewrite IH].
Qed.

(** X4. Sanitising and redacting commute: redacting the sanitised record
    gives the same record as sanitising the redacted one. *)
Theorem sanitize_redact_commute (data : record) :
  sanitizeEventData (redactSensitiveData data)
  = redactSensitiveData (sanitizeEventData data).
Proof.
  pose proof (sanitize_redact_value (Obj data)) as H.
  simpl in H. injection H as H. exact H.
Qed.

Lemma redact_nested_idempotent (v : value) :
  redact_nested (redact_nested v) = redact_nested v.
Proof.
  induction v as [ | | b | q | s | items _ | props IH] using JS.value_ind;
    simpl; try reflexivity.
  f_equal. rewrite map_map. apply map_ext_in. intros kv Hin.
  rewrite Forall_forall in IH. specialize (IH kv Hin). cbn [fst snd].
  destruct (isSensitive (fst kv)); [reflexivity|now rewrite IH].
Qed.

Lemma find_redacted (key : string) (o : record) :
  find (fun kv => String.eqb (fst kv) key) (redactSensitiveData o)
  = option_map redact_entry (find (fun kv => String.eqb (fst kv) key) o).
Proof.
  unfold redactSensitiveData.
  induction o as [|kv o IH]; simpl; [reflexivity|].
  destruct (String.eqb (fst kv) key); [reflexivity|exact IH].
Qed.

Lemma redacted_under_sensitive_key (path : list string) :
  forall (obj : record) (key : string) (v : value),
    at_path (path ++ [key]) (Obj (redactSensitiveData obj)) = Some v ->
    isSensitive key = true ->
    v = Str REDACTED.
Proof.
  induction path as [|k path IH]; intros obj key v Hat Hkey.
  - cbn [app at_path] in Hat. rewrite find_redacted in Hat.
    destruct (find (fun kv => String.eqb (fst kv) key) obj) as [kv|] eqn:Hfind;
      [|discriminate].
    apply find_some in Hfind as [_ Heq]. apply String.eqb_eq in Heq.
    cbn [option_map at_path redact_entry snd fst] in Hat.
    rewrite Heq, Hkey in Hat. congruence.
  - cbn [app at_path] in Hat. rewrite find_redacted in Hat.
    destruct (find (fun kv => String.eqb (fst kv) k) obj) as [kv|]; [|discriminate].
    cbn [option_map redact_entry snd fst] in Hat.
    destruct (isSensitive (fst kv)).
    + destruct path; discriminate.
    + destruct (snd kv) as [ | | b | q | s | items | o];
        try (destruct path; discriminate).
      change (redact_nested (Obj o)) with (Obj (redactSensitiveData o)) in Hat.
      eauto.
Qed.

(** X5. [redactSensitiveData] is idempotent, and in its result every
    value reached by a path of keys through nested records that ends in
    a key the function holds sensitive is the marker ['[REDACTED]']. *)
Theorem redactSensitiveData_hides_sensitive_values (obj : record) :
  redactSensitiveData (redactSensitiveData obj) = redactSensitiveData obj
  /\ (forall path key v,
        at_path (path ++ [key]) (Obj (redactSensitiveData obj)) = Some v ->
        isSensitive key = true ->
        v = Str REDACTED).
Proof.
  split.
  - pose proof (redact_nested_idempotent (Obj obj)) as H.
    simpl in H. injection H as H. exact H.
  - intros path key v. apply redacted_under_sensitive_key.
Qed.

Lemma redactSensitiveData_hides_sensitive_values_witness :
  at_path (["wallet"; "credentials"] ++ ["password"])
    (Obj (redactSensitiveData
            [("wallet", Obj [("credentials", Obj [("password", Str "hunter2")])])]))
  = Some (Str REDACTED).
Proof.
  destruct (at_path (["wallet"; "credentials"] ++ ["password"])
              (Obj (redactSensitiveData
                 [("wallet", Obj [("credentials", Obj [("password", Str "hunter2")])])])))
    as [v|] eqn:Hat; [|discriminate Hat].
  f_equal.
  apply (proj2 (redactSensitiveData_hides_sensitive_values
                  [("wallet", Obj [("credentials", Obj [("password", Str "hunter2")])])])
           ["wallet"; "credentials"] "password" v Hat).
  reflexivity.
Defined.

(** X6. A required variable is never returned falsy: when [getEnvVar]
    is called with [required] and returns, it returns the non-empty text
    of the variable, or, when no variable of that name is set, the
    property of that name that [process.env] inherits (for the key
    ['toString'], say).  A variable set to the empty string makes the
    call fail, and so does an unset one whose name is not inherited.
    When the variable is not required the call never fails and returns
    what the property read yields, which may be nothing. *)
Theorem getEnvVar_required_is_truthy
  (process_env : option EnvObject) (key : string) :
  (forall v, getEnvVar process_env key true = Ok v ->
     exists env,
       process_env = Some env
       /\ ((exists s, v = Some (Text s) /\ s <> EmptyString
                      /\ env_lookup (variables env) key = Some s)
           \/ (v = Some (Inherited key)
               /\ env_lookup (variables env) key = None
               /\ inherited env key = true)))
  /\ (forall env, process_env = Some env ->
      env_lookup (variables env) key = Some EmptyString ->
      getEnvVar process_env key true
      = Err ("Environment variable " ++ key ++ " is required but not set"))
  /\ (forall env, process_env = Some env ->
      env_lookup (variables env) key = None -> inherited env key = false ->
      getEnvVar process_env key true
      = Err ("Environment variable " ++ key ++ " is required but not set"))
  /\ getEnvVar process_env key false
     = Ok (match process_env with
           | Some env => env_get env key
           | None => None
           end).
Proof.
  split; [|split; [|split]].
  - intros v H. destruct process_env as [env|]; [|discriminate].
    exists env. split; [reflexivity|].
    cbn in H. unfold env_get in H.
    destruct (env_lookup (variables env) key) as [s|] eqn:Hown.
    + destruct s as [|c s]; [discriminate|].
      cbn in H. injection H as <-. left. eexists.
      split; [reflexivity|split; [discriminate|reflexivity]].
    + destruct (inherited env key) eqn:Hinh; [|discriminate].
      cbn in H. injection H as <-. right. repeat split.
  - intros env -> Hown. cbn. unfold env_get. rewrite Hown. reflexivity.
  - intros env -> Hown Hinh. cbn. unfold env_get. rewrite Hown, Hinh. reflexivity.
  - destruct process_env; reflexivity.
Qed.

Lemma getEnvVar_required_is_truthy_witness :
  getEnvVar (Some (node_env [("HCS_TOPIC_ID", "")])) "HCS_TOPIC_ID" true
  = Err "Environment variable HCS_TOPIC_ID is required but not set"
  /\ getEnvVar (Some (node_env [("HCS_TOPIC_ID", "0.0.4515")])) "OPERATOR_ID" true
     = Err "Environment variable OPERATOR_ID is required but not set"
  /\ exists env,
       Some (node_env []) = Some env
       /\ ((exists s, Some (Inherited "toString") = Some (Text s) /\ s <> EmptyString
                      /\ env_lookup (variables env) "toString" = Some s)
           \/ (Some (Inherited "toString") = Some (Inherited "toString")
               /\ env_lookup (variables env) "toString" = None
               /\ inherited env "toString" = true)).
Proof.
  destruct (getEnvVar_required_is_truthy (Some (node_env [("HCS_TOPIC_ID", "")]))
              "HCS_TOPIC_ID") as (_ & Hempty & _).
  destruct (getEnvVar_required_is_truthy
              (Some (node_env [("HCS_TOPIC_ID", "0.0.4515")])) "OPERATOR_ID")
    as (_ & _ & Hunset & _).
  destruct (getEnvVar_required_is_truthy (Some (node_env [])) "toString")
    as (Hreturned & _).
  split; [|split].
  - exact (Hempty _ eq_refl eq_refl).
  - exact (Hunset _ eq_refl eq_refl eq_refl).
  - exact (Hreturned _ eq_refl).
Defined.

End SecurityMoreFacts.

(* ================================================================== *)
(** * More properties of the rate limiter *)

Module RateLimiterMoreFacts.
Import RateLimiter RateLimiterMore.

Lemma acquire_within_window :
  forall (fuel : nat) (start now : Z) (rl : t) (tf : Z) (rl' : t),
    Forall (fun time => time <= start) (requests rl) ->
    start <= now ->
    acquire exact_timer fuel now rl = Some (tf, rl') ->
    tf <= Z.max now (start + windowMs rl).
Proof.
  induction fuel as [|fuel IH]; intros start now rl tf rl' Hpast Hnow Hrun;
    [discriminate|].
  cbn [acquire] in Hrun. unfold acquire_pass in Hrun.
  set (kept := List.filter (in_window rl now) (requests rl)) in *.
  destruct (Z.of_nat (List.length kept) >=? maxRequests rl).
  - assert (Hkept : Forall (fun time => time <= start) kept).
    { apply Forall_forall. intros x Hx. apply filter_In in Hx as [Hx _].
      rewrite Forall_forall in Hpast. auto. }
    destruct kept as [|oldest rest] eqn:Ek.
    + cbn [hd_error option_map wake] in Hrun.
      apply IH with (start := start) in Hrun; cbn [requests with_requests] in *;
        [|constructor|unfold exact_timer; lia].
      cbn [windowMs with_requests] in Hrun. unfold exact_timer in Hrun. lia.
    + cbn [hd_error option_map wake] in Hrun.
      assert (Hin : in_window rl now oldest = true).
      { assert (Hmem : In oldest (List.filter (in_window rl now) (requests rl))).
        { fold kept. rewrite Ek. now left. }
        apply filter_In in Hmem as [_ H]. exact H. }
      unfold in_window in Hin. apply Z.ltb_lt in Hin.
      inversion Hkept as [|? ? Hold _]; subst.
      apply IH with (start := start) in Hrun; cbn [requests with_requests] in *;
        [|exact Hkept|unfold exact_timer; lia].
      cbn [windowMs with_requests] in Hrun. unfold exact_timer in Hrun. lia.
  - injection Hrun as <- _. lia.
Qed.

(** X7. With timers that fire on time, [acquire] on a limiter that
    grants at least one request per window, and whose recorded grants are
    not in the future, always returns: no earlier than it was called, no
    later than one window after, with its grant recorded last and the
    window holding at most [maxRequests] grants. *)
Theorem acquire_returns_within_one_window (fuel : nat) (now : Z) (rl : t)
  (Hmax : 1 <= maxRequests rl) (Hwindow : 0 <= windowMs rl)
  (Hpast : Forall (fun time => time <= now) (requests rl))
  (Hfuel : (List.length (requests rl) < fuel)%nat) :
  exists tf kept,
    acquire exact_timer fuel now rl = Some (tf, with_requests rl (kept ++ [tf]))
    /\ now <= tf <= now + windowMs rl
    /\ Z.of_nat (List.length (kept ++ [tf])) <= maxRequests rl.
Proof.
  destruct (@RateLimiterFacts.acquire_returns exact_timer
              RateLimiterFacts.exact_timer_sound fuel now rl Hmax)
    as (tf & Hrun & Hle & Hroom).
  - pose proof (RateLimiterFacts.filter_shorter (in_window rl now) (requests rl)). lia.
  - exists tf, (List.filter (in_window rl tf) (requests rl)).
    split; [exact Hrun|split].
    + split; [exact Hle|].
      pose proof (acquire_within_window fuel (start := now) rl Hpast (Z.le_refl now) Hrun).
      lia.
    + rewrite length_app. simpl. lia.
Qed.

Lemma acquire_returns_within_one_window_witness :
  exists tf kept,
    acquire exact_timer 4 1000 (mk [100; 500; 900] 2 1000)
    = Some (tf, with_requests (mk [100; 500; 900] 2 1000) (kept ++ [tf]))
    /\ 1000 <= tf <= 1000 + 1000
    /\ Z.of_nat (List.length (kept ++ [tf])) <= 2.
Proof.
  apply (@acquire_returns_within_one_window 4 1000 (mk [100; 500; 900] 2 1000));
    simpl; try lia.
  repeat constructor; lia.
Defined.

(** X8. A limiter created with [maxRequests] of 0 or less never grants:
    whatever the timer and however long it is given, [acquire] does not
    return. *)
Theorem acquire_never_returns_without_capacity
  (timer : Z -> Z -> Z) (fuel : nat) (now : Z) (rl : t)
  (Hmax : maxRequests rl <= 0) :
  acquire timer fuel now rl = None.
Proof.
  revert now rl Hmax. induction fuel as [|fuel IH]; intros now rl Hmax;
    [reflexivity|].
  cbn [acquire]. rewrite RateLimiterFacts.acquire_pass_suspended by lia.
  apply IH. exact Hmax.
Qed.

Lemma acquire_never_returns_without_capacity_witness :
  acquire exact_timer 1000 0 (create 0 1000) = None.
Proof.
  apply acquire_never_returns_without_capacity. simpl. lia.
Defined.

Lemma no_wait_below_capacity (timer : Z -> Z -> Z) (fuel : nat) (gaps : list Z) :
  forall (now : Z) (rl : t),
    Z.of_nat (List.length (requests rl) + List.length gaps) <= maxRequests rl ->
    exists rl',
      acquire_times timer (S fuel) gaps now rl = Some (arrivals now gaps, rl')
      /\ acquire_all timer (S fuel) gaps now rl
         = Some (fold_left Z.add gaps now, rl').
Proof.
  induction gaps as [|g gaps IH]; intros now rl Hroom.
  - exists rl. split; reflexivity.
  - cbn [acquire_times acquire_all arrivals acquire fold_left].
    rewrite RateLimiterFacts.acquire_pass_granted.
    + destruct (IH (now + g)
                  (with_requests rl
                     (List.filter (in_window rl (now + g)) (requests rl) ++ [now + g])))
        as (rl' & Htimes & Hall).
      * cbn [requests maxRequests with_requests]. rewrite length_app.
        pose proof (RateLimiterFacts.filter_shorter (in_window rl (now + g)) (requests rl)).
        simpl in *. lia.
      * exists rl'. rewrite Htimes, Hall. split; reflexivity.
    + pose proof (RateLimiterFacts.filter_shorter (in_window rl (now + g)) (requests rl)).
      simpl in Hroom. lia.
Qed.

(** X9. On a fresh limiter the first [maxRequests] sequential calls
    never wait: each is granted at the clock reading at which it arrives,
    whatever the timer and the window. *)
Theorem first_calls_are_immediate (timer : Z -> Z -> Z) (fuel : nat)
  (maxR window t0 : Z) (gaps : list Z)
  (Hcount : Z.of_nat (List.length gaps) <= maxR) :
  exists rl',
    acquire_times timer (S fuel) gaps t0 (create maxR window)
    = Some (arrivals t0 gaps, rl')
    /\ acquire_all timer (S fuel) gaps t0 (create maxR window)
       = Some (fold_left Z.add gaps t0, rl').
Proof. apply no_wait_below_capacity. simpl. lia. Qed.

Lemma first_calls_are_immediate_witness :
  exists rl',
    acquire_times exact_timer 1 [0; 3; 0; 2; 5] 100 (create 5 1000)
    = Some (arrivals 100 [0; 3; 0; 2; 5], rl')
    /\ acquire_all exact_timer 1 [0; 3; 0; 2; 5] 100 (create 5 1000)
       = Some (fold_left Z.add [0; 3; 0; 2; 5] 100, rl').
Proof.
  apply (first_calls_are_immediate exact_timer 0 (maxR := 5) 1000 100
           [0; 3; 0; 2; 5]).
  simpl. lia.
Defined.

Lemma tracks_one_more (timer : Z -> Z -> Z) (Htimer : timer_sound timer)
  (fuel : nat) (past : list Z) (now g : Z) (rl : t) :
  1 <= maxRequests rl -> 0 < windowMs rl ->
  (Z.to_nat (maxRequests rl) < fuel)%nat -> 0 <= g ->
  tracks past now rl ->
  exists tf rl',
    acquire timer fuel (now + g) rl = Some (tf, rl')
    /\ maxRequests rl' = maxRequests rl /\ windowMs rl' = windowMs rl
    /\ tracks (past ++ [tf]) tf rl'
    /\ Z.of_nat (List.length (List.filter (in_window rl tf) (past ++ [tf])))
       <= maxRequests rl.
Proof.
  intros Hmax Hwin Hfuel Hg (Hlen & seen & Hseen & Hreq).
  destruct (@RateLimiterFacts.acquire_returns timer Htimer fuel (now + g) rl Hmax)
    as (tf & Hrun & Hle & Hroom).
  - pose proof (RateLimiterFacts.filter_shorter (in_window rl (now + g)) (requests rl)).
    lia.
  - assert (Hself : in_window rl tf tf = true).
    { unfold in_window. apply Z.ltb_lt. lia. }
    assert (Hfilter : List.filter (in_window rl tf) (past ++ [tf])
                      = (List.filter (in_window rl tf) (requests rl) ++ [tf])%list).
    { rewrite filter_app. cbn [List.filter]. rewrite Hself.
      rewrite Hreq. rewrite RateLimiterFacts.prune_later by lia. reflexivity. }
    exists tf, (with_requests rl (List.filter (in_window rl tf) (requests rl) ++ [tf])).
    split; [exact Hrun|]. split; [reflexivity|]. split; [reflexivity|]. split.
    + split.
      * cbn [requests maxRequests with_requests]. rewrite length_app. simpl. lia.
      * exists tf. split; [lia|].
        cbn [requests with_requests]. rewrite RateLimiterFacts.in_window_with_requests.
        symmetry. exact Hfilter.
    + rewrite Hfilter, length_app. simpl. lia.
Qed.

Lemma window_never_overfull (timer : Z -> Z -> Z) (Htimer : timer_sound timer)
  (fuel : nat) (maxR window : Z) (gaps : list Z) :
  1 <= maxR -> 0 < window -> (Z.to_nat maxR < fuel)%nat ->
  Forall (fun g => 0 <= g) gaps ->
  forall (past : list Z) (now : Z) (rl : t),
    maxRequests rl = maxR -> windowMs rl = window ->
    tracks past now rl ->
    exists times rl',
      acquire_times timer fuel gaps now rl = Some (times, rl')
      /\ List.length times = List.length gaps
      /\ forall pre t post,
           times = (pre ++ t :: post)%list ->
           Z.of_nat (List.length
                       (List.filter (fun u => t - u <? window) (past ++ pre ++ [t])))
           <= maxR.
Proof.
  intros Hmax Hwin Hfuel Hgaps.
  induction Hgaps as [|g gaps Hg _ IH]; intros past now rl HmaxR Hwindow Htracks.
  - exists [], rl. repeat split. intros [|x pre] t post H; discriminate.
  - destruct (@tracks_one_more timer Htimer fuel past now g rl)
      as (tf & rl1 & Hrun & Hm1 & Hw1 & Htracks1 & Hcount); try lia; try assumption.
    destruct (IH (past ++ [tf])%list tf rl1) as (times & rl' & Hrest & Hlen & Hall);
      try congruence.
    exists (tf :: times), rl'. cbn [acquire_times]. rewrite Hrun, Hrest.
    split; [reflexivity|]. split; [simpl; congruence|].
    intros [|x pre] t post Hsplit.
    + injection Hsplit as <- _. cbn [app].
      unfold in_window in Hcount. rewrite Hwindow, HmaxR in Hcount. exact Hcount.
    + injection Hsplit as <- Hsplit.
      specialize (Hall pre t post Hsplit).
      rewrite <- app_assoc in Hall. exact Hall.
Qed.

(** X10. The sliding-window guarantee.  Sequential callers of a fresh
    limiter with [maxRequests >= 1] and a positive window are all
    granted, and at the moment of any grant at most [maxRequests] of the
    grants made so far, that one included, are less than [windowMs]
    old. *)
Theorem grants_respect_the_window (timer : Z -> Z -> Z) (fuel : nat)
  (maxR window t0 : Z) (gaps : list Z)
  (Htimer : timer_sound timer) (Hmax : 1 <= maxR) (Hwin : 0 < window)
  (Hfuel : (Z.to_nat maxR < fuel)%nat)
  (Hgaps : Forall (fun g => 0 <= g) gaps) :
  exists times rl',
    acquire_times timer fuel gaps t0 (create maxR window) = Some (times, rl')
    /\ List.length times = List.length gaps
    /\ forall pre t post,
         times = (pre ++ t :: post)%list ->
         Z.of_nat (List.length (List.filter (fun u => t - u <? window) (pre ++ [t])))
         <= maxR.
Proof.
  apply (@window_never_overfull timer Htimer fuel maxR window gaps Hmax Hwin Hfuel
           Hgaps [] t0 (create maxR window)); try reflexivity.
  split; [simpl; lia|]. exists t0. split; [lia|reflexivity].
Qed.

Lemma grants_respect_the_window_witness :
  exists times rl',
    acquire_times exact_timer 3 [0; 10; 10; 10; 10] 0 (create 2 100) = Some (times, rl')
    /\ List.length times = 5%nat
    /\ forall pre t post,
         times = (pre ++ t :: post)%list ->
         Z.of_nat (List.length (List.filter (fun u => t - u <? 100) (pre ++ [t]))) <= 2.
Proof.
  apply (@grants_respect_the_window exact_timer 3 2 100 0 [0; 10; 10; 10; 10]).
  - intros now d. unfold exact_timer. lia.
  - lia.
  - lia.
  - simpl. lia.
  - repeat constructor; lia.
Defined.

End RateLimiterMoreFacts.

(* ================================================================== *)
(** * More properties of the retry wrapper *)

Module ClientMoreFacts.
Import Client ClientMore.

Lemma settle_success (cfg : RequestConfig) (r : Response) :
  successful (Answered r) = true -> settle cfg (Answered r) = inl r.
Proof. simpl. intros H. now rewrite H. Qed.

Lemma settle_transient (opts : RetryOptions) (cfg : RequestConfig) (o : Outcome) :
  transient o = true ->
  exists e,
    settle cfg o = inr e /\ config e = Some cfg /\ response e = answer o
    /\ shouldRetry opts (IsAxiosError e)
       = (nullish (retryCount cfg) 0 <? nullish (maxRetries opts) 0).
Proof.
  intros Ht. destruct o as [r|c].
  - simpl in Ht.
    assert (H2xx : (status r >=? 200) && (status r <? 300) = false).
    { destruct (status r >=? 200) eqn:H1; [|reflexivity].
      destruct (status r <? 300) eqn:H2; [|reflexivity].
      apply Z.ltb_lt in H2. exfalso.
      apply orb_true_iff in Ht as [Ht|Ht].
      - apply andb_true_iff in Ht as [Ht _]. apply Z.geb_le in Ht. lia.
      - apply Z.eqb_eq in Ht. lia. }
    eexists. cbn [settle]. rewrite H2xx. split; [reflexivity|].
    split; [reflexivity|]. split; [reflexivity|].
    unfold shouldRetry, has_response, code_is, status_of. cbn [config response code].
    destruct (Z.geb_spec (nullish (retryCount cfg) 0) (nullish (maxRetries opts) 0));
      destruct (Z.ltb_spec (nullish (retryCount cfg) 0) (nullish (maxRetries opts) 0));
      try lia; try reflexivity.
  - eexists. cbn [settle]. split; [reflexivity|]. split; [reflexivity|].
    split; [reflexivity|].
    unfold shouldRetry, has_response. cbn [config response].
    destruct (Z.geb_spec (nullish (retryCount cfg) 0) (nullish (maxRetries opts) 0));
      destruct (Z.ltb_spec (nullish (retryCount cfg) 0) (nullish (maxRetries opts) 0));
      try lia; reflexivity.
Qed.

Lemma retried_counter (opts : RetryOptions) (cfg : RequestConfig) (e : AxiosError) :
  config e = Some cfg ->
  0 <= nullish (retryCount cfg) 0 ->
  nullish (retryCount (fst (retryRequest opts e))) 0 = nullish (retryCount cfg) 0 + 1.
Proof.
  intros Hcfg Hc. unfold retryRequest. rewrite Hcfg. cbn.
  now rewrite ClientFacts.or_else_zero.
Qed.

Lemma first_success_wins (opts : RetryOptions) (transport : nat -> Outcome)
  (r : Response) (n : nat) :
  forall (fuel k : nat) (cfg : RequestConfig),
    0 <= nullish (retryCount cfg) 0 ->
    nullish (retryCount cfg) 0 + Z.of_nat n <= nullish (maxRetries opts) 0 ->
    (n < fuel)%nat ->
    (forall j, (j < n)%nat -> transient (transport (k + j)%nat) = true) ->
    transport (k + n)%nat = Answered r -> successful (Answered r) = true ->
    exists delays,
      request opts transport fuel k cfg = Some (Resolved r, delays)
      /\ List.length delays = n.
Proof.
  induction n as [|n IH]; intros fuel k cfg Hc Hbudget Hfuel Hfail Hok H2xx.
  - destruct fuel as [|fuel]; [lia|]. exists [].
    cbn [request]. rewrite Nat.add_0_r in Hok. rewrite Hok.
    rewrite (settle_success cfg r H2xx).
    split; reflexivity.
  - destruct fuel as [|fuel]; [lia|].
    destruct (settle_transient opts cfg (transport k)) as (e & Hsettle & Hcfg & _ & Hretry).
    { rewrite <- (Nat.add_0_r k). apply Hfail. lia. }
    rewrite (ClientFacts.request_attempt opts transport fuel k cfg Hsettle).
    rewrite Hretry.
    assert ((nullish (retryCount cfg) 0 <? nullish (maxRetries opts) 0) = true) as ->
      by (apply Z.ltb_lt; lia).
    destruct (IH fuel (S k) (fst (retryRequest opts e))) as (delays & Hrun & Hlen).
    + rewrite (retried_counter opts e Hcfg Hc). lia.
    + rewrite (retried_counter opts e Hcfg Hc). lia.
    + lia.
    + intros j Hj. replace (S k + j)%nat with (k + S j)%nat by lia. apply Hfail. lia.
    + replace (S k + n)%nat with (k + S n)%nat by lia. exact Hok.
    + exact H2xx.
    + rewrite Hrun. eexists. split; [reflexivity|]. simpl. lia.
Qed.

(** X11. The first successful answer within the retry budget is the
    result of the call: when the first [n] attempts fail transiently (no
    answer, 5xx or 429), [n] does not exceed [maxRetries] and attempt
    [n] is answered 2xx, the call resolves with that answer's payload
    after exactly [n] retries. *)
Theorem call_resolves_with_first_success (opts : RetryOptions)
  (transport : nat -> Outcome) (fuel n : nat) (meth path : string) (r : Response)
  (Hbudget : Z.of_nat n <= nullish (maxRetries opts) 0)
  (Hfuel : (n < fuel)%nat)
  (Hfail : forall j, (j < n)%nat -> transient (transport j) = true)
  (Hok : transport n = Answered r) (H2xx : successful (Answered r) = true) :
  exists delays,
    call opts transport fuel meth path = Some (inl (data r), delays)
    /\ List.length delays = n.
Proof.
  destruct (@first_success_wins opts transport r n fuel 0%nat
              {| method := Some meth; url := Some path; retryCount := None |})
    as (delays & Hrun & Hlen); try assumption; cbn [nullish retryCount]; try lia.
  exists delays. unfold call. rewrite Hrun. auto.
Qed.

Lemma call_resolves_with_first_success_witness :
  exists delays,
    call (constructor_retryOptions None)
         (fun k => match k with
                   | 0%nat => Unanswered (Some "ECONNABORTED")
                   | 1%nat => Answered {| status := 429; data := JS.Null |}
                   | _ => Answered {| status := 201; data := JS.Str "created" |}
                   end)
         5 "post" "/hedera/nft/mint"
    = Some (inl (JS.Str "created"), delays)
    /\ List.length delays = 2%nat.
Proof.
  apply (@call_resolves_with_first_success (constructor_retryOptions None) _ 5 2
           "post" "/hedera/nft/mint" {| status := 201; data := JS.Str "created" |}).
  - simpl. lia.
  - lia.
  - intros [|[|j]] Hj; [reflexivity|reflexivity|lia].
  - reflexivity.
  - reflexivity.
Defined.

Lemma exhausted (opts : RetryOptions) (transport : nat -> Outcome)
  (Hfail : forall j, transient (transport j) = true) :
  forall (fuel k : nat) (cfg : RequestConfig),
    0 <= nullish (retryCount cfg) 0 ->
    (Z.to_nat (nullish (maxRetries opts) 0 - nullish (retryCount cfg) 0) < fuel)%nat ->
    exists e delays,
      request opts transport fuel k cfg = Some (Rejected e, delays)
      /\ List.length delays
         = Z.to_nat (nullish (maxRetries opts) 0 - nullish (retryCount cfg) 0)
      /\ response e
         = answer (transport
                     (k + Z.to_nat (nullish (maxRetries opts) 0
                                    - nullish (retryCount cfg) 0))%nat).
Proof.
  induction fuel as [|fuel IH]; intros k cfg Hc Hfuel; [lia|].
  destruct (settle_transient opts cfg (transport k) (Hfail k))
    as (e & Hsettle & Hcfg & Hresp & Hretry).
  rewrite (ClientFacts.request_attempt opts transport fuel k cfg Hsettle).
  rewrite Hretry.
  destruct (Z.ltb_spec (nullish (retryCount cfg) 0) (nullish (maxRetries opts) 0))
    as [Hlt|Hge].
  - destruct (IH (S k) (fst (retryRequest opts e))) as (e' & delays & Hrun & Hlen & Hlast).
    + rewrite (retried_counter opts e Hcfg Hc). lia.
    + rewrite (retried_counter opts e Hcfg Hc). lia.
    + rewrite (retried_counter opts e Hcfg Hc) in Hlen, Hlast.
      rewrite Hrun. exists e'. eexists. split; [reflexivity|]. split.
      * simpl. rewrite Hlen. lia.
      * rewrite Hlast. f_equal. f_equal. lia.
  - exists e, []. split; [reflexivity|].
    replace (Z.to_nat (nullish (maxRetries opts) 0 - nullish (retryCount cfg) 0))
      with 0%nat by lia.
    split; [reflexivity|]. now rewrite Nat.add_0_r.
Qed.

(** X12. When every attempt fails transiently, the call gives up after
    exactly [maxRetries] retries, having made [maxRetries + 1] attempts,
    and rejects with the error of the last attempt. *)
Theorem call_gives_up_after_maxRetries (opts : RetryOptions)
  (transport : nat -> Outcome) (fuel : nat) (meth path : string)
  (Hfail : forall j, transient (transport j) = true)
  (Hfuel : (Z.to_nat (nullish (maxRetries opts) 0) < fuel)%nat) :
  exists e delays,
    call opts transport fuel meth path = Some (inr e, delays)
    /\ List.length delays = Z.to_nat (nullish (maxRetries opts) 0)
    /\ response e = answer (transport (Z.to_nat (nullish (maxRetries opts) 0))).
Proof.
  destruct (@exhausted opts transport Hfail fuel 0%nat
              {| method := Some meth; url := Some path; retryCount := None |})
    as (e & delays & Hrun & Hlen & Hlast); cbn [nullish retryCount] in *;
    try rewrite Z.sub_0_r in *; try lia.
  exists e, delays. unfold call. rewrite Hrun. auto.
Qed.

Lemma call_gives_up_after_maxRetries_witness :
  exists e delays,
    call (constructor_retryOptions None) (always 503) 4 "get" "/hedera/gateway/health"
    = Some (inr e, delays)
    /\ List.length delays = 3%nat
    /\ response e = Some {| status := 503; data := JS.Null |}.
Proof.
  apply (@call_gives_up_after_maxRetries (constructor_retryOptions None) (always 503)
           4 "get" "/hedera/gateway/health").
  - intros j. reflexivity.
  - simpl. lia.
Defined.

(** X13. An answer that is neither a success nor transient (any status
    outside 2xx, 5xx and 429: the other 4xx, 3xx, 1xx) is rejected at
    once: no delay is slept, and the error carries the answer and the
    request config. *)
Theorem other_statuses_propagate_at_once (opts : RetryOptions)
  (transport : nat -> Outcome) (fuel k : nat) (cfg : RequestConfig) (r : Response)
  (Hanswer : transport k = Answered r)
  (Hfail : successful (Answered r) = false)
  (Hfinal : transient (Answered r) = false) :
  exists e,
    request opts transport (S fuel) k cfg = Some (Rejected e, [])
    /\ response e = Some r /\ config e = Some cfg.
Proof.
  simpl in Hfail, Hfinal.
  exists {| config := Some cfg;
            code := if (status r >=? 400) && (status r <? 500)
                    then Some "ERR_BAD_REQUEST"
                    else if (status r >=? 500) && (status r <? 600)
                         then Some "ERR_BAD_RESPONSE" else None;
            response := Some r |}.
  split; [|split; reflexivity].
  cbn [request]. rewrite Hanswer. cbn [settle]. rewrite Hfail.
  unfold shouldRetry, has_response, code_is, status_of. cbn [config response code negb].
  destruct (nullish (retryCount cfg) 0 >=? nullish (maxRetries opts) 0);
    [reflexivity|].
  rewrite <- orb_assoc, Hfinal.
  destruct ((status r >=? 400) && (status r <? 500)); [reflexivity|].
  destruct ((status r >=? 500) && (status r <? 600)); reflexivity.
Qed.

Lemma other_statuses_propagate_at_once_witness :
  exists e,
    request (constructor_retryOptions None) (always 401) 1 0
      {| method := Some "get"; url := Some "/hedera/tokens/0.0.9"; retryCount := None |}
    = Some (Rejected e, [])
    /\ response e = Some {| status := 401; data := JS.Null |}
    /\ config e = Some {| method := Some "get"; url := Some "/hedera/tokens/0.0.9";
                          retryCount := None |}.
Proof.
  apply (@other_statuses_propagate_at_once (constructor_retryOptions None)
           (always 401) 0 0 _ {| status := 401; data := JS.Null |});
    reflexivity.
Defined.

(** X14. Retrying is off when the configured [maxRetries] is [undefined],
    0 or negative: the call makes one attempt and returns what it
    settles with.  Passing the key [maxRetries] with the value
    [undefined] does this, whereas leaving the key out keeps the default
    of 3. *)
Theorem no_retry_without_budget (given : RetryOptionsInput)
  (transport : nat -> Outcome) (fuel : nat) (meth path : string)
  (Hoff : given_maxRetries given = Some None
          \/ exists z, given_maxRetries given = Some (Some z) /\ z <= 0) :
  call (constructor_retryOptions (Some given)) transport (S fuel) meth path
  = Some (match settle {| method := Some meth; url := Some path; retryCount := None |}
                  (transport 0%nat) with
          | inl r => inl (data r)
          | inr e => inr e
          end, [])
  /\ maxRetries (constructor_retryOptions (Some no_overrides)) = Some 3.
Proof.
  split; [|reflexivity].
  unfold call. cbn [request].
  destruct (settle _ (transport 0%nat)) as [r|e] eqn:Hsettle; [reflexivity|].
  assert (Hno : shouldRetry (constructor_retryOptions (Some given)) (IsAxiosError e)
                = false).
  { unfold shouldRetry. rewrite (ClientFacts.settle_config _ _ Hsettle).
    cbn [retryCount nullish constructor_retryOptions maxRetries].
    destruct Hoff as [->|(z & -> & Hz)]; cbn [spread nullish].
    - reflexivity.
    - destruct (Z.geb_spec 0 z); [reflexivity|lia]. }
  rewrite Hno. reflexivity.
Qed.

Lemma no_retry_without_budget_witness :
  call (constructor_retryOptions
          (Some {| given_maxRetries := Some None; given_baseDelay := None;
                   given_maxDelay := None; given_exponentialBase := None |}))
       (always 503) 1 "get" "/hedera/gateway/metrics"
  = Some (inr {| config := Some {| method := Some "get";
                                   url := Some "/hedera/gateway/metrics";
                                   retryCount := None |};
                 code := Some "ERR_BAD_RESPONSE";
                 response := Some {| status := 503; data := JS.Null |} |}, [])
  /\ maxRetries (constructor_retryOptions (Some no_overrides)) = Some 3.
Proof.
  exact (@no_retry_without_budget
           {| given_maxRetries := Some None; given_baseDelay := None;
              given_maxDelay := None; given_exponentialBase := None |}
           (always 503) 0 "get" "/hedera/gateway/metrics" (or_introl eq_refl)).
Defined.

Lemma request_logged_erases (env : ProcessEnv) (opts : RetryOptions)
  (transport : nat -> Outcome) :
  forall (fuel k : nat) (cfg : RequestConfig),
    option_map (fun out => fst out) (request_logged env opts transport fuel k cfg)
    = request opts transport fuel k cfg.
Proof.
  induction fuel as [|fuel IH]; intros k cfg; [reflexivity|].
  cbn [request request_logged].
  destruct (settle cfg (transport k)) as [r|e]; [reflexivity|].
  destruct (shouldRetry opts (IsAxiosError e)); [|reflexivity].
  destruct (retryRequest opts e) as [cfg' delay].
  rewrite <- (IH (S k) cfg').
  destruct (request_logged env opts transport fuel (S k) cfg') as [[[res delays] lines]|];
    reflexivity.
Qed.

Lemma request_logged_silent (env : ProcessEnv) (opts : RetryOptions)
  (transport : nat -> Outcome) (Hquiet : debug env = false) :
  forall (fuel k : nat) (cfg : RequestConfig) out,
    request_logged env opts transport fuel k cfg = Some out -> snd out = [].
Proof.
  induction fuel as [|fuel IH]; intros k cfg out Hrun; [discriminate|].
  cbn [request_logged] in Hrun. unfold log_request, log_retry in Hrun.
  rewrite Hquiet in Hrun.
  destruct (settle cfg (transport k)) as [r|e]; [now injection Hrun as <-|].
  destruct (shouldRetry opts (IsAxiosError e)); [|now injection Hrun as <-].
  destruct (retryRequest opts e) as [cfg' delay].
  destruct (request_logged env opts transport fuel (S k) cfg') as [[[res delays] lines]|]
    eqn:Hrest; [|discriminate].
  injection Hrun as <-. apply IH in Hrest. simpl in *. exact Hrest.
Qed.

Lemma request_logged_counts (env : ProcessEnv) (opts : RetryOptions)
  (transport : nat -> Outcome) (Hloud : debug env = true) :
  forall (fuel k : nat) (cfg : RequestConfig) res delays lines,
    request_logged env opts transport fuel k cfg = Some (res, delays, lines) ->
    List.length lines = (2 * List.length delays + 1)%nat.
Proof.
  induction fuel as [|fuel IH]; intros k cfg res delays lines Hrun; [discriminate|].
  cbn [request_logged] in Hrun. unfold log_request, log_retry in Hrun.
  rewrite Hloud in Hrun.
  destruct (settle cfg (transport k)) as [r|e];
    [injection Hrun as <- <- <-; reflexivity|].
  destruct (shouldRetry opts (IsAxiosError e));
    [|injection Hrun as <- <- <-; reflexivity].
  destruct (retryRequest opts e) as [cfg' delay].
  destruct (request_logged env opts transport fuel (S k) cfg') as [[[res' delays'] lines']|]
    eqn:Hrest; [|discriminate].
  injection Hrun as <- <- <-. apply IH in Hrest. simpl. rewrite Hrest. lia.
Qed.

(** X15. Diagnostic logging never changes what a request does, and it is
    off unless [NODE_ENV] is ['development'] or [SDK_DEBUG] is ['true']:
    in every other environment a request prints nothing, however many
    times it is retried.  When logging is on, one line is printed per
    attempt and one per retry. *)
Theorem logging_is_gated_and_harmless (env : ProcessEnv) (opts : RetryOptions)
  (transport : nat -> Outcome) (fuel k : nat) (cfg : RequestConfig) :
  option_map (fun out => fst out) (request_logged env opts transport fuel k cfg)
  = request opts transport fuel k cfg
  /\ (var_is (NODE_ENV env) "development" = false ->
      var_is (SDK_DEBUG env) "true" = false ->
      forall out, request_logged env opts transport fuel k cfg = Some out ->
                  snd out = [])
  /\ (debug env = true ->
      forall res delays lines,
        request_logged env opts transport fuel k cfg = Some (res, delays, lines) ->
        List.length lines = (2 * List.length delays + 1)%nat).
Proof.
  split; [apply request_logged_erases|split].
  - intros H1 H2. apply request_logged_silent. unfold debug. now rewrite H1, H2.
  - intros Hloud. now apply request_logged_counts.
Qed.

Lemma logging_is_gated_and_harmless_witness :
  (forall out,
     request_logged {| NODE_ENV := Some "production"; SDK_DEBUG := None |}
       (constructor_retryOptions None) (always 503) 4 0
       {| method := Some "post"; url := Some "/hedera/gateway/hcs/publish";
          retryCount := None |} = Some out ->
     snd out = [])
  /\ (forall res delays lines,
        request_logged {| NODE_ENV := None; SDK_DEBUG := Some "true" |}
          (constructor_retryOptions None) (always 503) 4 0
          {| method := Some "post"; url := Some "/hedera/gateway/hcs/publish";
             retryCount := None |} = Some (res, delays, lines) ->
        List.length lines = (2 * List.length delays + 1)%nat).
Proof.
  split.
  - apply (logging_is_gated_and_harmless
             {| NODE_ENV := Some "production"; SDK_DEBUG := None |}); reflexivity.
  - apply (logging_is_gated_and_harmless
             {| NODE_ENV := None; SDK_DEBUG := Some "true" |}); reflexivity.
Defined.

Lemma retryDelay_monotone (opts : RetryOptions) (i j : Z) :
  0 <= nullish (baseDelay opts) 1000 -> 1 <= nullish (exponentialBase opts) 2 ->
  1 <= i <= j ->
  retryDelay opts i <= retryDelay opts j.
Proof.
  intros Hbase Hexp Hij.
  rewrite !ClientFacts.retryDelay_formula by lia.
  apply Z.min_le_compat_r. apply Z.mul_le_mono_nonneg_l; [exact Hbase|].
  apply Z.pow_le_mono_r; lia.
Qed.

(** X16. Back-off never shrinks: with a non-negative [baseDelay] and an
    [exponentialBase] of at least 1, each delay a call sleeps is at least
    as long as the one before it, and none exceeds [maxDelay]. *)
Theorem backoff_never_shrinks (opts : RetryOptions) (transport : nat -> Outcome)
  (fuel : nat) (meth path : string)
  (Hbase : 0 <= nullish (baseDelay opts) 1000)
  (Hexp : 1 <= nullish (exponentialBase opts) 2)
  (Hfuel : (Z.to_nat (nullish (maxRetries opts) 0) < fuel)%nat) :
  exists res delays,
    call opts transport fuel meth path = Some (res, delays)
    /\ (forall i j, (i <= j < List.length delays)%nat ->
          nth i delays 0 <= nth j delays 0)
    /\ Forall (fun d => d <= nullish (maxDelay opts) 30000) delays.
Proof.
  destruct (@ClientFacts.request_settles opts transport fuel 0%nat
              {| method := Some meth; url := Some path; retryCount := None |})
    as (res & delays & Hrun & _ & Hnth).
  - simpl. lia.
  - cbn [nullish retryCount]. rewrite Z.sub_0_r. exact Hfuel.
  - cbn [nullish retryCount] in Hnth.
    assert (Hshape : exists out, call opts transport fuel meth path = Some (out, delays)).
    { unfold call. rewrite Hrun. destruct res; eauto. }
    destruct Hshape as (out & Hcall). exists out, delays.
    split; [exact Hcall|split].
    + intros i j Hij. rewrite !Hnth by lia.
      apply retryDelay_monotone; try assumption. lia.
    + apply Forall_forall. intros d Hd.
      apply (In_nth _ _ 0) in Hd as (j & Hj & <-).
      rewrite Hnth by exact Hj. unfold retryDelay. apply Z.le_min_r.
Qed.

Lemma backoff_never_shrinks_witness :
  exists res delays,
    call {| maxRetries := Some 7; baseDelay := Some 500; maxDelay := Some 5000;
            exponentialBase := Some 3 |} (always 502) 8 "get" "/hedera/events"
    = Some (res, delays)
    /\ (forall i j, (i <= j < List.length delays)%nat ->
          nth i delays 0 <= nth j delays 0)
    /\ Forall (fun d => d <= 5000) delays.
Proof.
  apply (@backoff_never_shrinks
           {| maxRetries := Some 7; baseDelay := Some 500; maxDelay := Some 5000;
              exponentialBase := Some 3 |} (always 502) 8 "get" "/hedera/events");
    simpl; lia.
Defined.

End ClientMoreFacts.

(* ================================================================== *)
(** * Properties of the wallet manager with the adapters of the package *)

Module WalletMoreFacts.
Import JS Wallet WalletMore.

Lemma hashconnect_connect_env (e : Env) (r : result WalletConnectionInfo) (e' : Env) :
  HashConnect.connect e = (r, e') ->
  e' = match r with
       | Ok info => if has_window e then setItem e (stringify_info info) else e
       | Err _ => e
       end.
Proof.
  unfold HashConnect.connect.
  destruct (HashConnect.waitForHashPack e) as [hp|];
    [|intros H; injection H as <- <-; reflexivity].
  destruct (HashConnect.probeConnectMethod hp) as [name|];
    [|intros H; injection H as <- <-; reflexivity].
  destruct (HashConnect.lookup name hp) as [[[[res|]|msg]|b]|];
    try (intros H; injection H as <- <-; reflexivity).
  destruct (accountIds res) as [[|first rest]|];
    intros H; injection H as <- <-; reflexivity.
Qed.

Lemma walletconnect_connect_env (st : WalletConnect.state) (e : Env)
  (r : result WalletConnectionInfo) (st' : WalletConnect.state) (e' : Env) :
  WalletConnect.connect st e = (r, st', e') ->
  st' = st
  /\ e' = match r with
          | Ok info => if has_window e then setItem e (stringify_info info) else e
          | Err _ => e
          end.
Proof.
  unfold WalletConnect.connect.
  destruct (WalletConnect.provider st) as [p|];
    [|intros H; injection H as <- <- <-; split; reflexivity].
  destruct (provider_connect p) as [session|msg];
    [|intros H; injection H as <- <- <-; split; reflexivity].
  destruct (match hedera_accounts session with
            | Some (first :: _) => if Str.truthy first then Some first else None
            | _ => None
            end) as [str|];
    intros H; injection H as <- <- <-; split; reflexivity.
Qed.

Lemma shipped_connect_env (S : Type) (a : Adapter.WalletAdapter S)
  (Hshipped : shipped a) :
  forall s e r s' e',
    Adapter.connect a s e = (r, s', e') ->
    s' = s
    /\ e' = match r with
            | Ok info => if has_window e then setItem e (stringify_info info) else e
            | Err _ => e
            end.
Proof.
  destruct Hshipped as [|ok]; intros s e r s' e' Hconnect.
  - cbn [Adapter.connect HashConnect.adapter] in Hconnect.
    destruct (HashConnect.connect e) as [r1 e1] eqn:Hrun.
    injection Hconnect as <- <- <-. split; [reflexivity|].
    now apply hashconnect_connect_env.
  - now apply walletconnect_connect_env.
Qed.

Lemma connect_outcome (S : Type) (m m' : Manager S) (r : result WalletConnectionInfo) :
  connect m = (r, m') ->
  (Adapter.isAvailable (adapter m) (adapter_state m) (env m) = false
   /\ r = Err "No wallet provider available for the configured adapter"
   /\ connectionInfo m' = connectionInfo m
   /\ adapter_state m' = adapter_state m /\ env m' = env m)
  \/ (Adapter.isAvailable (adapter m) (adapter_state m) (env m) = true
      /\ Adapter.connect (adapter m) (adapter_state m) (env m)
         = (r, adapter_state m', env m')
      /\ connectionInfo m' = match r with
                             | Ok info => info_value info
                             | Err _ => connectionInfo m
                             end).
Proof.
  intros Hrun.
  destruct (Adapter.isAvailable (adapter m) (adapter_state m) (env m)) eqn:Hav.
  - right. split; [reflexivity|].
    destruct (Adapter.connect (adapter m) (adapter_state m) (env m)) as [[r1 s1] e1]
      eqn:Hadapter.
    rewrite (WalletFacts.connect_available m Hav Hadapter) in Hrun.
    injection Hrun as <- <-. split; reflexivity.
  - left. rewrite (WalletFacts.connect_unavailable m Hav) in Hrun.
    injection Hrun as <- <-. repeat split; reflexivity.
Qed.

Lemma stringify_info_truthy (info : WalletConnectionInfo) :
  Str.truthy (stringify_info info) = true.
Proof. reflexivity. Qed.

Lemma restore_persisted (T : Type) (a : option (Adapter.WalletAdapter T)) (s : T)
  (e : Env) (info : WalletConnectionInfo) :
  has_window e = true -> storage e = Some (stringify_info info) ->
  restoreConnection (create a s e)
  = (Ok (persisted_value info),
     {| connectionInfo := persisted_value info;
        adapter := adapter (create a s e);
        adapter_state := s; env := e; calls := [] |}).
Proof.
  intros Hwin Hslot. unfold restoreConnection.
  cbn [create env]. rewrite Hwin, Hslot. cbn [negb].
  rewrite stringify_info_truthy, JSONFacts.parse_stringify_info.
  reflexivity.
Qed.

Lemma persisted_reads_alike (info : WalletConnectionInfo) :
  member_or_null (persisted_value info) "accountId"
  = member_or_null (info_value info) "accountId"
  /\ member_or_null (persisted_value info) "network"
     = member_or_null (info_value info) "network".
Proof.
  destruct info as [[a|] n [p|]]; split; reflexivity.
Qed.

(** X17. A stored session survives a reload.  When [connect] has
    resolved with a record on a browser page and the page holds
    [JSON.stringify] of that record under the storage key, a manager
    created afterwards on the same page, with whatever adapter, gets the
    record back from [restoreConnection]: it is connected, and
    [getAccountId] and [getNetwork] read what they read on the manager
    that connected.  The page holds that entry whenever [connect] has
    resolved on a manager with [HashConnectAdapter]. *)
Theorem session_survives_reload (S T : Type) (m m' : Manager S)
  (info : WalletConnectionInfo) (a : option (Adapter.WalletAdapter T)) (s : T)
  (Hconnect : connect m = (Ok info, m'))
  (Hbrowser : has_window (env m') = true)
  (Hstored : storage (env m') = Some (stringify_info info)) :
  let reloaded := snd (restoreConnection (create a s (env m'))) in
  (fst (restoreConnection (create a s (env m'))) = Ok (persisted_value info)
   /\ isConnected reloaded = true
   /\ getAccountId reloaded = getAccountId m'
   /\ getNetwork reloaded = getNetwork m')
  /\ (forall (h h' : Manager unit) (answer : WalletConnectionInfo),
        adapter h = HashConnect.adapter ->
        connect h = (Ok answer, h') ->
        has_window (env h') = true
        /\ storage (env h') = Some (stringify_info answer)).
Proof.
  split.
  - destruct (connect_outcome m Hconnect)
      as [(_ & Hr & _)|(_ & _ & Hinfo)]; [discriminate|].
    rewrite (@restore_persisted T a s (env m') info Hbrowser Hstored).
    cbn [fst snd]. unfold getAccountId, getNetwork. cbn [connectionInfo].
    rewrite Hinfo.
    destruct (persisted_reads_alike info) as (Hid & Hnet).
    repeat split; assumption.
  - intros h h' answer Hadapter Hrun.
    destruct (connect_outcome h Hrun)
      as [(_ & Hr & _)|(Hav & Hcall & _)]; [discriminate|].
    rewrite Hadapter in Hav, Hcall.
    cbn [Adapter.isAvailable Adapter.connect HashConnect.adapter] in Hav, Hcall.
    destruct (HashConnect.connect (env h)) as [r1 e1] eqn:Hconn.
    injection Hcall as -> _ He1.
    apply hashconnect_connect_env in Hconn.
    unfold HashConnect.isAvailable in Hav. apply andb_prop in Hav as (Hwin & _).
    rewrite Hwin in Hconn. rewrite <- He1, Hconn. split; [exact Hwin|reflexivity].
Qed.

Lemma session_survives_reload_witness :
  let info := {| accountId := Some "0.0.4242"; network := "mainnet";
                 publicKey := Some "302a300506032b6570" |} in
  let page := Reference.page_with_wallet
                {| accountIds := Some ["0.0.4242"; "0.0.77"];
                   reported_network := Some "mainnet";
                   reported_publicKey := Some "302a300506032b6570" |} in
  let m := create (Some HashConnect.adapter) tt page in
  let reloaded :=
    snd (restoreConnection
           (create (Some (WalletConnect.adapter true)) WalletConnect.fresh
                   (env (snd (connect m))))) in
  isConnected reloaded = true
  /\ getAccountId reloaded = Str "0.0.4242"
  /\ getNetwork reloaded = Str "mainnet".
Proof.
  intros info page m reloaded.
  destruct (@session_survives_reload unit WalletConnect.state m (snd (connect m)) info
              (Some (WalletConnect.adapter true)) WalletConnect.fresh
              eq_refl eq_refl eq_refl) as ((_ & Hc & Hid & Hnet) & _).
  split; [exact Hc|split].
  - exact (eq_trans Hid eq_refl).
  - exact (eq_trans Hnet eq_refl).
Defined.

(** X18. A refused or failed [connect] leaves no trace.  With either
    adapter of the package, when [connect] rejects, the manager keeps the
    connection record it had, and the adapter's state and the page, the
    stored entry included, are as before the call. *)
Theorem failed_connect_leaves_no_trace (S : Type) (m m' : Manager S) (msg : string)
  (Hshipped : shipped (adapter m))
  (Hconnect : connect m = (Err msg, m')) :
  connectionInfo m' = connectionInfo m
  /\ adapter_state m' = adapter_state m
  /\ env m' = env m.
Proof.
  destruct (connect_outcome m Hconnect)
    as [(_ & _ & Hinfo & Hst & Henv)|(_ & Hadapter & Hinfo)].
  - repeat split; assumption.
  - destruct (shipped_connect_env Hshipped _ _ Hadapter) as (Hst & Henv).
    repeat split; assumption.
Qed.

Lemma failed_connect_leaves_no_trace_witness :
  let page :=
    {| has_window := true;
       hashpack := Some {| props := [("connect", Method (Err "User rejected the request"))];
                           on_transaction := fun tx => Ok tx |};
       storage := Some (stringify_info {| accountId := Some "0.0.9";
                                          network := "testnet"; publicKey := None |});
       universal_provider := None |} in
  let m := snd (init (create (Some HashConnect.adapter) tt page)) in
  fst (connect m) = Err "User rejected the request"
  /\ isConnected (snd (connect m)) = true
  /\ env (snd (connect m)) = page.
Proof.
  intros page m.
  destruct (@failed_connect_leaves_no_trace unit m (snd (connect m))
              "User rejected the request" shipped_hashpack eq_refl)
    as (Hinfo & _ & Henv).
  split; [reflexivity|split].
  - unfold isConnected. rewrite Hinfo. reflexivity.
  - rewrite Henv. reflexivity.
Defined.

Lemma restoreConnection_frame (S : Type) (m : Manager S) :
  exists v m',
    restoreConnection m = (Ok v, m')
    /\ adapter m' = adapter m /\ adapter_state m' = adapter_state m
    /\ calls m' = calls m
    /\ has_window (env m') = has_window (env m)
    /\ hashpack (env m') = hashpack (env m)
    /\ universal_provider (env m') = universal_provider (env m).
Proof.
  unfold restoreConnection, bind, set_connectionInfo, set_env, ret.
  destruct (has_window (env m)) eqn:Hwin; cbn [negb];
    [|exists Null, m; rewrite Hwin; repeat split; reflexivity].
  destruct (storage (env m)) as [stored|];
    [|exists Null, m; rewrite Hwin; repeat split; reflexivity].
  destruct (Str.truthy stored);
    [|exists Null, m; rewrite Hwin; repeat split; reflexivity].
  destruct (JSON.parse stored) as [v|]; eexists; eexists;
    (split; [reflexivity|]); cbn; rewrite Hwin; repeat split; reflexivity.
Qed.

Lemma walletconnect_init_resolves (connector_ok : bool)
  (m : Manager WalletConnect.state)
  (Hadapter : adapter m = WalletConnect.adapter connector_ok) :
  exists m',
    init m = (Ok tt, m')
    /\ adapter m' = adapter m
    /\ universal_provider (env m') = universal_provider (env m)
    /\ WalletConnect.provider (adapter_state m')
       = match WalletConnect.provider (adapter_state m) with
         | Some p => Some p
         | None => universal_provider (env m)
         end.
Proof.
  unfold init. rewrite Hadapter. cbn [Adapter.init WalletConnect.adapter].
  unfold bind, invoke, ret. rewrite Hadapter.
  destruct (WalletConnect.init connector_ok (adapter_state m) (env m))
    as [[r s1] e1] eqn:Hinit.
  assert (Hshape : r = Ok tt /\ e1 = env m
                   /\ WalletConnect.provider s1
                      = match WalletConnect.provider (adapter_state m) with
                        | Some p => Some p
                        | None => universal_provider (env m)
                        end).
  { revert Hinit. unfold WalletConnect.init.
    destruct (WalletConnect.provider (adapter_state m)) as [p|] eqn:Hp.
    - intros H; injection H as <- <- <-. now rewrite Hp.
    - destruct (universal_provider (env m)) as [p|];
        intros H; injection H as <- <- <-; repeat split; reflexivity. }
  destruct Hshape as (-> & -> & Hprov).
  match goal with
  | |- context [restoreConnection ?x] =>
      destruct (restoreConnection_frame x)
        as (v & mr & -> & Ha & Hs & _ & _ & _ & Hu)
  end.
  exists mr. cbn [adapter adapter_state env] in Ha, Hs, Hu.
  split; [reflexivity|split; [congruence|split; [exact Hu|]]].
  rewrite Hs. exact Hprov.
Qed.

Lemma walletconnect_disconnect_closes (connector_ok : bool)
  (m : Manager WalletConnect.state)
  (Hadapter : adapter m = WalletConnect.adapter connector_ok) :
  exists e1,
    disconnect m
    = (Ok tt, {| connectionInfo := Null; adapter := adapter m;
                 adapter_state := WalletConnect.fresh; env := e1;
                 calls := calls m ++ [CallDisconnect] |})
    /\ universal_provider e1 = universal_provider (env m).
Proof.
  unfold disconnect, bind, invoke, set_connectionInfo. rewrite Hadapter.
  cbn [Adapter.disconnect WalletConnect.adapter]. unfold WalletConnect.disconnect.
  destruct (WalletConnect.provider (adapter_state m)) as [p|].
  - destruct (provider_disconnect p) as [[u|msg]|]; cbn [try_catch];
      (eexists; split; [reflexivity|]); destruct (has_window (env m)); reflexivity.
  - cbn [try_catch].
    (eexists; split; [reflexivity|]); destruct (has_window (env m)); reflexivity.
Qed.

(** X19. A manager on the pairing adapter needs [init] again after every
    [disconnect].  [disconnect] always resolves, even when the provider's
    own [disconnect] rejects; it drops the provider, so the next
    [connect] is refused without reaching the adapter's [connect].  A
    following [init] resolves whether or not the pairing libraries load,
    and the adapter is available afterwards exactly when they did. *)
Theorem walletconnect_needs_init_after_disconnect (connector_ok : bool)
  (m : Manager WalletConnect.state)
  (Hadapter : adapter m = WalletConnect.adapter connector_ok) :
  let closed := snd (disconnect m) in
  let reopened := snd (init closed) in
  fst (disconnect m) = Ok tt
  /\ isConnected closed = false
  /\ fst (connect closed)
     = Err "No wallet provider available for the configured adapter"
  /\ calls (snd (connect closed))
     = (calls m ++ [CallDisconnect; CallIsAvailable])%list
  /\ fst (init closed) = Ok tt
  /\ Adapter.isAvailable (adapter reopened) (adapter_state reopened) (env reopened)
     = match universal_provider (env m) with Some _ => true | None => false end.
Proof.
  destruct (walletconnect_disconnect_closes m Hadapter) as (e1 & Hrun & Hprovider).
  intros closed reopened. subst reopened closed. rewrite Hrun. cbn [fst snd].
  split; [reflexivity|split; [reflexivity|]].
  rewrite WalletFacts.connect_unavailable
    by (cbn [adapter adapter_state env]; rewrite Hadapter; reflexivity).
  cbn [fst snd calls]. rewrite <- app_assoc.
  split; [reflexivity|split; [reflexivity|]].
  match goal with
  | |- context [init ?x] =>
      destruct (@walletconnect_init_resolves connector_ok x Hadapter)
        as (mr & -> & Ha & _ & Hp)
  end.
  cbn [fst snd adapter adapter_state env WalletConnect.provider WalletConnect.fresh]
    in Ha, Hp |- *.
  split; [reflexivity|].
  rewrite Ha, Hadapter. cbn [Adapter.isAvailable WalletConnect.adapter].
  unfold WalletConnect.isAvailable. rewrite Hp, Hprovider. reflexivity.
Qed.

Lemma walletconnect_needs_init_after_disconnect_witness :
  let p := {| provider_connect := Ok {| hedera_accounts := Some ["hedera:testnet:0.0.5005"] |};
              provider_disconnect := Some (Err "relay unreachable");
              provider_request := None |} in
  let m := snd (connect (snd (init (create (Some (WalletConnect.adapter true))
                                           WalletConnect.fresh (pairing_page p))))) in
  isConnected m = true
  /\ fst (disconnect m) = Ok tt
  /\ fst (connect (snd (disconnect m)))
     = Err "No wallet provider available for the configured adapter"
  /\ isConnected (snd (connect (snd (init (snd (disconnect m)))))) = true.
Proof.
  intros p m.
  destruct (@walletconnect_needs_init_after_disconnect true m eq_refl)
    as (Hd & _ & Hc & _ & _ & _).
  split; [reflexivity|split; [exact Hd|split; [exact Hc|reflexivity]]].
Defined.

(** X20. The wallet of the facade cannot connect as constructed.  The
    facade creates its manager without an adapter, so [connect] on it is
    refused before [init] whatever the environment holds.  Without a
    [WALLETCONNECT_PROJECT_ID] it is refused after [init] too, although
    [isHashPackAvailable] answers [true] on a page with the HashPack
    extension. *)
Theorem facade_wallet_needs_an_adapter (config : Facade.SDKConfig)
  (WALLETCONNECT_PROJECT_ID : option string) (connector_ok : bool) (e : Env)
  (sdk : Facade.SDK)
  (Hsdk : Facade.construct (Some config) WALLETCONNECT_PROJECT_ID connector_ok e
          = Ok sdk) :
  fst (connect (Facade.wallet sdk))
  = Err "No wallet provider available for the configured adapter"
  /\ (Facade.present WALLETCONNECT_PROJECT_ID = false ->
      fst (init (Facade.wallet sdk)) = Ok tt
      /\ fst (connect (snd (init (Facade.wallet sdk))))
         = Err "No wallet provider available for the configured adapter"
      /\ isHashPackAvailable (Facade.wallet sdk) = HashConnect.isAvailable e).
Proof.
  unfold Facade.construct in Hsdk.
  destruct (negb (Facade.present (Facade.apiBaseUrl config))
            || negb (Facade.present (Facade.network config))); [discriminate|].
  injection Hsdk as <-. cbn [Facade.wallet]. unfold default_manager.
  split.
  - rewrite WalletFacts.connect_unavailable; [reflexivity|].
    destruct WALLETCONNECT_PROJECT_ID as [pid|]; [destruct (Str.truthy pid)|];
      reflexivity.
  - intros Hnone.
    assert (Hstub : match WALLETCONNECT_PROJECT_ID with
                    | Some id => if Str.truthy id then WalletConnect.adapter connector_ok
                                 else unconfigured WalletConnect.state
                    | None => unconfigured WalletConnect.state
                    end = unconfigured WalletConnect.state).
    { destruct WALLETCONNECT_PROJECT_ID as [pid|]; [|reflexivity].
      cbn in Hnone. now rewrite Hnone. }
    rewrite Hstub. unfold init. cbn [create adapter unconfigured Adapter.init].
    unfold bind, ret.
    match goal with
    | |- context [restoreConnection ?x] =>
        destruct (restoreConnection_frame x) as (v & mr & -> & Ha & Hs & _)
    end.
    cbn [fst snd]. split; [reflexivity|split].
    + rewrite WalletFacts.connect_unavailable; [reflexivity|].
      rewrite Ha. reflexivity.
    + unfold isHashPackAvailable, HashConnect.isAvailable.
      cbn [env adapter adapter_state Adapter.isAvailable unconfigured create].
      destruct (has_window e && match hashpack e with Some _ => true | None => false end);
        reflexivity.
Qed.

Lemma facade_wallet_needs_an_adapter_witness :
  let page := Reference.page_with_wallet
                {| accountIds := Some ["0.0.4242"]; reported_network := None;
                   reported_publicKey := None |} in
  let sdk := {| Facade.client_retryOptions := Client.constructor_retryOptions None;
                Facade.wallet := default_manager None true page |} in
  isHashPackAvailable (Facade.wallet sdk) = true
  /\ fst (connect (Facade.wallet sdk))
     = Err "No wallet provider available for the configured adapter"
  /\ fst (connect (snd (init (Facade.wallet sdk))))
     = Err "No wallet provider available for the configured adapter".
Proof.
  intros page sdk.
  destruct (@facade_wallet_needs_an_adapter
              {| Facade.apiBaseUrl := Some "https://api.coinfantasy.io";
                 Facade.network := Some "testnet"; Facade.retryOptions := None |}
              None true page sdk eq_refl)
    as (Hbefore & Hafter).
  destruct (Hafter eq_refl) as (_ & Hc & Hhp).
  split; [exact (eq_trans Hhp eq_refl)|split; [exact Hbefore|exact Hc]].
Defined.

Lemma split_on_free (sep : ascii) :
  forall s cur,
    Str.all (fun c => negb (Ascii.eqb c sep)) s = true ->
    Str.split_on sep cur s = [(cur ++ s)%string].
Proof.
  induction s as [|c s IH]; intros cur Hfree.
  - cbn. now rewrite JSONFacts.append_nil_r.
  - cbn in Hfree. apply andb_prop in Hfree as (Hc & Hs).
    cbn [Str.split_on]. apply negb_true_iff in Hc. rewrite Hc.
    rewrite (IH _ Hs), JSONFacts.append_assoc. reflexivity.
Qed.

Lemma split_on_sep (sep : ascii) (rest : string) :
  forall a cur,
    Str.all (fun c => negb (Ascii.eqb c sep)) a = true ->
    Str.split_on sep cur (a ++ String sep rest)
    = (cur ++ a)%string :: Str.split_on sep EmptyString rest.
Proof.
  induction a as [|c a IH]; intros cur Hfree.
  - cbn. rewrite Ascii.eqb_refl, JSONFacts.append_nil_r. reflexivity.
  - cbn in Hfree. apply andb_prop in Hfree as (Hc & Ha).
    cbn [append Str.split_on]. apply negb_true_iff in Hc. rewrite Hc.
    rewrite (IH _ Ha), JSONFacts.append_assoc. reflexivity.
Qed.

(** X21. The pairing adapter reads the first account of the session as
    [namespace:network:account]: the record it resolves with holds the
    third part as [accountId], has no [publicKey], and names 'mainnet'
    only when the second part is exactly 'mainnet'; every other network
    name, 'previewnet' included, is recorded as 'testnet'. *)
Theorem walletconnect_reads_account_string (st : WalletConnect.state) (e : Env)
  (p : Provider) (ns net id : string) (others : list string)
  (Hp : WalletConnect.provider st = Some p)
  (Hsession : provider_connect p
              = Ok {| hedera_accounts :=
                        Some ((ns ++ ":" ++ net ++ ":" ++ id)%string :: others) |})
  (Hns : colon_free ns = true) (Hnet : colon_free net = true)
  (Hid : colon_free id = true) :
  fst (fst (WalletConnect.connect st e))
  = Ok {| accountId := Some id;
          network := if String.eqb net "mainnet" then "mainnet" else "testnet";
          publicKey := None |}.
Proof.
  unfold WalletConnect.connect. rewrite Hp, Hsession. cbn [hedera_accounts].
  assert (Hparts : Str.split ":" (ns ++ ":" ++ net ++ ":" ++ id) = [ns; net; id]).
  { unfold Str.split. cbn [append].
    rewrite (@split_on_sep ":"%char _ ns EmptyString Hns).
    rewrite (@split_on_sep ":"%char _ net EmptyString Hnet).
    rewrite (@split_on_free ":"%char id EmptyString Hid). reflexivity. }
  assert (Htruthy : Str.truthy (ns ++ ":" ++ net ++ ":" ++ id) = true)
    by (destruct ns; reflexivity).
  rewrite Htruthy, Hparts. cbn [nth_error fst].
  destruct (String.eqb net "mainnet"); reflexivity.
Qed.

Lemma walletconnect_reads_account_string_witness :
  fst (fst (WalletConnect.connect
              {| WalletConnect.provider := Some (pairing ["hedera:previewnet:0.0.5005"]);
                 WalletConnect.connector := true |}
              (pairing_page (pairing ["hedera:previewnet:0.0.5005"]))))
  = Ok {| accountId := Some "0.0.5005"; network := "testnet"; publicKey := None |}.
Proof.
  exact (@walletconnect_reads_account_string
           {| WalletConnect.provider := Some (pairing ["hedera:previewnet:0.0.5005"]);
              WalletConnect.connector := true |}
           (pairing_page (pairing ["hedera:previewnet:0.0.5005"]))
           (pairing ["hedera:previewnet:0.0.5005"])
           "hedera" "previewnet" "0.0.5005" [] eq_refl eq_refl eq_refl eq_refl eq_refl).
Defined.

(** X22. A session whose first account is a bare id, without the
    [namespace:network:] prefix, still connects: the manager ends up
    connected on 'testnet' with a record that has no account id, so
    [getAccountId] answers [null] on a connected manager. *)
Theorem bare_account_connects_without_id (connector_ok : bool)
  (m : Manager WalletConnect.state) (p : Provider) (acct : string)
  (others : list string)
  (Hadapter : adapter m = WalletConnect.adapter connector_ok)
  (Hp : WalletConnect.provider (adapter_state m) = Some p)
  (Hsession : provider_connect p = Ok {| hedera_accounts := Some (acct :: others) |})
  (Hbare : colon_free acct = true) (Hsome : acct <> EmptyString) :
  fst (connect m) = Ok {| accountId := None; network := "testnet"; publicKey := None |}
  /\ isConnected (snd (connect m)) = true
  /\ getAccountId (snd (connect m)) = Null
  /\ getNetwork (snd (connect m)) = Str "testnet".
Proof.
  assert (Hav : Adapter.isAvailable (adapter m) (adapter_state m) (env m) = true).
  { rewrite Hadapter. cbn [Adapter.isAvailable WalletConnect.adapter].
    unfold WalletConnect.isAvailable. now rewrite Hp. }
  destruct (Adapter.connect (adapter m) (adapter_state m) (env m)) as [[r s1] e1]
    eqn:Hrun.
  rewrite (WalletFacts.connect_available m Hav Hrun).
  assert (Hr : r = Ok {| accountId := None; network := "testnet"; publicKey := None |}).
  { revert Hrun. rewrite Hadapter. cbn [Adapter.connect WalletConnect.adapter].
    unfold WalletConnect.connect. rewrite Hp, Hsession. cbn [hedera_accounts].
    assert (Htruthy : Str.truthy acct = true) by (destruct acct; [congruence|reflexivity]).
    rewrite Htruthy. unfold Str.split.
    rewrite (@split_on_free ":"%char acct EmptyString Hbare).
    cbn [nth_error]. intros H. injection H as <- _ _. reflexivity. }
  subst r. repeat split.
Qed.

Lemma bare_account_connects_without_id_witness :
  let m := snd (init (create (Some (WalletConnect.adapter true)) WalletConnect.fresh
                             (pairing_page (pairing ["0.0.5005"])))) in
  isConnected (snd (connect m)) = true
  /\ getAccountId (snd (connect m)) = Null.
Proof.
  intros m.
  destruct (@bare_account_connects_without_id true m (pairing ["0.0.5005"])
              "0.0.5005" [] eq_refl eq_refl eq_refl eq_refl)
    as (_ & Hc & Hid & _).
  - discriminate.
  - split; assumption.
Defined.

Lemma hex_pair_of_byte (b : Byte.byte) :
  WalletConnect.hex_pair (JSON.hex_digit (Z.of_N (Byte.to_N b) / 16))
                         (JSON.hex_digit (Z.of_N (Byte.to_N b) mod 16))
  = Some b.
Proof. destruct b; reflexivity. Qed.

Lemma from_hex_to_hex (bs : bytes) : WalletConnect.from_hex (to_hex bs) = bs.
Proof.
  induction bs as [|b bs IH]; [reflexivity|].
  cbn [to_hex]. unfold hex_of_byte. cbn [append WalletConnect.from_hex].
  rewrite hex_pair_of_byte, IH. reflexivity.
Qed.

Lemma strip_0x_to_hex (bs : bytes) :
  WalletConnect.strip_0x (to_hex bs) = to_hex bs.
Proof.
  unfold WalletConnect.strip_0x.
  destruct bs as [|b bs]; [reflexivity|].
  assert (Hno : Str.startsWith (to_hex (b :: bs)) "0x" = false)
    by (destruct b; reflexivity).
  now rewrite Hno.
Qed.

Lemma to_uint8_of_byte (b : Byte.byte) :
  WalletConnect.to_uint8 (Z.of_N (Byte.to_N b)) = b.
Proof. destruct b; reflexivity. Qed.

(** X23. The pairing adapter hands back the same bytes whichever way the
    wallet encodes them: as a byte array, as a hexadecimal string with or
    without the [0x] prefix, or as an array of numbers. *)
Theorem requestTransaction_decodes_every_encoding (st : WalletConnect.state)
  (e : Env) (p : Provider) (request : string -> bytes -> result Reply)
  (tx signed : bytes)
  (Hp : WalletConnect.provider st = Some p)
  (Hrequest : provider_request p = Some request)
  (Hreply : request "hedera_sendTransaction" tx = Ok (ReplyBytes signed)
            \/ request "hedera_sendTransaction" tx = Ok (ReplyHex (to_hex signed))
            \/ request "hedera_sendTransaction" tx
               = Ok (ReplyHex ("0x" ++ to_hex signed))
            \/ request "hedera_sendTransaction" tx = Ok (ReplyArray (to_array signed))) :
  WalletConnect.requestTransaction tx st e = (Ok signed, st, e).
Proof.
  unfold WalletConnect.requestTransaction. rewrite Hp, Hrequest.
  destruct Hreply as [ -> | [ -> | [ -> | -> ]]].
  - reflexivity.
  - now rewrite strip_0x_to_hex, from_hex_to_hex.
  - assert (Hstrip : WalletConnect.strip_0x ("0x" ++ to_hex signed) = to_hex signed)
      by (unfold WalletConnect.strip_0x; destruct (to_hex signed); reflexivity).
    now rewrite Hstrip, from_hex_to_hex.
  - unfold to_array. rewrite map_map.
    rewrite (map_ext _ (fun b => b) to_uint8_of_byte), map_id. reflexivity.
Qed.

Lemma requestTransaction_decodes_every_encoding_witness :
  WalletConnect.requestTransaction [Byte.x0a; Byte.x02]
    {| WalletConnect.provider := Some (answering (ReplyHex "0x00ff10"));
       WalletConnect.connector := false |} (Reference.page None)
  = (Ok [Byte.x00; Byte.xff; Byte.x10],
     {| WalletConnect.provider := Some (answering (ReplyHex "0x00ff10"));
        WalletConnect.connector := false |}, Reference.page None).
Proof.
  apply (@requestTransaction_decodes_every_encoding
           {| WalletConnect.provider := Some (answering (ReplyHex "0x00ff10"));
              WalletConnect.connector := false |} (Reference.page None)
           (answering (ReplyHex "0x00ff10")) (fun _ _ => Ok (ReplyHex "0x00ff10"))
           [Byte.x0a; Byte.x02] [Byte.x00; Byte.xff; Byte.x10] eq_refl eq_refl).
  right. right. left. reflexivity.
Defined.

Lemma lookup_own (hp : HashPack) (p : string * member) :
  NoDup (List.map fst (props hp)) -> In p (props hp) ->
  HashConnect.lookup (fst p) hp = Some (snd p).
Proof.
  unfold HashConnect.lookup. induction (props hp) as [|q l IH]; intros Hnd Hin.
  - destruct Hin.
  - cbn [List.map] in Hnd. apply NoDup_cons_iff in Hnd as (Hfresh & Hnd).
    cbn [find]. destruct Hin as [->|Hin].
    + now rewrite String.eqb_refl.
    + destruct (String.eqb_spec (fst q) (fst p)) as [Heq|_].
      * exfalso. apply Hfresh. rewrite Heq. now apply in_map.
      * now apply IH.
Qed.

Lemma lookup_is_own (hp : HashPack) (name : string) (mb : member) :
  HashConnect.lookup name hp = Some mb -> In (name, mb) (props hp).
Proof.
  unfold HashConnect.lookup.
  destruct (find (fun p => String.eqb (fst p) name) (props hp)) as [[k v]|] eqn:Hfind;
    [|discriminate].
  apply find_some in Hfind as (Hin & Hkey). cbn [fst] in Hkey.
  apply String.eqb_eq in Hkey as ->. intros H. injection H as <-. exact Hin.
Qed.

(** X24. [probeConnectMethod] answers with the name of a function-valued
    property whenever the injected object has one, and with [null] only
    when it has none.  The four usual names are preferred, but any other
    function of the object, [disconnect] for one, is taken as the connect
    method when none of the four is a function. *)
Theorem probeConnectMethod_takes_any_function (hp : HashPack)
  (Hkeys : NoDup (List.map fst (props hp))) :
  (forall name, HashConnect.probeConnectMethod hp = Some name ->
                HashConnect.is_function (HashConnect.lookup name hp) = true)
  /\ (HashConnect.probeConnectMethod hp = None <->
      forall name, HashConnect.is_function (HashConnect.lookup name hp) = false)
  /\ (forall name, In name HashConnect.candidates ->
        HashConnect.is_function (HashConnect.lookup name hp) = true ->
        exists chosen, HashConnect.probeConnectMethod hp = Some chosen
                       /\ In chosen HashConnect.candidates).
Proof.
  unfold HashConnect.probeConnectMethod.
  destruct (find (fun name => HashConnect.is_function (HashConnect.lookup name hp))
                 HashConnect.candidates) as [c|] eqn:Hfirst.
  - apply find_some in Hfirst as (Hin & Hfun).
    split; [|split].
    + intros name H. now injection H as <-.
    + split; [discriminate|]. intros Hnone. now rewrite Hnone in Hfun.
    + intros name _ _. now exists c.
  - pose proof (find_none _ _ Hfirst) as Hnot.
    destruct (find (fun p => HashConnect.is_function (Some (snd p))) (props hp))
      as [p|] eqn:Hsecond.
    + apply find_some in Hsecond as (Hin & Hfun).
      split; [|split].
      * intros name H. injection H as <-. now rewrite (lookup_own hp p Hkeys Hin).
      * split; [discriminate|]. intros Hnone.
        specialize (Hnone (fst p)). rewrite (lookup_own hp p Hkeys Hin) in Hnone.
        now rewrite Hnone in Hfun.
      * intros name Hcand Hfun'. now rewrite (Hnot name Hcand) in Hfun'.
    + pose proof (find_none _ _ Hsecond) as Hnot2.
      split; [|split].
      * discriminate.
      * split; [|reflexivity]. intros _ name.
        destruct (HashConnect.lookup name hp) as [mb|] eqn:Hlook; [|reflexivity].
        apply lookup_is_own in Hlook. exact (Hnot2 _ Hlook).
      * intros name Hcand Hfun'. now rewrite (Hnot name Hcand) in Hfun'.
Qed.

Lemma probeConnectMethod_takes_any_function_witness :
  let hp := {| props := [("version", Data true);
                         ("disconnect", Method (Ok None));
                         ("requestTransaction", Method (Ok None))];
               on_transaction := fun tx => Ok tx |} in
  HashConnect.probeConnectMethod hp = Some "disconnect"
  /\ HashConnect.is_function (HashConnect.lookup "disconnect" hp) = true.
Proof.
  intros hp.
  assert (Hkeys : NoDup (List.map fst (props hp))).
  { repeat constructor; simpl; intuition discriminate. }
  destruct (probeConnectMethod_takes_any_function hp Hkeys) as (Hsound & _).
  split; [reflexivity|apply Hsound; reflexivity].
Defined.

(** X25. [HashConnectAdapter.getAccounts] never rejects: whatever the
    wallet does, it resolves with a list, the empty one when the wallet
    is missing or has no function to call, or when the function it calls
    throws or answers without accounts.  When that function answers
    with a list of accounts, [getAccounts] resolves with that list. *)
Theorem getAccounts_never_rejects (e : Env) :
  (exists ids, getAccounts e = Ok ids)
  /\ (HashConnect.isAvailable e = false -> getAccounts e = Ok [])
  /\ (forall hp, HashConnect.waitForHashPack e = Some hp ->
      HashConnect.probeConnectMethod hp = None -> getAccounts e = Ok [])
  /\ (forall hp method,
        HashConnect.waitForHashPack e = Some hp ->
        HashConnect.probeConnectMethod hp = Some method ->
        forall answer,
          HashConnect.lookup method hp = Some (Method answer) ->
          getAccounts e
          = Ok (match answer with
                | Ok (Some r) =>
                    match accountIds r with Some ids => ids | None => [] end
                | Ok None | Err _ => []
                end)).
Proof.
  split; [|split; [|split]].
  - unfold getAccounts.
    destruct (HashConnect.waitForHashPack e) as [hp|]; [|now exists []].
    destruct (HashConnect.probeConnectMethod hp) as [name|]; [|now exists []].
    destruct (HashConnect.lookup name hp) as [[[[res|]|msg]|b]|]; cbn [try_catch];
      try (now exists []).
    destruct (accountIds res) as [ids|]; now eexists.
  - unfold getAccounts, HashConnect.isAvailable, HashConnect.waitForHashPack.
    destruct (has_window e); [|reflexivity].
    destruct (hashpack e); [discriminate|reflexivity].
  - intros hp Hhp Hnone. unfold getAccounts. now rewrite Hhp, Hnone.
  - intros hp method Hhp Hmethod answer Hcall. unfold getAccounts.
    rewrite Hhp, Hmethod, Hcall.
    destruct answer as [[res|]|msg]; cbn [try_catch]; try reflexivity.
    destruct (accountIds res); reflexivity.
Qed.

Lemma getAccounts_never_rejects_witness :
  let answer := {| accountIds := Some ["0.0.4242"; "0.0.77"];
                   reported_network := None; reported_publicKey := None |} in
  getAccounts (Reference.page None) = Ok []
  /\ getAccounts (Reference.page_with_wallet answer) = Ok ["0.0.4242"; "0.0.77"].
Proof.
  intros answer.
  destruct (getAccounts_never_rejects (Reference.page None)) as (_ & Hnone & _).
  destruct (getAccounts_never_rejects (Reference.page_with_wallet answer))
    as (_ & _ & _ & Hsome).
  split; [exact (Hnone eq_refl)|].
  exact (Hsome _ "connectToLocalWallet" eq_refl eq_refl (Ok (Some answer)) eq_refl).
Defined.

Lemma poll_hashpack_returns (timer : Z -> Z -> Z)
  (Htimer : RateLimiter.timer_sound timer)
  (hashpack_at : Z -> option HashPack) (timeoutMs start : Z) :
  forall (fuel : nat) (now : Z),
    start + timeoutMs - now <= 250 * Z.of_nat fuel ->
    exists r t,
      poll_hashpack timer hashpack_at timeoutMs start (S fuel) now = Some (r, t)
      /\ now <= t
      /\ match r with
         | Some hp => hashpack_at t = Some hp /\ t - start < timeoutMs
         | None => timeoutMs <= t - start
         end
      /\ ((forall u, hashpack_at u = hashpack_at start) ->
          now - start < timeoutMs -> r = hashpack_at start).
Proof.
  induction fuel as [|fuel IH]; intros now Hfuel; cbn [poll_hashpack].
  - destruct (Z.ltb_spec (now - start) timeoutMs) as [Hlt|Hge]; [lia|].
    exists None, now. repeat split; try lia.
  - destruct (Z.ltb_spec (now - start) timeoutMs) as [Hlt|Hge].
    + destruct (hashpack_at now) as [hp|] eqn:Hnow.
      * exists (Some hp), now. repeat split; try lia; try assumption.
        intros Hstatic _. now rewrite <- Hnow, Hstatic.
      * destruct (Htimer now 250) as (_ & Hlater).
        destruct (IH (timer now 250)) as (r & t & Hrun & Ht & Hr & Hstatic); [lia|].
        exists r, t. split; [exact Hrun|split; [lia|split; [exact Hr|]]].
        intros Hconst _. destruct r as [hp|].
        -- destruct Hr as (Hr & _). now rewrite <- Hr, Hconst.
        -- now rewrite <- Hnow, Hconst.
    + exists None, now. repeat split; try lia.
Qed.

(** X26. [waitForHashPack] stops.  With a clock that never fires early
    it returns after at most one poll per 250 ms of the timeout, plus
    one.  What it returns is the global as read at the time of return,
    read before the timeout has run out, or [null] once the timeout has
    run out (at once when there is no [window]).  When the global does
    not change while it waits and the timeout is positive, it returns
    what the global holds. *)
Theorem waitForHashPack_stops (timer : Z -> Z -> Z) (has_window : bool)
  (hashpack_at : Z -> option HashPack) (timeoutMs : Z) (fuel : nat) (now : Z)
  (Htimer : RateLimiter.timer_sound timer)
  (Hfuel : timeoutMs <= 250 * Z.of_nat fuel) :
  exists r t,
    waitForHashPack timer has_window hashpack_at timeoutMs (S fuel) now = Some (r, t)
    /\ now <= t
    /\ match r with
       | Some hp => has_window = true /\ hashpack_at t = Some hp /\ t - now < timeoutMs
       | None => has_window = false /\ t = now \/ timeoutMs <= t - now
       end
    /\ ((forall u, hashpack_at u = hashpack_at now) -> 0 < timeoutMs ->
        r = HashConnect.waitForHashPack
              {| Wallet.has_window := has_window; hashpack := hashpack_at now;
                 storage := None; universal_provider := None |}).
Proof.
  unfold waitForHashPack, HashConnect.waitForHashPack. cbn [Wallet.has_window hashpack].
  destruct has_window; cbn [negb].
  - destruct (@poll_hashpack_returns timer Htimer hashpack_at timeoutMs now fuel now)
      as (r & t & Hrun & Ht & Hr & Hstatic); [lia|].
    exists r, t. split; [exact Hrun|split; [exact Ht|split]].
    + destruct r as [hp|]; [|now right]. destruct Hr. now repeat split.
    + intros Hconst Hpos. apply Hstatic; [exact Hconst|lia].
  - exists None, now. split; [reflexivity|split; [lia|split]].
    + left. split; reflexivity.
    + reflexivity.
Qed.

Lemma waitForHashPack_stops_witness :
  let hp := {| props := [("connect", Method (Ok None))];
               on_transaction := fun tx => Ok tx |} in
  let injected_at_600 := fun t => if 600 <=? t then Some hp else None in
  exists t,
    waitForHashPack RateLimiter.exact_timer true injected_at_600 3000 13 0
    = Some (Some hp, t)
    /\ injected_at_600 t = Some hp /\ t - 0 < 3000.
Proof.
  intros hp injected_at_600.
  destruct (@waitForHashPack_stops RateLimiter.exact_timer true injected_at_600
              3000 12 0 RateLimiterFacts.exact_timer_sound)
    as (r & t & Hrun & _ & Hr & _); [simpl; lia|].
  assert (Hsome : r = Some hp).
  { assert (Hrun' : waitForHashPack RateLimiter.exact_timer true injected_at_600
                      3000 13 0 = Some (Some hp, 750)) by reflexivity.
    rewrite Hrun' in Hrun. now injection Hrun as <- _. }
  subst r. exists t. destruct Hr as (_ & Hat & Hlt). now repeat split.
Defined.

Lemma length_take (n : nat) :
  forall s, (n <= String.length s)%nat -> String.length (take n s) = n.
Proof.
  induction n as [|n IH]; intros [|c s] Hlen; cbn in *; try lia.
  now rewrite IH by lia.
Qed.

Lemma length_drop (n : nat) :
  forall s, String.length (JSON.drop n s) = (String.length s - n)%nat.
Proof.
  induction n as [|n IH]; intros [|c s]; cbn; try lia. apply IH.
Qed.

Lemma take_append (a b : string) : take (String.length a) (a ++ b) = a.
Proof.
  induction a as [|c a IH]; cbn; [now destruct b|now rewrite IH].
Qed.

Lemma drop_append (a b : string) : JSON.drop (String.length a) (a ++ b) = b.
Proof.
  induction a as [|c a IH]; cbn; [now destruct b|exact IH].
Qed.

Lemma all_append (p : ascii -> bool) (a b : string) :
  Str.all p (a ++ b) = Str.all p a && Str.all p b.
Proof.
  induction a as [|c a IH]; cbn; [reflexivity|]. now rewrite IH, andb_assoc.
Qed.

Lemma all_take (p : ascii -> bool) (n : nat) :
  forall s, Str.all p s = true -> Str.all p (take n s) = true.
Proof.
  induction n as [|n IH]; intros [|c s] H; cbn in *; try reflexivity.
  apply andb_prop in H as (Hc & Hs). now rewrite Hc, IH.
Qed.

Lemma all_drop (p : ascii -> bool) (n : nat) :
  forall s, Str.all p s = true -> Str.all p (JSON.drop n s) = true.
Proof.
  induction n as [|n IH]; intros [|c s] H; cbn in *; try reflexivity; try exact H.
  apply andb_prop in H as (_ & Hs). now apply IH.
Qed.

(** X27. [formatAccountId] leaves an id of at most 12 ASCII characters
    alone and shortens a longer one to its first six characters, three
    dots and its last six, 15 ASCII characters in all (so an id of 13 or
    14 characters comes out longer than it went in).  Formatting twice
    gives the same as formatting once. *)
Theorem formatAccountId_is_idempotent (accountId : string)
  (Hascii : ascii_only accountId = true) :
  formatAccountId (formatAccountId accountId) = formatAccountId accountId
  /\ ascii_only (formatAccountId accountId) = true
  /\ ((String.length accountId <= 12)%nat -> formatAccountId accountId = accountId)
  /\ ((12 < String.length accountId)%nat ->
      String.length (formatAccountId accountId) = 15%nat
      /\ take 6 (formatAccountId accountId) = take 6 accountId
      /\ JSON.drop 9 (formatAccountId accountId)
         = JSON.drop (String.length accountId - 6) accountId).
Proof.
  assert (Hshort : forall s, (String.length s <= 12)%nat -> formatAccountId s = s).
  { intros s Hs. unfold formatAccountId.
    destruct (Nat.leb_spec (String.length s) 12); [|lia]. now rewrite orb_true_r. }
  assert (Hlong : (12 < String.length accountId)%nat ->
                  formatAccountId accountId
                  = (take 6 accountId ++ "..."
                     ++ JSON.drop (String.length accountId - 6) accountId)%string).
  { intros Hs. unfold formatAccountId.
    destruct (Nat.leb_spec (String.length accountId) 12); [lia|].
    destruct accountId; [cbn in Hs; lia|reflexivity]. }
  assert (Hparts : (12 < String.length accountId)%nat ->
                   String.length (take 6 accountId) = 6%nat
                   /\ String.length
                        (JSON.drop (String.length accountId - 6) accountId) = 6%nat).
  { intros Hs. split; [apply length_take; lia|rewrite length_drop; lia]. }
  assert (Hthird : (12 < String.length accountId)%nat ->
      String.length (formatAccountId accountId) = 15%nat
      /\ take 6 (formatAccountId accountId) = take 6 accountId
      /\ JSON.drop 9 (formatAccountId accountId)
         = JSON.drop (String.length accountId - 6) accountId).
  { intros Hs. destruct (Hparts Hs) as (Htake & Hdrop). rewrite (Hlong Hs).
    split; [|split].
    - rewrite !JSONFacts.length_append, Htake, Hdrop. reflexivity.
    - rewrite <- Htake at 1. apply take_append.
    - rewrite <- JSONFacts.append_assoc.
      replace 9%nat with (String.length (take 6 accountId ++ "...")%string)
        by (rewrite JSONFacts.length_append, Htake; reflexivity).
      apply drop_append. }
  split; [|split; [|split; [apply Hshort|exact Hthird]]].
  2:{ destruct (Nat.leb_spec (String.length accountId) 12) as [Hs|Hs].
      - now rewrite (Hshort accountId Hs).
      - rewrite (Hlong Hs). unfold ascii_only in *. rewrite !all_append.
        rewrite (all_take _ 6 accountId Hascii).
        rewrite (all_drop _ (String.length accountId - 6) accountId Hascii).
        reflexivity. }
  destruct (Nat.leb_spec (String.length accountId) 12) as [Hs|Hs].
  - rewrite (Hshort accountId Hs). exact (Hshort accountId Hs).
  - destruct (Hthird Hs) as (Hlen & Htake & Hdrop).
    assert (Hagain : formatAccountId (formatAccountId accountId)
                     = (take 6 (formatAccountId accountId) ++ "..."
                        ++ JSON.drop (String.length (formatAccountId accountId) - 6)
                             (formatAccountId accountId))%string).
    { unfold formatAccountId at 1.
      destruct (Nat.leb_spec (String.length (formatAccountId accountId)) 12); [lia|].
      destruct (formatAccountId accountId); [cbn in Hlen; lia|reflexivity]. }
    rewrite Hagain, Hlen. change (15 - 6)%nat with 9%nat.
    rewrite Htake, Hdrop. symmetry. exact (Hlong Hs).
Qed.

Lemma formatAccountId_is_idempotent_witness :
  formatAccountId "0.0.1234567890" = "0.0.12...567890"
  /\ String.length (formatAccountId "0.0.123456789") = 15%nat
  /\ formatAccountId "0.0.12345678" = "0.0.12345678".
Proof.
  destruct (@formatAccountId_is_idempotent "0.0.123456789" eq_refl)
    as (_ & _ & _ & Hlong).
  destruct (@formatAccountId_is_idempotent "0.0.12345678" eq_refl)
    as (_ & _ & Hshort & _).
  split; [reflexivity|split; [apply Hlong; simpl; lia|apply Hshort; simpl; lia]].
Defined.

End WalletMoreFacts.

(* ================================================================== *)
(** * Properties of the facade *)

Module FacadeFacts.
Import Wallet Facade.

Lemma poll_operation_returns (timer : Z -> Z -> Z)
  (Htimer : RateLimiter.timer_sound timer)
  (gateway : nat -> Z -> result OperationStatus * Z)
  (Hgateway : gateway_sound gateway)
  (operationId : string) (interval limit startTime : Z) (Hpos : 0 < interval) :
  forall (fuel k : nat) (now : Z),
    startTime + limit - now <= interval * Z.of_nat fuel ->
    exists r t,
      poll_operation timer gateway operationId interval limit startTime (S fuel) k now
      = Some (r, t)
      /\ now <= t
      /\ match r with
         | Ok st =>
             settled st = true
             /\ exists j sent, (k <= j)%nat /\ gateway j sent = (Ok st, t)
                               /\ sent - startTime < limit
         | Err msg =>
             (msg = ("Operation " ++ operationId ++ " timed out after "
                     ++ decimal limit ++ "ms")%string
              /\ limit <= t - startTime)
             \/ exists j sent, (k <= j)%nat /\ gateway j sent = (Err msg, t)
         end.
Proof.
  induction fuel as [|fuel IH]; intros k now Hfuel.
  - cbn [poll_operation].
    destruct (Z.ltb_spec (now - startTime) limit) as [Hlt|Hge]; [lia|].
    eexists; eexists. split; [reflexivity|split; [lia|left; split; [reflexivity|lia]]].
  - remember (S fuel) as f eqn:Hf. cbn [poll_operation]. subst f.
    destruct (Z.ltb_spec (now - startTime) limit) as [Hlt|Hge].
    + pose proof (Hgateway k now) as Hsent.
      destruct (gateway k now) as [[st|msg] t1] eqn:Hask; cbn [snd] in Hsent.
      * destruct (settled st) eqn:Hsettled.
        -- exists (Ok st), t1. split; [reflexivity|split; [exact Hsent|]].
           split; [exact Hsettled|]. exists k, now. now repeat split.
        -- destruct (Htimer t1 interval) as (_ & Hlater).
           destruct (IH (S k) (timer t1 interval)) as (r & t & Hrun & Ht & Hr); [lia|].
           exists r, t. split; [exact Hrun|split; [lia|]].
           destruct r as [st'|msg].
           ++ destruct Hr as (Hs & j & sent & Hj & Hg & Hlim).
              split; [exact Hs|]. exists j, sent. repeat split; try assumption. lia.
           ++ destruct Hr as [Hr|(j & sent & Hj & Hg)]; [now left|].
              right. exists j, sent. split; [lia|exact Hg].
      * exists (Err msg), t1. split; [reflexivity|split; [exact Hsent|]].
        right. now exists k, now.
    + eexists; eexists.
      split; [reflexivity|split; [lia|left; split; [reflexivity|lia]]].
Qed.

(** X28. [waitForOperation] stops.  With a clock that never fires early,
    a gateway that never answers before it is asked and a poll interval
    that is not negative, it returns after at most one poll per interval
    of the timeout, plus one; a missing or zero [pollInterval] counts as
    2000 ms and a missing or zero [timeout] as 60000 ms.  What it returns
    is a status the gateway reported as [COMPLETED] or [FAILED] to a poll
    sent before the timeout ran out, or an error: the gateway's own, or
    the time-out error, which is thrown only once the timeout has run
    out. *)
Theorem waitForOperation_stops (timer : Z -> Z -> Z)
  (gateway : nat -> Z -> result OperationStatus * Z)
  (operationId : string) (options : WaitOptions) (fuel : nat) (now : Z)
  (Htimer : RateLimiter.timer_sound timer)
  (Hgateway : gateway_sound gateway)
  (Hinterval : forall p, pollInterval options = Some p -> 0 <= p)
  (Hfuel : Client.or_else (timeout options) 60000
           <= Client.or_else (pollInterval options) 2000 * Z.of_nat fuel) :
  exists r t,
    waitForOperation timer gateway operationId options (S fuel) now = Some (r, t)
    /\ now <= t
    /\ match r with
       | Ok st =>
           (status st = COMPLETED \/ status st = FAILED)
           /\ exists j sent, gateway j sent = (Ok st, t)
                             /\ sent - now < Client.or_else (timeout options) 60000
       | Err msg =>
           (msg = ("Operation " ++ operationId ++ " timed out after "
                   ++ decimal (Client.or_else (timeout options) 60000) ++ "ms")%string
            /\ Client.or_else (timeout options) 60000 <= t - now)
           \/ exists j sent, gateway j sent = (Err msg, t)
       end.
Proof.
  assert (Hpos : 0 < Client.or_else (pollInterval options) 2000).
  { unfold Client.or_else. destruct (pollInterval options) as [p|] eqn:Hp; [|lia].
    specialize (Hinterval p eq_refl). destruct (Z.eqb_spec p 0); lia. }
  unfold waitForOperation. cbv zeta.
  destruct (@poll_operation_returns timer Htimer gateway Hgateway operationId
              _ (Client.or_else (timeout options) 60000) now Hpos fuel 0%nat now)
    as (r & t & Hrun & Ht & Hr); [lia|].
  exists r, t. split; [exact Hrun|split; [exact Ht|]].
  destruct r as [st|msg].
  - destruct Hr as (Hs & j & sent & _ & Hg & Hlim). split.
    + unfold settled in Hs. destruct (status st); try discriminate; auto.
    + now exists j, sent.
  - destruct Hr as [Hr|(j & sent & _ & Hg)]; [now left|right; now exists j, sent].
Qed.

Lemma waitForOperation_stops_witness :
  exists r t,
    waitForOperation RateLimiter.exact_timer (completes_after 2 100 "op-17") "op-17"
      {| pollInterval := Some 0; timeout := Some 10000 |} 6 0 = Some (r, t)
    /\ 0 <= t
    /\ match r with
       | Ok st =>
           (status st = COMPLETED \/ status st = FAILED)
           /\ exists j sent, completes_after 2 100 "op-17" j sent = (Ok st, t)
                             /\ sent - 0 < 10000
       | Err msg =>
           (msg = ("Operation " ++ "op-17" ++ " timed out after "
                   ++ decimal 10000 ++ "ms")%string
            /\ 10000 <= t - 0)
           \/ exists j sent, completes_after 2 100 "op-17" j sent = (Err msg, t)
       end.
Proof.
  apply (@waitForOperation_stops RateLimiter.exact_timer (completes_after 2 100 "op-17")
           "op-17" {| pollInterval := Some 0; timeout := Some 10000 |} 5 0
           RateLimiterFacts.exact_timer_sound).
  - intros k t. simpl. lia.
  - intros p Hp. injection Hp as <-. lia.
  - simpl. lia.
Defined.

End FacadeFacts.
